(** * ts-document: the schema-extraction engine of [src/generate.ts]

    A shallow embedding of [generate.ts].  The ts-morph project that the
    engine walks (nodes, symbols, types) is a set of tables indexed by
    identifiers, so that cyclic type graphs can be written down; the
    engine's two mutable accumulators ([nestedTypeList] and the
    [Set<Type>] of parsed nested types) are threaded explicitly.

    Conventions.
    - A JavaScript [string] is a [string]; [\w] and [\s] of the property
      regular expression are read over ASCII.  The Unicode white space
      that [\s] also accepts lies outside this model, so what is proved
      about the shape of a member text is proved of ASCII texts.
    - [undefined]/[null] is [None]; truthiness of a [string | undefined] is
      [truthy].
    - An object used as a dictionary ([schemaMap], the default-type map) is
      the [gmap string _] of its own enumerable properties, read with
      [js_get] and written with [js_set]: a read also finds what the
      object inherits from [Object.prototype], and a write under
      [__proto__] creates no property.
    - [Set<Type>] is a duplicate-free list in insertion order, the order in
      which [for ... of] walks it.
    - A dereference of [undefined], or a call of a method that the receiver
      does not have, raises: outcome [TypeError].  Recursion is bounded by
      a fuel argument; running out of it is the outcome [OutOfFuel]. *)

From Stdlib Require Import Ascii ZArith Lia.
From stdpp Require Import base option list gmap strings sorting.

Open Scope Z_scope.
Open Scope nat_scope.

(** ** Outcomes of a call *)

Inductive Outcome (A : Type) : Type :=
  | Ret (a : A)
  | TypeError
  | OutOfFuel.
Arguments Ret {A} a.
Arguments TypeError {A}.
Arguments OutOfFuel {A}.

#[global] Instance Outcome_ret : MRet Outcome := @Ret.
#[global] Instance Outcome_bind : MBind Outcome := fun A B f m =>
  match m with
  | Ret a => f a
  | TypeError => TypeError
  | OutOfFuel => OutOfFuel
  end.

(** [arr.forEach(f)] where [f] updates a state. *)
Fixpoint forEach {A S : Type} (l : list A) (f : A -> S -> Outcome S) (s : S)
  : Outcome S :=
  match l with
  | [] => Ret s
  | x :: l' => s' ← f x s; forEach l' f s'
  end.

(** Truthiness of a [string | undefined]. *)
Definition truthy (o : option string) : bool :=
  match o with
  | Some (String _ _) => true
  | _ => false
  end.

(** [x || ''] for a [string | undefined]. *)
Definition orEmpty (o : option string) : string := default "" o.

(** ** Data of [interface.ts] *)

(** Modelled from the spec: [TagType] of [interface.ts], a name/value pair. *)
Record TagType := mkTag { tag_name : string; tag_value : string }.

(** Modelled from the spec: [PropertyType] of [interface.ts].
    [prop_type] and [prop_tags] are [None] where the object has no such
    key; [prop_initializerText] is [None] where the key is not set at all
    and [Some None] where it is [null]. *)
Record PropertyType := mkProperty {
  prop_name : string;
  prop_type : option string;
  prop_isOptional : bool;
  prop_tags : option (list TagType);
  prop_initializerText : option (option string)
}.

(** Modelled from the spec: the three shapes of a [Schema]. *)
Inductive Schema :=
  | InterfaceSchema (tags : list TagType) (data : list PropertyType)
  | FunctionSchema (tags : list TagType) (params : list PropertyType)
      (returns : string)
  | NestedTypeSchema (tags : list TagType) (data : string).

Record SchemaEntry := mkEntry { entry_title : string; entry_schema : Schema }.
Abbreviation SchemaList := (list SchemaEntry).

(** Modelled from the spec: an entry of [DefaultTypeMapT]; it supplies
    the type and the tags of a property. *)
Record DefaultType := mkDefault {
  default_type : string;
  default_tags : list TagType
}.

(** Modelled from the spec: the argument of a [LinkFormatter]. *)
Record LinkInfo := mkLinkInfo {
  link_typeName : string;
  link_jsDocTitle : option string;
  link_fullPath : option string
}.
Definition LinkFormatter := LinkInfo -> option string.

(** ** [extractFromPropertyText] *)

Record ExtractType := mkExtract {
  ex_name : string;
  ex_type : string;
  ex_isOptional : bool
}.

Definition KEYWORDS_TO_SKIP : list string := ["Omit"].
Definition TAG_NAMES_FOR_DESCRIPTION : list string := ["zh"; "en"].

Definition in_range (lo hi : N) (c : ascii) : bool :=
  (lo <=? N_of_ascii c)%N && (N_of_ascii c <=? hi)%N.

(** [\w] is [[A-Za-z0-9_]]. *)
Definition is_word (c : ascii) : bool :=
  in_range 48 57 c || in_range 65 90 c || in_range 97 122 c
  || (N_of_ascii c =? 95)%N.

(** [\s] on an ASCII text: tab, line feed, vertical tab, form feed,
    carriage return, space.  The regular expression also takes the
    Unicode white space (U+00A0, U+FEFF, U+2028 and the like) for [\s];
    the model agrees with it on the texts that are ASCII. *)
Definition is_space (c : ascii) : bool :=
  in_range 9 13 c || (N_of_ascii c =? 32)%N.


(** The longest prefix whose characters satisfy [p], and what follows. *)
Fixpoint span (p : ascii -> bool) (s : string) : string * string :=
  match s with
  | String c s' =>
      if p c then let '(a, b) := span p s' in (String c a, b)
      else (EmptyString, s)
  | EmptyString => (EmptyString, EmptyString)
  end.

(** [(.*?);?$] with the [s] flag: everything up to the end of the text,
    less one final semicolon. *)
Fixpoint strip_semicolon (s : string) : string :=
  match s with
  | EmptyString => EmptyString
  | String c EmptyString => if Ascii.eqb c ";" then EmptyString else s
  | String c s' => String c (strip_semicolon s')
  end.

(** One attempt of [propertyRegex] at the start of [s].  Each quantifier
    of [(\w+)\s{0,}([?]?)\s{0,}:] is greedy, and giving back any character
    puts a character in front of the next item that this item cannot
    accept, so the greedy choice is the only one that can succeed. *)
Definition match_here (s : string) : option ExtractType :=
  let '(name, r1) := span is_word s in
  match name with
  | EmptyString => None
  | String _ _ =>
      let r2 := (span is_space r1).2 in
      let '(q, r3) :=
        match r2 with
        | String "?" r => (true, r)
        | _ => (false, r2)
        end in
      let r4 := (span is_space r3).2 in
      match r4 with
      | String ":" rest =>
          Some {| ex_name := name; ex_isOptional := q;
                  ex_type := strip_semicolon rest |}
      | _ => None
      end
  end.

(** [propertyRegex.exec(text)]: the attempt is made at each start
    position from the left, and the first that succeeds is the match. *)
Fixpoint propertyRegex_exec (s : string) : option ExtractType :=
  match match_here s with
  | Some r => Some r
  | None =>
      match s with
      | String _ s' => propertyRegex_exec s'
      | EmptyString => None
      end
  end.

Definition extractFromPropertyText (text : string) : option ExtractType :=
  propertyRegex_exec text.

(** ** The ts-morph project, as tables *)

Definition TypeId := nat.
Definition SymbolId := nat.
Definition NodeId := nat.

(** A tag of a JSDoc block: [getTagName()] and [getCommentText()]. *)
Record JSDocTag := mkJSDocTag {
  jsdoc_tagName : string;
  jsdoc_commentText : option string
}.

(** A JSDoc block is read through [getTags()] only. *)
Definition JSDoc := list JSDocTag.

Record SymbolDisplayPart := mkPart { part_text : string; part_kind : string }.

(** An element of [compilerSymbol.getJsDocTags()]. *)
Record JSDocTagInfo := mkTagInfo {
  info_name : string;
  info_text : option (list SymbolDisplayPart)
}.

Inductive SyntaxKind :=
  | InterfaceDeclaration
  | TypeAliasDeclaration
  | FunctionDeclaration
  | FunctionType
  | OtherKind.

#[global] Instance SyntaxKind_eq_dec : EqDecision SyntaxKind.
Proof. solve_decision. Defined.

(** What the callback of [forEachDescendant] reads of a descendant:
    [descendant.getType()] and [Node.isTypeNode(descendant)]. *)
Record Descendant := mkDescendant {
  desc_type : TypeId;
  desc_isTypeNode : bool
}.

(** A ts-morph [Node], by the methods the engine calls on it.
    [node_jsDocs] is [None] for a node that has no [getJsDocs] method and
    [node_properties] is [None] for one that has no [getProperties]
    method; an element of [node_properties] is the [getSymbol()] of one
    property. *)
Record Node := mkNode {
  node_kind : SyntaxKind;
  node_jsDocs : option (list JSDoc);
  node_type : TypeId;
  node_filePath : string;
  node_text : string;
  node_print : string;
  node_startLineNumber : Z;
  node_descendants : list Descendant;
  node_properties : option (list (option SymbolId));
  node_symbol : option SymbolId;
  node_typeNode : option NodeId;
  node_parameters : list NodeId;
  node_returnType : TypeId;
  node_name : string;
  node_isOptional : bool;
  node_initializer : option string
}.

Record Symbol := mkSymbol {
  sym_name : string;
  sym_declarations : list NodeId;
  sym_jsDocTags : list JSDocTagInfo;
  sym_documentationComment : list SymbolDisplayPart
}.

(** A ts-morph [Type]; [type_properties] is what
    [typeChecker.getPropertiesOfType] answers for it. *)
Record TsType := mkType {
  type_aliasSymbol : option SymbolId;
  type_symbol : option SymbolId;
  type_isInterface : bool;
  type_isEnum : bool;
  type_isUnion : bool;
  type_isIntersection : bool;
  type_unionTypes : list TypeId;
  type_intersectionTypes : list TypeId;
  type_text : string;
  type_properties : list SymbolId
}.

Record Program := mkProgram {
  nodes : NodeId -> Node;
  symbols : SymbolId -> Symbol;
  types : TypeId -> TsType
}.

(** ** The two accumulators *)

(** [Set<Type>]: [has] and [add]. *)
Definition set_has (t : TypeId) (s : list TypeId) : bool := bool_decide (t ∈ s).
Definition set_add (t : TypeId) (s : list TypeId) : list TypeId :=
  if set_has t s then s else s ++ [t].

Record State := mkState {
  nestedTypeList : SchemaList;
  parsedNestedTypes : list TypeId
}.

(** [s.includes(sub)] *)
Fixpoint includes (sub s : string) : bool :=
  String.prefix sub s ||
  match s with
  | String _ s' => includes sub s'
  | EmptyString => false
  end.

(** ** Tag parsers *)

(** [getDeclarationTags(declaration)], on [declaration.getJsDocs()]. *)
Definition getDeclarationTags (jsDocs : list JSDoc)
  : option string * list TagType :=
  let rawTags := default [] (head jsDocs) in
  fold_left
    (fun '(title, tags) tag =>
       let name := jsdoc_tagName tag in
       let value := orEmpty (jsdoc_commentText tag) in
       (if String.eqb name "title" then Some value else title,
        tags ++ [mkTag name value]))
    rawTags (None, []).

(** [tag.text?.[0].text || ''] *)
Definition tagInfoValue (tag : JSDocTagInfo) : Outcome string :=
  match info_text tag with
  | None => Ret ""
  | Some [] => TypeError
  | Some (part :: _) => Ret (part_text part)
  end.

Definition hasTagNamed (n : string) (tags : list TagType) : bool :=
  existsb (fun t => String.eqb (tag_name t) n) tags.

(** [getSymbolTags(sym, strictComment)] *)
Definition getSymbolTags (sym : Symbol) (strictComment : bool)
  : Outcome (list TagType) :=
  tags ← mapM (fun tag => value ← tagInfoValue tag;
                          mret (mkTag (info_name tag) value))
              (sym_jsDocTags sym);
  if negb strictComment then
    match head (sym_documentationComment sym) with
    | Some commonComment =>
        if String.eqb (part_kind commonComment) "text"
           && truthy (Some (part_text commonComment))
        then
          mret (fold_left
                  (fun tags tagNameForDescription =>
                     if negb (hasTagNamed tagNameForDescription tags)
                     then tags ++ [mkTag tagNameForDescription
                                         (part_text commonComment)]
                     else tags)
                  TAG_NAMES_FOR_DESCRIPTION tags)
        else mret tags
    | None => mret tags
    end
  else mret tags.

Section Resolver.

Variable P : Program.
(** [format] of prettier, with the [typescript] parser. *)
Variable format : string -> string.

Definition getSymbolByType (type : TypeId) : option SymbolId :=
  match type_aliasSymbol (types P type) with
  | Some s => Some s
  | None => type_symbol (types P type)
  end.

Definition getDeclarationBySymbol (symbol : option SymbolId) : option NodeId :=
  s ← symbol; head (sym_declarations (symbols P s)).

Definition getDeclarationTextBySymbol (symbol : option SymbolId) : string :=
  let declaration := getDeclarationBySymbol symbol in
  format (orEmpty ((fun d => node_print (nodes P d)) <$> declaration)).

(** The [title] that [hasJSDocTitle] and the linkifier read off a
    declaration that may be absent or have no [getJsDocs]. *)
Definition jsDocTitleOf (declaration : option NodeId) : option string :=
  d ← declaration; docs ← node_jsDocs (nodes P d); (getDeclarationTags docs).1.

Definition hasJSDocTitle (declaration : option NodeId)
    (parsedNestedTypeSet : list TypeId) : bool * list TypeId :=
  match declaration with
  | Some d =>
      if truthy (jsDocTitleOf declaration)
      then (true, set_add (node_type (nodes P d)) parsedNestedTypeSet)
      else (false, parsedNestedTypeSet)
  | None => (false, parsedNestedTypeSet)
  end.

Definition isAliasDeclaration (type : TypeId) : bool :=
  match type_aliasSymbol (types P type) with
  | Some aliasSymbol =>
      match getDeclarationBySymbol (Some aliasSymbol) with
      | Some d => bool_decide (node_kind (nodes P d) = TypeAliasDeclaration)
      | None => false
      end
  | None => false
  end.

Definition isUnionOrIntersection (type : TypeId) : bool :=
  type_isUnion (types P type) || type_isIntersection (types P type).

Definition isTarget (type : TypeId) (parsedNestedTypeSet : list TypeId)
  : bool * list TypeId :=
  if set_has type parsedNestedTypeSet then (false, parsedNestedTypeSet)
  else
    let declaration := getDeclarationBySymbol (getSymbolByType type) in
    let '(titled, set1) := hasJSDocTitle declaration parsedNestedTypeSet in
    if titled then (false, set1)
    else
      let defPath := (fun d => node_filePath (nodes P d)) <$> declaration in
      if truthy defPath && includes "/node_modules/" (orEmpty defPath)
      then (false, set1)
      else
        (type_isInterface (types P type) || type_isEnum (types P type)
         || isUnionOrIntersection type || isAliasDeclaration type, set1).

(** The entry that [dumpNestedTypes] pushes for a type whose symbol is
    [symbolOfIdentifier] and is named [title]. *)
Definition nestedEntry (symbolOfIdentifier : option SymbolId) (title : string)
  : SchemaEntry :=
  mkEntry title
    (NestedTypeSchema [mkTag "title" title]
       (getDeclarationTextBySymbol symbolOfIdentifier)).

Fixpoint dumpNestedTypes (fuel : nat) (declaration : option NodeId)
    (st : State) : Outcome State :=
  match fuel with
  | 0 => OutOfFuel
  | S fuel' =>
    match declaration with
    | None => Ret st
    | Some d =>
      let '(titled, set0) := hasJSDocTitle declaration (parsedNestedTypes st) in
      let st0 := mkState (nestedTypeList st) set0 in
      if titled then Ret st0
      else
        forEach (node_descendants (nodes P d))
          (fun descendant st =>
             let typeOfIdentifier := desc_type descendant in
             let symbolOfIdentifier := getSymbolByType typeOfIdentifier in
             let title := (fun s => sym_name (symbols P s)) <$> symbolOfIdentifier in
             if negb (desc_isTypeNode descendant) then Ret st
             else if negb (truthy title) then Ret st
             else if bool_decide (orEmpty title ∈ KEYWORDS_TO_SKIP) then Ret st
             else
               let '(target, set1) :=
                 isTarget typeOfIdentifier (parsedNestedTypes st) in
               if negb target then Ret (mkState (nestedTypeList st) set1)
               else
                 let st1 :=
                   mkState
                     (nestedTypeList st
                        ++ [nestedEntry symbolOfIdentifier (orEmpty title)])
                     (set_add typeOfIdentifier set1) in
                 if isUnionOrIntersection typeOfIdentifier then
                   let subTypes :=
                     if type_isUnion (types P typeOfIdentifier)
                     then type_unionTypes (types P typeOfIdentifier)
                     else type_intersectionTypes (types P typeOfIdentifier) in
                   forEach subTypes
                     (fun subType st =>
                        let subTypeSymbol := getSymbolByType subType in
                        match getDeclarationBySymbol subTypeSymbol with
                        | Some sub => dumpNestedTypes fuel' (Some sub) st
                        | None => Ret st
                        end)
                     st1
                 else if type_isInterface (types P typeOfIdentifier) then
                   match
                     d' ← getDeclarationBySymbol symbolOfIdentifier;
                     node_properties (nodes P d')
                   with
                   | Some properties =>
                       forEach properties
                         (fun a st =>
                            dumpNestedTypes fuel'
                              (getDeclarationBySymbol a) st)
                         st1
                   | None => TypeError
                   end
                 else Ret st1)
          st0
    end
  end.

End Resolver.

(** ** Services of the JavaScript engine and of TypeScript *)

(** A plain object used as a dictionary is given by its own enumerable
    properties.  It is an object literal, so what it does not hold itself
    it inherits from [Object.prototype], whose property names these are. *)
Definition OBJECT_PROTOTYPE_KEYS : list string :=
  ["constructor"; "__defineGetter__"; "__defineSetter__"; "hasOwnProperty";
   "__lookupGetter__"; "__lookupSetter__"; "isPrototypeOf";
   "propertyIsEnumerable"; "toString"; "valueOf"; "__proto__";
   "toLocaleString"].

(** What [obj[key]] finds: an own property, a member of
    [Object.prototype] (a function, or for [__proto__] the prototype
    itself: truthy, and without enumerable properties of its own), or
    nothing. *)
Inductive Lookup (V : Type) :=
  | Own (v : V)
  | Inherited
  | Missing.
Arguments Own {V} v.
Arguments Inherited {V}.
Arguments Missing {V}.

Definition js_get {V : Type} (obj : gmap string V) (key : string) : Lookup V :=
  match obj !! key with
  | Some v => Own v
  | None =>
      if bool_decide (key ∈ OBJECT_PROTOTYPE_KEYS) then Inherited else Missing
  end.

(** [obj[key] = value] for a value that is an object.  Under the key
    [__proto__] the assignment runs the setter inherited from
    [Object.prototype]: it replaces the prototype of [obj] and creates no
    property. *)
Definition js_set {V : Type} (key : string) (value : V) (obj : gmap string V)
  : gmap string V :=
  if bool_decide (key = "__proto__") then obj else <[key := value]> obj.

(** [arr.sort(compare)]: the sort is stable (ECMAScript 2019), so for a
    consistent comparator its result is the one of any stable sort; it is
    modelled by insertion from the right. *)
Fixpoint sort_insert {A : Type} (compare : A -> A -> Z) (x : A) (l : list A)
  : list A :=
  match l with
  | [] => [x]
  | y :: l' =>
      if (0 <? compare x y)%Z then y :: sort_insert compare x l'
      else x :: l
  end.

Definition js_sort {A : Type} (compare : A -> A -> Z) (l : list A) : list A :=
  foldr (sort_insert compare) [] l.

(** The length of a match of [import\([^)]+\)\.] at the start of [s]. *)
Definition importPrefix (s : string) : option nat :=
  if String.prefix "import(" s then
    let rest := String.substring 7 (String.length s - 7) s in
    let '(inner, r) := span (fun c => negb (Ascii.eqb c ")")) rest in
    match inner with
    | EmptyString => None
    | String _ _ =>
        if String.prefix ")." r then Some (7 + String.length inner + 2)
        else None
    end
  else None.

(** [s.replace(/import\([^)]+\)\./g, '')]; [skip] counts the characters
    of the current match still to be dropped. *)
Fixpoint stripImports_from (skip : nat) (s : string) : string :=
  match s with
  | EmptyString => EmptyString
  | String c s' =>
      match skip with
      | S k => stripImports_from k s'
      | 0 =>
          match importPrefix s with
          | Some n => stripImports_from (n - 1) s'
          | None => String c (stripImports_from 0 s')
          end
      end
  end.

Definition stripImports (s : string) : string := stripImports_from 0 s.

(** A token of the scratch source file that the linkifier parses. *)
Inductive Token :=
  | Identifier (text : string)
  | OtherToken (text : string).

(** ** Linkifier, property and function schemas *)

Section Builder.

Variable P : Program.
Variable format : string -> string.
(** [toSingleLine] and [escape] of [util.ts]. *)
Variable toSingleLine : string -> string.
Variable escape : string -> string.
(** The scratch parse of [dummyProject.createSourceFile], as the sequence
    of tokens that [transform] visits, and the text that
    [sourceFile.getText()] gives for a sequence of tokens. *)
Variable parseTokens : string -> list Token.
Variable printTokens : list Token -> string.

(** One turn of the loop over [parsedNestedTypeSet] for the identifier
    [nodeTypeText]: [Some] of the text of the new identifier where the
    loop returns, [None] where it goes on. *)
Definition linkOfParsedType (nodeTypeText : string)
    (nestedTypeList : SchemaList) (linkFormatter : LinkFormatter)
    (parsedNestedType : TypeId) : option string :=
  let typeName :=
    (fun s => sym_name (symbols P s)) <$> getSymbolByType P parsedNestedType in
  if negb (truthy typeName) || negb (String.eqb (orEmpty typeName) nodeTypeText)
  then None
  else
    let typeName := orEmpty typeName in
    let matchedNestedType :=
      find (fun item => String.eqb (entry_title item) typeName) nestedTypeList in
    let link :=
      match matchedNestedType with
      | Some _ => linkFormatter (mkLinkInfo typeName None None)
      | None =>
          let declaration :=
            getDeclarationBySymbol P (getSymbolByType P parsedNestedType) in
          let definitionPath :=
            (fun d => node_filePath (nodes P d)) <$> declaration in
          let title := jsDocTitleOf P declaration in
          if truthy title
          then linkFormatter (mkLinkInfo typeName title definitionPath)
          else None
      end in
    if truthy link
    then Some ("[" +:+ typeName +:+ "](" +:+ orEmpty link +:+ ")")
    else None.

(** The body of the [transform] callback at an identifier. *)
Fixpoint linkIdentifier (nodeTypeText : string) (nestedTypeList : SchemaList)
    (linkFormatter : LinkFormatter) (parsedNestedTypeSet : list TypeId)
  : string :=
  match parsedNestedTypeSet with
  | [] => nodeTypeText
  | parsedNestedType :: rest =>
      match linkOfParsedType nodeTypeText nestedTypeList linkFormatter
              parsedNestedType with
      | Some replaced => replaced
      | None => linkIdentifier nodeTypeText nestedTypeList linkFormatter rest
      end
  end.

Definition transformToken (nestedTypeList : SchemaList)
    (parsedNestedTypeSet : list TypeId) (linkFormatter : LinkFormatter)
    (node : Token) : Token :=
  match node with
  | Identifier text =>
      Identifier
        (linkIdentifier text nestedTypeList linkFormatter parsedNestedTypeSet)
  | OtherToken _ => node
  end.

Definition getDisplayTypeWithLink (originTypeText : string)
    (nestedTypeList : SchemaList) (parsedNestedTypeSet : list TypeId)
    (linkFormatter : LinkFormatter) : string :=
  printTokens
    (transformToken nestedTypeList parsedNestedTypeSet linkFormatter
       <$> parseTokens (toSingleLine (escape originTypeText))).

Definition isDescriptionTag (t : TagType) : bool :=
  truthy (Some (tag_name t))
  && bool_decide (tag_name t ∈ TAG_NAMES_FOR_DESCRIPTION).

Definition getPropertySchema (fuel : nat) (sym : SymbolId)
    (defaultT : gmap string DefaultType) (strictComment : bool)
    (linkFormatter : LinkFormatter) (st : State)
  : Outcome (option PropertyType * State) :=
  let name := sym_name (symbols P sym) in
  match head (sym_declarations (symbols P sym)) with
  | None => TypeError
  | Some declaration =>
      let typeText := node_text (nodes P declaration) in
      match extractFromPropertyText typeText with
      | None => Ret (None, st)
      | Some extract =>
          tags ← getSymbolTags (symbols P sym) strictComment;
          if existsb isDescriptionTag tags then
            st' ← dumpNestedTypes P format fuel (Some declaration) st;
            let typeWithLink :=
              getDisplayTypeWithLink (ex_type extract) (nestedTypeList st')
                (parsedNestedTypes st') linkFormatter in
            Ret (Some (mkProperty name (Some typeWithLink)
                         (ex_isOptional extract) (Some tags) None), st')
          else
            Ret (match js_get defaultT name with
                 | Own d =>
                     Some (mkProperty name (Some (default_type d))
                             (ex_isOptional extract) (Some (default_tags d))
                             None)
                 | Inherited =>
                     Some (mkProperty name None (ex_isOptional extract) None
                             None)
                 | Missing => None
                 end, st)
      end
  end.

Definition isDefaultTag (t : TagType) : bool :=
  String.eqb (tag_name t) "default" || String.eqb (tag_name t) "defaultValue".

(** [a || b || null] on texts. *)
Definition firstTruthy (a b : option string) : option string :=
  if truthy a then a else if truthy b then b else None.

(** The callback that [getFunctionSchema] maps over the parameters. *)
Definition getParameterSchema (fuel : nat) (strictComment : bool)
    (linkFormatter : LinkFormatter) (para : NodeId) (st : State)
  : Outcome (PropertyType * State) :=
  st' ← dumpNestedTypes P format fuel (Some para) st;
  match node_symbol (nodes P para) with
  | None => TypeError
  | Some sym =>
      tags ← getSymbolTags (symbols P sym) strictComment;
      let typeWithLink :=
        getDisplayTypeWithLink
          (stripImports (type_text (types P (node_type (nodes P para)))))
          (nestedTypeList st') (parsedNestedTypes st') linkFormatter in
      Ret (mkProperty (node_name (nodes P para)) (Some typeWithLink)
             (node_isOptional (nodes P para)) (Some tags)
             (Some (firstTruthy (node_initializer (nodes P para))
                      (tag_value <$> find isDefaultTag tags))), st')
  end.

(** [arr.map(f)] where [f] also updates a state. *)
Fixpoint mapState {A B S : Type} (f : A -> S -> Outcome (B * S)) (l : list A)
    (s : S) : Outcome (list B * S) :=
  match l with
  | [] => Ret ([], s)
  | x :: l' =>
      '(y, s1) ← f x s;
      '(ys, s2) ← mapState f l' s1;
      Ret (y :: ys, s2)
  end.

(** [getFunctionSchema]: the [params] and the [returns] of the schema. *)
Definition getFunctionSchema (fuel : nat) (declaration : NodeId)
    (strictComment : bool) (linkFormatter : LinkFormatter) (st : State)
  : Outcome (list PropertyType * string * State) :=
  '(params, st') ←
    mapState (getParameterSchema fuel strictComment linkFormatter)
      (node_parameters (nodes P declaration)) st;
  Ret (params,
       type_text (types P (node_returnType (nodes P declaration))), st').

End Builder.

(** ** [generateSchema] and [generate] *)

Record SourceFile := mkSourceFile {
  sf_interfaces : list NodeId;
  sf_typeAliases : list NodeId;
  sf_functions : list NodeId
}.

(** A ts-morph [Project]: the tables behind its type checker and the
    source files it holds, by path. *)
Record Project := mkProject {
  proj_program : Program;
  proj_sourceFiles : gmap string SourceFile
}.

(** [GenerateConfig]; a flag that is not given reads as [false]. *)
Record GenerateConfig := mkConfig {
  cfg_defaultTypeMap : option (gmap string DefaultType);
  cfg_strictComment : bool;
  cfg_propertySorter : option (PropertyType -> PropertyType -> Z);
  cfg_linkFormatter : option LinkFormatter;
  cfg_strictDeclarationOrder : bool;
  cfg_project : option Project;
  cfg_sourceFilesPaths : option (list string)
}.

(** What [generateSchema] returns: [list], or [map] by its own enumerable
    properties. *)
Inductive Output :=
  | OutputList (list : SchemaList)
  | OutputMap (map : gmap string Schema).

(** The variables that the [forEach] over the declarations updates. *)
Record Build := mkBuild {
  schemaList : SchemaList;
  schemaMap : gmap string Schema;
  build_state : State
}.

(** A comparator that subtracts keys. *)
Definition compareKey {A : Type} (key : A -> Z) (a b : A) : Z :=
  (key a - key b)%Z.

Definition compareStartLine (P : Program) (declarationA declarationB : NodeId)
  : Z :=
  (node_startLineNumber (nodes P declarationA)
   - node_startLineNumber (nodes P declarationB))%Z.

(** [nestedTypeList.reduce((result, item) => ..., {})] *)
Definition nestedMap (nestedTypeList : SchemaList) : gmap string Schema :=
  fold_left (fun result item => js_set (entry_title item) (entry_schema item) result)
    nestedTypeList ∅.

Section Assembler.

Variable format : string -> string.
Variable toSingleLine : string -> string.
Variable escape : string -> string.
Variable parseTokens : string -> list Token.
Variable printTokens : list Token -> string.
(** [defaultTypeMap] and [defaultLinkFormatter] of [default.ts]. *)
Variable defaultTypeMap : gmap string DefaultType.
Variable defaultLinkFormatter : LinkFormatter.
(** The module's own project, and [project.addSourceFilesAtPaths]. *)
Variable internalProject : Project.
Variable addSourceFilesAtPaths : Project -> list string -> Project.

Section WithProgram.

Variable P : Program.
Variable fuel : nat.
Variable defaultT : gmap string DefaultType.
Variable strictComment : bool.
Variable propertySorter : option (PropertyType -> PropertyType -> Z).
Variable linkFormatter : LinkFormatter.

(** The two loops that fill [data]: [a] is the symbol of a property, or
    [None] where [a.getSymbol()] is [undefined]. *)
Fixpoint collectProperties (properties : list (option SymbolId))
    (data : list PropertyType) (st : State)
  : Outcome (list PropertyType * State) :=
  match properties with
  | [] => Ret (data, st)
  | a :: rest =>
      match a with
      | None => TypeError
      | Some sym =>
          '(schema, st') ←
            getPropertySchema P format toSingleLine escape parseTokens
              printTokens fuel sym defaultT strictComment linkFormatter st;
          collectProperties rest
            (match schema with
             | Some s => data ++ [s]
             | None => data
             end) st'
      end
  end.

Definition applySorter (schema : Schema) : Schema :=
  match propertySorter with
  | Some compare =>
      match schema with
      | InterfaceSchema tags data => InterfaceSchema tags (js_sort compare data)
      | FunctionSchema tags params returns =>
          FunctionSchema tags (js_sort compare params) returns
      | NestedTypeSchema _ _ => schema
      end
  | None => schema
  end.

Definition isFunctionKind (k : SyntaxKind) : bool :=
  bool_decide (k = FunctionDeclaration) || bool_decide (k = FunctionType).

(** The node whose parameters and return type make a function schema:
    [typeNode], where it is set and of kind [FunctionDeclaration] or
    [FunctionType]. *)
Definition functionNodeOf (declaration : NodeId) : option NodeId :=
  let dType := node_kind (nodes P declaration) in
  let typeNode :=
    match dType with
    | FunctionDeclaration => Some declaration
    | TypeAliasDeclaration => node_typeNode (nodes P declaration)
    | _ => None
    end in
  match typeNode with
  | Some fn => if isFunctionKind (node_kind (nodes P fn)) then Some fn else None
  | None => None
  end.

(** The callback of the [forEach] over the sorted declarations. *)
Definition buildDeclaration (declaration : NodeId) (b : Build)
  : Outcome Build :=
  match node_jsDocs (nodes P declaration) with
  | None => TypeError
  | Some jsDocs =>
      let '(title, tags) := getDeclarationTags jsDocs in
      let dType := node_kind (nodes P declaration) in
      if negb (truthy title) then Ret b
      else
        let functionNode := functionNodeOf declaration in
        '(schema, st') ←
          match functionNode with
          | Some fn =>
              '(params, returns, st') ←
                getFunctionSchema P format toSingleLine escape parseTokens
                  printTokens fuel fn strictComment linkFormatter
                  (build_state b);
              Ret (FunctionSchema tags params returns, st')
          | None =>
              if bool_decide (dType = InterfaceDeclaration)
                 && hasTagNamed "notExtends" tags
              then
                match node_properties (nodes P declaration) with
                | None => TypeError
                | Some properties =>
                    '(data, st') ←
                      collectProperties properties [] (build_state b);
                    Ret (InterfaceSchema tags data, st')
                end
              else
                '(data, st') ←
                  collectProperties
                    (Some <$> type_properties
                                (types P (node_type (nodes P declaration))))
                    [] (build_state b);
                Ret (InterfaceSchema tags data, st')
          end;
        let schema := applySorter schema in
        Ret (mkBuild (schemaList b ++ [mkEntry (orEmpty title) schema])
               (js_set (orEmpty title) schema (schemaMap b)) st')
  end.

End WithProgram.

Definition generateSchema (fuel : nat) (P : Program) (sourceFile : SourceFile)
    (config : option GenerateConfig) : Outcome Output :=
  let interfaces := sf_interfaces sourceFile in
  let typeAliases := sf_typeAliases sourceFile in
  let functions := sf_functions sourceFile in
  let defaultT := default defaultTypeMap (config ≫= cfg_defaultTypeMap) in
  let strictComment := from_option cfg_strictComment false config in
  let propertySorter := config ≫= cfg_propertySorter in
  let linkFormatter :=
    default defaultLinkFormatter (config ≫= cfg_linkFormatter) in
  b ← forEach
        (js_sort (compareStartLine P) (interfaces ++ typeAliases ++ functions))
        (buildDeclaration P fuel defaultT strictComment propertySorter
           linkFormatter)
        (mkBuild [] ∅ (mkState [] []));
  let nestedTypeList := nestedTypeList (build_state b) in
  let '(list, map) :=
    if (0 <? length nestedTypeList)%nat
    then (schemaList b ++ nestedTypeList,
          nestedMap nestedTypeList ∪ schemaMap b)
    else (schemaList b, schemaMap b) in
  Ret (if from_option cfg_strictDeclarationOrder false config
       then OutputList list else OutputMap map).

(** The project that [generate] reads: the one of the configuration or
    the module's own, after [addSourceFilesAtPaths] where paths are given. *)
Definition projectOf (config : option GenerateConfig) : Project :=
  let project := default internalProject (config ≫= cfg_project) in
  match config ≫= cfg_sourceFilesPaths with
  | Some paths => addSourceFilesAtPaths project paths
  | None => project
  end.

(** [generate(file, config)]; [Ret None] is the answer [undefined]. *)
Definition generate (fuel : nat) (file : string)
    (config : option GenerateConfig) : Outcome (option Output) :=
  let project := projectOf config in
  match proj_sourceFiles project !! file with
  | None => Ret None
  | Some sourceFile =>
      out ← generateSchema fuel (proj_program project) sourceFile config;
      Ret (Some out)
  end.

End Assembler.

(** ** Specification-side definitions *)

Definition isTitleTag (tag : JSDocTag) : bool :=
  String.eqb (jsdoc_tagName tag) "title".

Definition rawTagsOf (jsDocs : list JSDoc) : list JSDocTag :=
  default [] (head jsDocs).

(** The value of the first, and of the last, tag named [title] of the
    first JSDoc block. *)
Definition firstTitle (jsDocs : list JSDoc) : option string :=
  (fun tag => orEmpty (jsdoc_commentText tag))
    <$> head (filter (fun tag => isTitleTag tag = true) (rawTagsOf jsDocs)).

Definition lastTitle (jsDocs : list JSDoc) : option string :=
  (fun tag => orEmpty (jsdoc_commentText tag))
    <$> last (filter (fun tag => isTitleTag tag = true) (rawTagsOf jsDocs)).

(** The tags that a symbol's JSDoc tags give, before any promotion. *)
Definition jsDocTagsOf (sym : Symbol) : Outcome (list TagType) :=
  mapM (fun tag => value ← tagInfoValue tag; mret (mkTag (info_name tag) value))
       (sym_jsDocTags sym).

(** The plain description of a symbol: the text of the first display part
    of its documentation comment, where that part is of kind [text] and
    not empty. *)
Definition plainDescription (sym : Symbol) : option string :=
  match head (sym_documentationComment sym) with
  | Some part =>
      if String.eqb (part_kind part) "text" && truthy (Some (part_text part))
      then Some (part_text part) else None
  | None => None
  end.

(** Spec, 4.1: one synthetic tag carrying the plain description for each
    of the description-tag names that [tags] does not have yet; none
    under [strict] or without a plain description. *)
Definition syntheticTags (strict : bool) (sym : Symbol) (tags : list TagType)
  : list TagType :=
  if strict then []
  else
    match plainDescription sym with
    | Some text =>
        (fun n => mkTag n text)
          <$> filter (fun n => hasTagNamed n tags = false)
                TAG_NAMES_FOR_DESCRIPTION
    | None => []
    end.

(** ** The resolver with a log

    [dumpNestedTypes_traced] is [dumpNestedTypes] with a log of the
    additions made at [parsedNestedTypes.add(typeOfIdentifier)] and of the
    recursive calls made for the sub-types or properties of a type.  The
    log is written and never read. *)

Inductive Event :=
  | EvAdd (type : TypeId)
  | EvRecurse (type : TypeId) (declaration : option NodeId).

#[global] Instance Event_eq_dec : EqDecision Event.
Proof. solve_decision. Defined.

(** The types that a log records as added, in order. *)
Definition added (tr : list Event) : list TypeId :=
  omap (fun e => match e with EvAdd t => Some t | EvRecurse _ _ => None end) tr.

Section Traced.

Variable P : Program.
Variable format : string -> string.

Fixpoint dumpNestedTypes_traced (fuel : nat) (declaration : option NodeId)
    (s : State * list Event) : Outcome (State * list Event) :=
  match fuel with
  | 0 => OutOfFuel
  | S fuel' =>
    match declaration with
    | None => Ret s
    | Some d =>
      let '(st, tr) := s in
      let '(titled, set0) := hasJSDocTitle P declaration (parsedNestedTypes st) in
      let st0 := mkState (nestedTypeList st) set0 in
      if titled then Ret (st0, tr)
      else
        forEach (node_descendants (nodes P d))
          (fun descendant '(st, tr) =>
             let typeOfIdentifier := desc_type descendant in
             let symbolOfIdentifier := getSymbolByType P typeOfIdentifier in
             let title := (fun s => sym_name (symbols P s)) <$> symbolOfIdentifier in
             if negb (desc_isTypeNode descendant) then Ret (st, tr)
             else if negb (truthy title) then Ret (st, tr)
             else if bool_decide (orEmpty title ∈ KEYWORDS_TO_SKIP) then Ret (st, tr)
             else
               let '(target, set1) :=
                 isTarget P typeOfIdentifier (parsedNestedTypes st) in
               if negb target then Ret (mkState (nestedTypeList st) set1, tr)
               else
                 let st1 :=
                   mkState
                     (nestedTypeList st
                        ++ [nestedEntry P format symbolOfIdentifier (orEmpty title)])
                     (set_add typeOfIdentifier set1) in
                 let tr1 := tr ++ [EvAdd typeOfIdentifier] in
                 if isUnionOrIntersection P typeOfIdentifier then
                   let subTypes :=
                     if type_isUnion (types P typeOfIdentifier)
                     then type_unionTypes (types P typeOfIdentifier)
                     else type_intersectionTypes (types P typeOfIdentifier) in
                   forEach subTypes
                     (fun subType '(st, tr) =>
                        let subTypeSymbol := getSymbolByType P subType in
                        match getDeclarationBySymbol P subTypeSymbol with
                        | Some sub =>
                            dumpNestedTypes_traced fuel' (Some sub)
                              (st, tr ++ [EvRecurse typeOfIdentifier (Some sub)])
                        | None => Ret (st, tr)
                        end)
                     (st1, tr1)
                 else if type_isInterface (types P typeOfIdentifier) then
                   match
                     d' ← getDeclarationBySymbol P symbolOfIdentifier;
                     node_properties (nodes P d')
                   with
                   | Some properties =>
                       forEach properties
                         (fun a '(st, tr) =>
                            let child := getDeclarationBySymbol P a in
                            dumpNestedTypes_traced fuel' child
                              (st, tr ++ [EvRecurse typeOfIdentifier child]))
                         (st1, tr1)
                   | None => TypeError
                   end
                 else Ret (st1, tr1))
          (st0, tr)
    end
  end.

(** The nested-type entry of a type: the one [dumpNestedTypes] pushes
    when it adds the type. *)
Definition entryOfType (type : TypeId) : SchemaEntry :=
  let symbolOfIdentifier := getSymbolByType P type in
  nestedEntry P format symbolOfIdentifier
    (orEmpty ((fun s => sym_name (symbols P s)) <$> symbolOfIdentifier)).

End Traced.

(** In a log, a recursive call made for a type comes after the addition
    of that type. *)
Definition added_before_recursion (tr : list Event) : Prop :=
  forall pre t d post, tr = pre ++ EvRecurse t d :: post -> EvAdd t ∈ pre.

(** The number of the types of [U] that are not in [set]. *)
Definition unvisited (U : list TypeId) (set : list TypeId) : nat :=
  length (filter (fun t => set_has t set = false) U).

(** A finite type graph: the types of all descendants lie in [U]. *)
Definition finite_graph (P : Program) (U : list TypeId) : Prop :=
  forall n d, d ∈ node_descendants (nodes P n) -> desc_type d ∈ U.

(** ** Outcome predicates *)

(** [partial o Q]: if the call returns, its result satisfies [Q]. *)
Definition partial {A : Type} (o : Outcome A) (Q : A -> Prop) : Prop :=
  match o with
  | Ret a => Q a
  | _ => True
  end.

(** [halts o Q]: the call does not run out of fuel, and if it returns its
    result satisfies [Q]. *)
Definition halts {A : Type} (o : Outcome A) (Q : A -> Prop) : Prop :=
  match o with
  | Ret a => Q a
  | TypeError => True
  | OutOfFuel => False
  end.

(** Forgetting the log. *)
Definition erase (o : Outcome (State * list Event)) : Outcome State :=
  match o with
  | Ret (st, _) => Ret st
  | TypeError => TypeError
  | OutOfFuel => OutOfFuel
  end.

(** A type of an external library: its backing declaration lies under a
    [/node_modules/] path. *)
Definition isExternal (P : Program) (type : TypeId) : bool :=
  match getDeclarationBySymbol P (getSymbolByType P type) with
  | Some d => includes "/node_modules/" (node_filePath (nodes P d))
  | None => false
  end.

(** A declaration that carries a (non-empty) title. *)
Definition titled (P : Program) (d : NodeId) : Prop :=
  truthy (jsDocTitleOf P (Some d)) = true.

(** What the resolver keeps, from a start state [st0] and an empty log. *)
Definition resolver_inv (P : Program) (format : string -> string)
    (st0 : State) (s : State * list Event) : Prop :=
  added_before_recursion s.2
  /\ NoDup (added s.2)
  /\ (forall t, t ∈ added s.2 ->
        (t ∉ parsedNestedTypes st0) /\ t ∈ parsedNestedTypes s.1)
  /\ NoDup (parsedNestedTypes s.1)
  /\ parsedNestedTypes st0 ⊆ parsedNestedTypes s.1
  /\ nestedTypeList s.1
     = nestedTypeList st0 ++ (entryOfType P format <$> added s.2).

(** The nested-type list holds one entry for each type of a
    duplicate-free list of visited types. *)
Definition nested_once (P : Program) (format : string -> string) (st : State)
  : Prop :=
  exists ts,
    nestedTypeList st = entryOfType P format <$> ts
    /\ NoDup ts
    /\ ts ⊆ parsedNestedTypes st.

(** Every interface type is declared by a node that has [getProperties]
    (for ts-morph, an interface declaration). *)
Definition interfaces_declared (P : Program) : Prop :=
  forall t,
    type_isInterface (types P t) = true ->
    exists d properties,
      getDeclarationBySymbol P (getSymbolByType P t) = Some d
      /\ node_properties (nodes P d) = Some properties.

(** ** A cyclic type graph

    [interface Root { a: A }], [interface A { b: B }] and
    [interface B { a: A }]: node 1 is the property [a] of [Root], nodes 2
    and 4 declare [A] and [B], nodes 3 and 5 are their properties. *)
Module Cyclic.

Definition noNode : Node :=
  mkNode OtherKind None 0 "" "" "" 0%Z [] None None None [] 0 "" false None.
Definition noSymbol : Symbol := mkSymbol "" [] [] [].
Definition noType : TsType := mkType None None false false false false [] [] "" [].

Definition property (text : string) (type : TypeId) (sym : SymbolId) : Node :=
  mkNode OtherKind (Some []) type "/src/root.ts" text text 1%Z
    [mkDescendant type false; mkDescendant type true] None (Some sym) None []
    0 "" false None.

Definition interface (text : string) (type : TypeId) (sym prop : SymbolId)
  : Node :=
  mkNode InterfaceDeclaration (Some []) type "/src/root.ts" text text 1%Z
    [] (Some [Some prop]) (Some sym) None [] 0 "" false None.

Definition cyclic_program : Program :=
  mkProgram
    (fun n =>
       match n with
       | 1 => property "a: A;" 1 5
       | 2 => interface "interface A { b: B; }" 1 1 3
       | 3 => property "b: B;" 2 3
       | 4 => interface "interface B { a: A; }" 2 2 4
       | 5 => property "a: A;" 1 4
       | _ => noNode
       end)
    (fun s =>
       match s with
       | 1 => mkSymbol "A" [2] [] []
       | 2 => mkSymbol "B" [4] [] []
       | 3 => mkSymbol "b" [3] [] []
       | 4 => mkSymbol "a" [5] [] []
       | 5 => mkSymbol "a" [1] [] []
       | _ => noSymbol
       end)
    (fun t =>
       match t with
       | 1 => mkType None (Some 1) true false false false [] [] "A" [3]
       | 2 => mkType None (Some 2) true false false false [] [] "B" [4]
       | _ => noType
       end).

Definition cyclic_format (s : string) : string := s.

End Cyclic.

(** The [forEach] of [generateSchema] over the sorted declarations, from
    empty accumulators. *)
Definition buildAll (format toSingleLine escape : string -> string)
    (parseTokens : string -> list Token) (printTokens : list Token -> string)
    (defaultTypeMap : gmap string DefaultType)
    (defaultLinkFormatter : LinkFormatter)
    (fuel : nat) (P : Program) (sourceFile : SourceFile)
    (config : option GenerateConfig) : Outcome Build :=
  forEach
    (js_sort (compareStartLine P)
       (sf_interfaces sourceFile ++ sf_typeAliases sourceFile
        ++ sf_functions sourceFile))
    (buildDeclaration format toSingleLine escape parseTokens printTokens P fuel
       (default defaultTypeMap (config ≫= cfg_defaultTypeMap))
       (from_option cfg_strictComment false config)
       (config ≫= cfg_propertySorter)
       (default defaultLinkFormatter (config ≫= cfg_linkFormatter)))
    (mkBuild [] ∅ (mkState [] [])).

(** The title that a declaration gives, and whether it gives one. *)
Definition titleOf (P : Program) (declaration : NodeId) : string :=
  orEmpty (jsDocTitleOf P (Some declaration)).

Definition hasTitle (P : Program) (declaration : NodeId) : Prop :=
  truthy (jsDocTitleOf P (Some declaration)) = true.

#[global] Instance hasTitle_dec P declaration : Decision (hasTitle P declaration).
Proof. unfold hasTitle. apply _. Defined.

Definition startLine (P : Program) (declaration : NodeId) : Z :=
  node_startLineNumber (nodes P declaration).

(** [config] with [strictDeclarationOrder] set to [strict]. *)
Definition withStrictOrder (strict : bool) (config : option GenerateConfig)
  : option GenerateConfig :=
  Some (mkConfig (config ≫= cfg_defaultTypeMap)
          (from_option cfg_strictComment false config)
          (config ≫= cfg_propertySorter)
          (config ≫= cfg_linkFormatter)
          strict
          (config ≫= cfg_project)
          (config ≫= cfg_sourceFilesPaths)).

(** The schema of the last entry of [l] whose title is [title]. *)
Definition lastWithTitle (title : string) (l : SchemaList) : option Schema :=
  entry_schema <$> last (filter (fun e => entry_title e = title) l).

Definition isNestedEntry (e : SchemaEntry) : Prop :=
  match entry_schema e with
  | NestedTypeSchema _ _ => True
  | _ => False
  end.

(** ** A demonstration project

    The entry file [/src/demo.ts] declares, in this order of encounter,
    the interfaces [G] (line 5, title Gamma) and [A2] (line 7, title
    Alpha), the type alias [B] (line 3, title Beta) and the function [f]
    (line 1, title Alpha); [Inner] is an untitled interface of
    [/src/a.ts]. *)
Module Demo.

Definition dq : string := String (ascii_of_nat 34) EmptyString.

(** The text that the type checker gives for [Inner] seen from the entry
    file. *)
Definition innerText : string :=
  "import(" +:+ dq +:+ "/src/a" +:+ dq +:+ ").Inner".

Definition node0 : Node :=
  mkNode OtherKind None 0 "/src/demo.ts" "" "" 0%Z [] None None None [] 0 ""
    false None.

Definition titledBy (title : string) : option (list JSDoc) :=
  Some [[mkJSDocTag "title" (Some title)]].

Definition demo_program : Program :=
  mkProgram
    (fun n =>
       match n with
       | 10 => mkNode FunctionDeclaration (titledBy "Alpha") 7 "/src/demo.ts"
                 "function f(p: Inner): Inner" "" 1%Z [] None None None [11] 2
                 "f" false None
       | 11 => mkNode OtherKind None 2 "/src/demo.ts" "p: Inner" "" 1%Z
                 [mkDescendant 2 false; mkDescendant 2 true] None (Some 21)
                 None [] 0 "p" false None
       | 12 => mkNode TypeAliasDeclaration (titledBy "Beta") 4 "/src/demo.ts"
                 "type B = { style: string }" "" 3%Z [] None None (Some 13) []
                 0 "B" false None
       | 14 => mkNode InterfaceDeclaration (titledBy "Gamma") 5 "/src/demo.ts"
                 "interface G { x: Inner; style: string; foo }" "" 5%Z []
                 (Some [Some 23; Some 22; Some 25]) None None [] 0 "G" false None
       | 15 => mkNode OtherKind (Some []) 2 "/src/demo.ts" "x: Inner;" "" 5%Z
                 [mkDescendant 2 false; mkDescendant 2 true] None (Some 23)
                 None [] 0 "x" false None
       | 16 => mkNode OtherKind (Some []) 0 "/src/demo.ts" "style: string;" ""
                 5%Z [mkDescendant 0 true] None (Some 22) None [] 0 "style"
                 false None
       | 17 => mkNode OtherKind (Some []) 0 "/src/demo.ts" "foo;" "" 5%Z []
                 None (Some 25) None [] 0 "foo" false None
       | 18 => mkNode InterfaceDeclaration (Some []) 2 "/src/a.ts"
                 "interface Inner {}" "interface Inner {}" 1%Z [] (Some [])
                 (Some 20) None [] 0 "Inner" false None
       | 19 => mkNode InterfaceDeclaration (titledBy "Alpha") 6 "/src/demo.ts"
                 "interface A2 {}" "" 7%Z [] (Some []) None None [] 0 "A2"
                 false None
       | _ => node0
       end)
    (fun s =>
       match s with
       | 20 => mkSymbol "Inner" [18] [] []
       | 21 => mkSymbol "p" [11] [] []
       | 22 => mkSymbol "style" [16] [] []
       | 23 => mkSymbol "x" [15]
                 [mkTagInfo "zh" (Some [mkPart "the x" "text"])] []
       | 25 => mkSymbol "foo" [17] [] []
       | _ => mkSymbol "" [] [] []
       end)
    (fun t =>
       match t with
       | 2 => mkType None (Some 20) true false false false [] [] innerText []
       | 4 => mkType None None false false false false [] [] "B" [22]
       | 5 => mkType None None true false false false [] [] "G" [23; 22; 25]
       | 6 => mkType None None true false false false [] [] "A2" []
       | _ => mkType None None false false false false [] [] "string" []
       end).

Definition sourceFile : SourceFile := mkSourceFile [14; 19] [12] [10].

Definition demo_project : Project :=
  mkProject demo_program {["/src/demo.ts" := sourceFile]}.

Definition demo_format (s : string) : string := s.
Definition toSingleLine (s : string) : string := s.
Definition escape (s : string) : string := s.

Definition flush (cur : string) : list Token :=
  match cur with
  | EmptyString => []
  | String _ _ => [Identifier cur]
  end.

(** A scanner that takes each run of word characters for an identifier. *)
Fixpoint tokensFrom (cur s : string) : list Token :=
  match s with
  | EmptyString => flush cur
  | String c s' =>
      if is_word c then tokensFrom (cur +:+ String c EmptyString) s'
      else flush cur ++ OtherToken (String c EmptyString) :: tokensFrom EmptyString s'
  end.

Definition parseTokens (s : string) : list Token := tokensFrom EmptyString s.

Definition tokenText (t : Token) : string :=
  match t with
  | Identifier s => s
  | OtherToken s => s
  end.

Definition printTokens (l : list Token) : string :=
  foldr (fun t acc => tokenText t +:+ acc) EmptyString l.

Definition defaultTypeMap : gmap string DefaultType :=
  {["style" := mkDefault "CSSProperties" [mkTag "en" "Additional style"]]}.

Definition linkFormatter : LinkFormatter :=
  fun info => Some ("#" +:+ link_typeName info).

Definition run_generate := generate demo_format toSingleLine escape parseTokens
  printTokens defaultTypeMap linkFormatter demo_project (fun p _ => p).

Definition strictConfig : option GenerateConfig :=
  Some (mkConfig None false None None true None None).

End Demo.

(** ** The shape of a member text *)

Fixpoint all_chars (p : ascii -> bool) (s : string) : bool :=
  match s with
  | EmptyString => true
  | String c s' => p c && all_chars p s'
  end.


(** [p] rejects the first character of [s], if there is one. *)
Definition stops (p : ascii -> bool) (s : string) : Prop :=
  match s with
  | EmptyString => True
  | String c _ => p c = false
  end.

(** The outputs of the demonstration project. *)
Module DemoRun.

Definition run_generateSchema := generateSchema Demo.demo_format
  Demo.toSingleLine Demo.escape Demo.parseTokens Demo.printTokens
  Demo.defaultTypeMap Demo.linkFormatter.

Definition run_buildDeclaration := buildDeclaration Demo.demo_format
  Demo.toSingleLine Demo.escape Demo.parseTokens Demo.printTokens
  Demo.demo_program.

Definition emptyBuild : Build := mkBuild [] ∅ (mkState [] []).

Definition map : gmap string Schema :=
  match run_generateSchema 5 Demo.demo_program Demo.sourceFile None with
  | Ret (OutputMap m) => m
  | _ => ∅
  end.

Definition list : SchemaList :=
  match run_generateSchema 5 Demo.demo_program Demo.sourceFile Demo.strictConfig with
  | Ret (OutputList l) => l
  | _ => []
  end.

(** The accumulators after the turn of the loop for the function [f]. *)
Definition afterFunction : Build :=
  match run_buildDeclaration 5 Demo.defaultTypeMap false None Demo.linkFormatter
          10 emptyBuild with
  | Ret b => b
  | _ => emptyBuild
  end.

End DemoRun.

(** ** A type alias of a mapped type

    [/src/record.ts] holds one titled type alias whose type has a
    property [a] that no declaration backs, as the type checker gives for
    a mapped type over literal keys. *)
Module RecordAlias.

Definition record_program : Program :=
  mkProgram
    (fun n =>
       match n with
       | 1 => mkNode TypeAliasDeclaration (Demo.titledBy "T") 1 "/src/record.ts"
                "type T = Record<K, string>" "" 1%Z [] None None (Some 2) []
                0 "T" false None
       | _ => Demo.node0
       end)
    (fun s =>
       match s with
       | 1 => mkSymbol "a" [] [] []
       | _ => mkSymbol "" [] [] []
       end)
    (fun t =>
       match t with
       | 1 => mkType (Some 2) None false false false false [] [] "T" [1]
       | _ => mkType None None false false false false [] [] "string" []
       end).

Definition record_project : Project :=
  mkProject record_program {["/src/record.ts" := mkSourceFile [] [1] []]}.

Definition run_generate_record := generate Demo.demo_format Demo.toSingleLine
  Demo.escape Demo.parseTokens Demo.printTokens Demo.defaultTypeMap
  Demo.linkFormatter record_project (fun p _ => p).

End RecordAlias.

(** ** A titled type of an external library

    Node 1 is a property [button: ButtonProps]; [ButtonProps] is declared
    under [/node_modules/] by node 2, whose JSDoc has [@title Button]. *)
Module ExternalTitled.

Definition external_program : Program :=
  mkProgram
    (fun n =>
       match n with
       | 1 => mkNode OtherKind (Some []) 1 "/app/src/page.ts"
                "button: ButtonProps;" "" 1%Z
                [mkDescendant 1 false; mkDescendant 1 true] None (Some 2) None
                [] 0 "button" false None
       | 2 => mkNode InterfaceDeclaration (Demo.titledBy "Button") 1
                "/app/node_modules/lib/index.d.ts" "interface ButtonProps {}"
                "" 1%Z [] (Some []) (Some 1) None [] 0 "ButtonProps" false None
       | _ => Demo.node0
       end)
    (fun s =>
       match s with
       | 1 => mkSymbol "ButtonProps" [2] [] []
       | 2 => mkSymbol "button" [1] [] []
       | _ => mkSymbol "" [] [] []
       end)
    (fun t =>
       match t with
       | 1 => mkType None (Some 1) true false false false [] [] "ButtonProps" []
       | _ => mkType None None false false false false [] [] "string" []
       end).

End ExternalTitled.

(** ** The linkifier and external libraries *)

(** The claim that no type of an external library is ever visited. *)
Definition external_never_visited (P : Program) (format : string -> string)
  : Prop :=
  forall fuel declaration st',
    dumpNestedTypes P format fuel declaration (mkState [] []) = Ret st' ->
    forall t, t ∈ parsedNestedTypes st' -> isExternal P t = false.

(** What holds instead: an external type in the visited set is the type
    of a declaration that has a title. *)
Definition external_only_titled (P : Program) (set : list TypeId) : Prop :=
  forall t,
    t ∈ set -> isExternal P t = true ->
    exists d, titled P d /\ node_type (nodes P d) = t.

(** The name of the symbol of a type. *)
Definition typeNameOf (P : Program) (type : TypeId) : option string :=
  (fun s => sym_name (symbols P s)) <$> getSymbolByType P type.

(** The text that replaces an identifier. *)
Definition linkText (typeName link : string) : string :=
  "[" +:+ typeName +:+ "](" +:+ link +:+ ")".

(** The declaration behind a type and the path of its file. *)
Definition backing (P : Program) (t : TypeId) : option NodeId :=
  getDeclarationBySymbol P (getSymbolByType P t).
Definition pathOf (P : Program) (t : TypeId) : option string :=
  (fun d => node_filePath (nodes P d)) <$> backing P t.

(** How a link for the identifier [text] comes from the visited type
    [t]: through the nested-type list, with the name alone, or through
    the title of the backing declaration. *)
Definition linked_through (P : Program) (text : string) (nl : SchemaList)
    (lf : LinkFormatter) (t : TypeId) (link : string) : Prop :=
  ((exists item, item ∈ nl /\ entry_title item = text)
   /\ lf (mkLinkInfo text None None) = Some link)
  \/ ((forall item, item ∈ nl -> entry_title item <> text)
      /\ exists title,
           jsDocTitleOf P (backing P t) = Some title
           /\ truthy (Some title) = true
           /\ lf (mkLinkInfo text (Some title) (pathOf P t)) = Some link).

(** The visited type [t] yields the link [link] for the identifier
    [text]: the text is not empty and is the name of the symbol of [t],
    and [link] is a non-empty link that comes about through [t]. *)
Definition gives_link (P : Program) (text : string) (nl : SchemaList)
    (lf : LinkFormatter) (t : TypeId) (link : string) : Prop :=
  truthy (Some text) = true
  /\ typeNameOf P t = Some text
  /\ truthy (Some link) = true
  /\ linked_through P text nl lf t link.

(** ** Definitions for the further properties *)

(** The tag that [getDeclarationTags] makes of a raw tag. *)
Definition tagOfRaw (tag : JSDocTag) : TagType :=
  mkTag (jsdoc_tagName tag) (orEmpty (jsdoc_commentText tag)).

(** The tag that [getSymbolTags] makes of a JSDoc tag of a symbol. *)
Definition tagOfInfo (tag : JSDocTagInfo) : Outcome TagType :=
  value ← tagInfoValue tag; mret (mkTag (info_name tag) value).

(** The properties or parameters that a schema lists. *)
Definition schemaProperties (schema : Schema) : list PropertyType :=
  match schema with
  | InterfaceSchema _ data => data
  | FunctionSchema _ params _ => params
  | NestedTypeSchema _ _ => []
  end.

Definition schemaTags (schema : Schema) : list TagType :=
  match schema with
  | InterfaceSchema tags _ => tags
  | FunctionSchema tags _ _ => tags
  | NestedTypeSchema tags _ => tags
  end.

(** The kinds of type that [isTarget] accepts. *)
Definition structuralKind (P : Program) (type : TypeId) : bool :=
  type_isInterface (types P type) || type_isEnum (types P type)
  || isUnionOrIntersection P type || isAliasDeclaration P type.

(** A type that the resolver may give a nested-type entry: its symbol has
    a name, the name is not to be skipped, its backing declaration has no
    title and does not lie in an external library, and it is an
    interface, an enum, a union, an intersection or a declared alias. *)
Definition dumpable (P : Program) (type : TypeId) : Prop :=
  truthy (typeNameOf P type) = true
  /\ (orEmpty (typeNameOf P type) ∉ KEYWORDS_TO_SKIP)
  /\ truthy (jsDocTitleOf P (backing P type)) = false
  /\ isExternal P type = false
  /\ structuralKind P type = true.

(** A nested-type entry as the resolver makes it: a title that is neither
    empty nor [Omit], and one tag, named [title], that repeats it. *)
Definition nestedEntryShape (e : SchemaEntry) : Prop :=
  entry_title e <> EmptyString
  /\ entry_title e <> "Omit"
  /\ exists data,
       entry_schema e = NestedTypeSchema [mkTag "title" (entry_title e)] data.

(** A type that is no target (any more) for a visited set, and whose
    test does not change the set. *)
Definition settled (P : Program) (set : list TypeId) (type : TypeId) : Prop :=
  isTarget P type set = (false, set).

(** A descendant that the callback of [dumpNestedTypes] does not pass
    over: a type node whose type has a named symbol that is not to be
    skipped. *)
Definition scanned (P : Program) (descendant : Descendant) : bool :=
  desc_isTypeNode descendant
  && truthy (typeNameOf P (desc_type descendant))
  && negb (bool_decide (orEmpty (typeNameOf P (desc_type descendant))
                        ∈ KEYWORDS_TO_SKIP)).

(** What [getFunctionSchema] reports for the parameter [para]: its name,
    its optionality, the tags of its symbol, and for [initializerText]
    the text of its initializer, else the value of its first [default]
    or [defaultValue] tag, else [null]. *)
Definition describesParameter (P : Program) (strictComment : bool)
    (para : NodeId) (p : PropertyType) : Prop :=
  prop_name p = node_name (nodes P para)
  /\ prop_isOptional p = node_isOptional (nodes P para)
  /\ exists sym tags,
       node_symbol (nodes P para) = Some sym
       /\ prop_tags p = Some tags
       /\ getSymbolTags (symbols P sym) strictComment = Ret tags
       /\ prop_initializerText p
          = Some (firstTruthy (node_initializer (nodes P para))
                    (tag_value <$> find isDefaultTag tags)).

(** ** A project in which every declaration is documented

    The entry file [/src/button.ts] declares the interface [ButtonProps]
    with the title [Button] and the properties [size?: Size], which has a
    plain description, and [disabled: boolean], which has a [zh] and a
    [defaultValue] tag; the interface [Size], which has no title; and the
    function [open(target: Size, delay = 0): void] with the title [open],
    whose parameter [delay] also has a [default] tag. *)
Module Button.

Definition noNode : Node :=
  mkNode OtherKind None 0 "/src/button.ts" "" "" 0%Z [] None None None [] 0 ""
    false None.

Definition text (s : string) : option (list SymbolDisplayPart) :=
  Some [mkPart s "text"].

Definition button_program : Program :=
  mkProgram
    (fun n =>
       match n with
       | 1 => mkNode InterfaceDeclaration
                (Some [[mkJSDocTag "title" (Some "Button")]]) 1 "/src/button.ts"
                "interface ButtonProps { size?: Size; disabled: boolean; }" ""
                2%Z [] (Some [Some 1; Some 2]) (Some 7) None [] 0 "ButtonProps"
                false None
       | 2 => mkNode OtherKind (Some []) 2 "/src/button.ts" "size?: Size;" ""
                4%Z [mkDescendant 2 false; mkDescendant 2 true;
                     mkDescendant 2 false]
                None (Some 1) None [] 0 "size" true None
       | 3 => mkNode OtherKind (Some []) 5 "/src/button.ts"
                "disabled: boolean;" "" 6%Z
                [mkDescendant 5 false; mkDescendant 5 true] None (Some 2) None
                [] 0 "disabled" false None
       | 4 => mkNode InterfaceDeclaration (Some []) 2 "/src/button.ts"
                "interface Size { width: number; }"
                "interface Size { width: number; }" 8%Z [] (Some [Some 3])
                (Some 6) None [] 0 "Size" false None
       | 5 => mkNode OtherKind (Some []) 0 "/src/button.ts" "width: number;" ""
                9%Z [mkDescendant 0 false; mkDescendant 0 true] None (Some 3)
                None [] 0 "width" false None
       | 6 => mkNode FunctionDeclaration
                (Some [[mkJSDocTag "title" (Some "open")]]) 3 "/src/button.ts"
                "function open(target: Size, delay = 0): void {}" "" 12%Z []
                None None None [7; 8] 4 "open" false None
       | 7 => mkNode OtherKind None 2 "/src/button.ts" "target: Size" "" 12%Z
                [mkDescendant 2 false; mkDescendant 2 true;
                 mkDescendant 2 false]
                None (Some 4) None [] 0 "target" false None
       | 8 => mkNode OtherKind None 0 "/src/button.ts" "delay = 0" "" 12%Z
                [mkDescendant 0 false; mkDescendant 0 false] None (Some 5)
                None [] 0 "delay" true (Some "0")
       | _ => noNode
       end)
    (fun s =>
       match s with
       | 1 => mkSymbol "size" [2] [] [mkPart "The size" "text"]
       | 2 => mkSymbol "disabled" [3]
                [mkTagInfo "zh" (text "Disabled");
                 mkTagInfo "defaultValue" (text "false")] []
       | 3 => mkSymbol "width" [5] [] []
       | 4 => mkSymbol "target" [7] [] [mkPart "Where to open" "text"]
       | 5 => mkSymbol "delay" [8] [mkTagInfo "default" (text "1")] []
       | 6 => mkSymbol "Size" [4] [] []
       | 7 => mkSymbol "ButtonProps" [1] [] []
       | _ => mkSymbol "" [] [] []
       end)
    (fun t =>
       match t with
       | 1 => mkType None (Some 7) true false false false [] [] "ButtonProps"
                [1; 2]
       | 2 => mkType None (Some 6) true false false false [] [] "Size" [3]
       | 3 => mkType None None false false false false [] [] "typeof open" []
       | 4 => mkType None None false false false false [] [] "void" []
       | 5 => mkType None None false false false false [] [] "boolean" []
       | _ => mkType None None false false false false [] [] "number" []
       end).

Definition sourceFile : SourceFile := mkSourceFile [1; 4] [] [6].

Definition button_project : Project :=
  mkProject button_program {["/src/button.ts" := sourceFile]}.


Definition run_getFunctionSchema :=
  getFunctionSchema button_program Demo.demo_format Demo.toSingleLine
    Demo.escape Demo.parseTokens Demo.printTokens.

Definition run_generateSchema :=
  generateSchema Demo.demo_format Demo.toSingleLine Demo.escape
    Demo.parseTokens Demo.printTokens Demo.defaultTypeMap Demo.linkFormatter.

Definition run_generate :=
  generate Demo.demo_format Demo.toSingleLine Demo.escape Demo.parseTokens
    Demo.printTokens Demo.defaultTypeMap Demo.linkFormatter button_project
    (fun p _ => p).

End Button.

(** The declarations of a source file, in the order in which
    [generateSchema] concatenates them. *)
Definition declarationsOf (sourceFile : SourceFile) : list NodeId :=
  sf_interfaces sourceFile ++ sf_typeAliases sourceFile
  ++ sf_functions sourceFile.

(** The source file without the declarations that have no title. *)
Definition titledOnly (P : Program) (sourceFile : SourceFile) : SourceFile :=
  mkSourceFile (filter (hasTitle P) (sf_interfaces sourceFile))
    (filter (hasTitle P) (sf_typeAliases sourceFile))
    (filter (hasTitle P) (sf_functions sourceFile)).

(** [config] with [propertySorter] set to [sorter]. *)
Definition withPropertySorter
    (sorter : option (PropertyType -> PropertyType -> Z))
    (config : option GenerateConfig) : option GenerateConfig :=
  Some (mkConfig (config ≫= cfg_defaultTypeMap)
          (from_option cfg_strictComment false config)
          sorter
          (config ≫= cfg_linkFormatter)
          (from_option cfg_strictDeclarationOrder false config)
          (config ≫= cfg_project)
          (config ≫= cfg_sourceFilesPaths)).

(** The property sorter applied to the schema of an entry, and to every
    schema of an output. *)
Definition sortEntry (sorter : option (PropertyType -> PropertyType -> Z))
    (e : SchemaEntry) : SchemaEntry :=
  mkEntry (entry_title e) (applySorter sorter (entry_schema e)).

Definition sortOutput (sorter : option (PropertyType -> PropertyType -> Z))
    (out : Output) : Output :=
  match out with
  | OutputList list => OutputList (sortEntry sorter <$> list)
  | OutputMap map => OutputMap (applySorter sorter <$> map)
  end.

Definition sortBuild (sorter : option (PropertyType -> PropertyType -> Z))
    (b : Build) : Build :=
  mkBuild (sortEntry sorter <$> schemaList b)
    (applySorter sorter <$> schemaMap b) (build_state b).

(** The symbols of a project are well formed for the extraction: no
    JSDoc tag has an empty array for text. *)
Definition tags_well_formed (P : Program) : Prop :=
  forall s tag, tag ∈ sym_jsDocTags (symbols P s) -> info_text tag <> Some [].

Definition symbol_declared (P : Program) (s : SymbolId) : Prop :=
  sym_declarations (symbols P s) <> [].

(** A declaration that [generateSchema] can process: it has [getJsDocs];
    if it is function-shaped its parameters have symbols; otherwise the
    properties of its type have declarations and, if it is an interface
    declaration, it has [getProperties] and each of its properties has a
    symbol with a declaration. *)
Definition declaration_well_formed (P : Program) (d : NodeId) : Prop :=
  node_jsDocs (nodes P d) <> None
  /\ match functionNodeOf P d with
     | Some fn =>
         Forall (fun para => node_symbol (nodes P para) <> None)
           (node_parameters (nodes P fn))
     | None =>
         Forall (symbol_declared P)
           (type_properties (types P (node_type (nodes P d))))
         /\ (node_kind (nodes P d) = InterfaceDeclaration ->
             exists properties,
               node_properties (nodes P d) = Some properties
               /\ Forall (fun a => exists s, a = Some s /\ symbol_declared P s)
                    properties)
     end.

(** The nested-type list is made of the entries of distinct visited
    types, all of them dumpable. *)
Definition nested_dumpable (P : Program) (format : string -> string)
    (st : State) : Prop :=
  exists ts,
    nestedTypeList st = entryOfType P format <$> ts
    /\ NoDup ts
    /\ ts ⊆ parsedNestedTypes st
    /\ Forall (dumpable P) ts.

(** The outcome of a call, with [f] applied to what it returns. *)
Definition mapOutcome {A B : Type} (f : A -> B) (o : Outcome A) : Outcome B :=
  match o with
  | Ret a => Ret (f a)
  | TypeError => TypeError
  | OutOfFuel => OutOfFuel
  end.


(** The entries that a dictionary takes up: those whose title is not
    [__proto__]. *)
Definition storable (l : SchemaList) : SchemaList :=
  filter (fun e => entry_title e <> "__proto__") l.


(** ** Two declarations with the title [__proto__]

    [/src/proto.ts] declares the interfaces [A] and [B], both with
    [@title __proto__], and the interface [Size] without a title; the
    property [size: Size] of [A] has a plain description. *)
Module ProtoTitle.

Definition proto_program : Program :=
  mkProgram
    (fun n =>
       match n with
       | 1 => mkNode InterfaceDeclaration (Demo.titledBy "__proto__") 1
                "/src/proto.ts" "interface A { size: Size; }" "" 2%Z []
                (Some [Some 1]) (Some 3) None [] 0 "A" false None
       | 2 => mkNode OtherKind (Some []) 2 "/src/proto.ts" "size: Size;" ""
                4%Z [mkDescendant 2 false; mkDescendant 2 true;
                     mkDescendant 2 false]
                None (Some 1) None [] 0 "size" false None
       | 3 => mkNode InterfaceDeclaration (Demo.titledBy "__proto__") 3
                "/src/proto.ts" "interface B {}" "" 7%Z [] (Some []) (Some 4)
                None [] 0 "B" false None
       | 4 => mkNode InterfaceDeclaration (Some []) 2 "/src/proto.ts"
                "interface Size {}" "interface Size {}" 9%Z [] (Some [])
                (Some 2) None [] 0 "Size" false None
       | _ => Demo.node0
       end)
    (fun s =>
       match s with
       | 1 => mkSymbol "size" [2] [] [mkPart "The size" "text"]
       | 2 => mkSymbol "Size" [4] [] []
       | 3 => mkSymbol "A" [1] [] []
       | 4 => mkSymbol "B" [3] [] []
       | _ => mkSymbol "" [] [] []
       end)
    (fun t =>
       match t with
       | 1 => mkType None (Some 3) true false false false [] [] "A" [1]
       | 2 => mkType None (Some 2) true false false false [] [] "Size" []
       | 3 => mkType None (Some 4) true false false false [] [] "B" []
       | _ => mkType None None false false false false [] [] "string" []
       end).

Definition proto_project : Project :=
  mkProject proto_program {["/src/proto.ts" := mkSourceFile [1; 3; 4] [] []]}.

Definition run_generate_proto := generate Demo.demo_format Demo.toSingleLine
  Demo.escape Demo.parseTokens Demo.printTokens Demo.defaultTypeMap
  Demo.linkFormatter proto_project (fun p _ => p).

Definition schemaA : Schema :=
  InterfaceSchema [mkTag "title" "__proto__"]
    [mkProperty "size" (Some " [Size](#Size)") false
       (Some [mkTag "zh" "The size"; mkTag "en" "The size"]) None].

Definition schemaB : Schema := InterfaceSchema [mkTag "title" "__proto__"] [].

Definition schemaSize : Schema :=
  NestedTypeSchema [mkTag "title" "Size"] "interface Size {}".

End ProtoTitle.

(** ** A property named like a member of [Object.prototype]

    [/src/widget.ts] declares the interface [Widget], with the title
    [Widget], whose one property [toString: () => string] has no
    documentation. *)
Module InheritedKey.

Definition widget_program : Program :=
  mkProgram
    (fun n =>
       match n with
       | 1 => mkNode InterfaceDeclaration (Demo.titledBy "Widget") 1
                "/src/widget.ts" "interface Widget { toString: () => string; }"
                "" 2%Z [] (Some [Some 1]) (Some 2) None [] 0 "Widget" false
                None
       | 2 => mkNode OtherKind (Some []) 0 "/src/widget.ts"
                "toString: () => string;" "" 3%Z [mkDescendant 0 false]
                None (Some 1) None [] 0 "toString" false None
       | _ => Demo.node0
       end)
    (fun s =>
       match s with
       | 1 => mkSymbol "toString" [2] [] []
       | 2 => mkSymbol "Widget" [1] [] []
       | _ => mkSymbol "" [] [] []
       end)
    (fun t =>
       match t with
       | 1 => mkType None (Some 2) true false false false [] [] "Widget" [1]
       | _ => mkType None None false false false false [] [] "() => string" []
       end).

Definition widget_project : Project :=
  mkProject widget_program {["/src/widget.ts" := mkSourceFile [1] [] []]}.

Definition run_generate_widget := generate Demo.demo_format Demo.toSingleLine
  Demo.escape Demo.parseTokens Demo.printTokens Demo.defaultTypeMap
  Demo.linkFormatter widget_project (fun p _ => p).

End InheritedKey.


(** * Properties *)

(** ** Tag parser *)

Lemma getDeclarationTags_fold (rawTags : list JSDocTag) :
  (fold_left
     (fun '(title, tags) tag =>
        let name := jsdoc_tagName tag in
        let value := orEmpty (jsdoc_commentText tag) in
        (if String.eqb name "title" then Some value else title,
         tags ++ [mkTag name value]))
     rawTags (None, [])).1
  = (fun tag => orEmpty (jsdoc_commentText tag))
      <$> last (filter (fun tag => isTitleTag tag = true) rawTags).
Proof.
  induction rawTags as [|tag rawTags IH] using rev_ind; [done|].
  rewrite fold_left_app, filter_app. cbn [fold_left].
  destruct (fold_left _ rawTags _) as [title tags] eqn:E. cbn [fst] in *.
  destruct (String.eqb (jsdoc_tagName tag) "title") eqn:Et.
  - rewrite filter_cons_True by (unfold isTitleTag; by rewrite Et).
    rewrite filter_nil. by rewrite last_snoc.
  - rewrite filter_cons_False by (unfold isTitleTag; by rewrite Et).
    rewrite filter_nil. by rewrite (right_id_L [] (++)).
Qed.

(** C2, as the code has it: the title that [getDeclarationTags] surfaces
    is the value of the last tag named [title] of the first documentation
    block (every such tag overwrites the title found before it), and it
    is absent exactly when the block has no such tag. *)
Theorem getDeclarationTags_title_last (jsDocs : list JSDoc) :
  (getDeclarationTags jsDocs).1 = lastTitle jsDocs.
Proof.
  unfold getDeclarationTags, lastTitle, rawTagsOf.
  apply getDeclarationTags_fold.
Qed.

(** C2, as stated, fails: with two [title] tags the first does not win. *)
Lemma getDeclarationTags_title_not_first :
  let jsDocs := [[mkJSDocTag "title" (Some "A"); mkJSDocTag "title" (Some "B")]] in
  firstTitle jsDocs = Some "A"
  /\ (getDeclarationTags jsDocs).1 = Some "B"
  /\ (getDeclarationTags jsDocs).1 <> firstTitle jsDocs.
Proof. vm_compute. by repeat split. Qed.

(** C6: [getSymbolTags] yields the symbol's own tags followed by the
    synthetic tags of the specification: with [strict] unset and a plain
    description present, one tag carrying that description for each of
    [zh] and [en] that the symbol's tags do not have; none otherwise. *)
Theorem getSymbolTags_promotes_description (sym : Symbol) (strict : bool) :
  getSymbolTags sym strict
  = (tags ← jsDocTagsOf sym; Ret (tags ++ syntheticTags strict sym tags)).
Proof.
  unfold getSymbolTags, jsDocTagsOf.
  destruct (mapM _ (sym_jsDocTags sym)) as [tags| |]; [|done..].
  cbn [mbind Outcome_bind]. unfold syntheticTags, plainDescription.
  destruct strict; cbn [negb]; [by rewrite (right_id_L [] (++))|].
  destruct (head (sym_documentationComment sym)) as [part|];
    [|by rewrite (right_id_L [] (++))].
  destruct (String.eqb (part_kind part) "text" && truthy (Some (part_text part)));
    [|by rewrite (right_id_L [] (++))].
  unfold mret, Outcome_ret. f_equal. unfold TAG_NAMES_FOR_DESCRIPTION.
  assert (Hz : forall v, hasTagNamed "en" (tags ++ [mkTag "zh" v])
                         = hasTagNamed "en" tags).
  { intros v. unfold hasTagNamed. rewrite existsb_app. cbn.
    by rewrite !orb_false_r. }
  cbn [fold_left]. rewrite !filter_cons, filter_nil.
  destruct (hasTagNamed "zh" tags) eqn:Hzh; cbn [negb]; rewrite ?Hz;
    destruct (hasTagNamed "en" tags) eqn:Hen; cbn [negb];
    repeat case_decide; try congruence; cbn [fmap list_fmap];
    by rewrite <- ?app_assoc, ?(right_id_L [] (++)).
Qed.

(** ** Loops *)

Lemma forEach_partial {A S : Type} (I : S -> Prop) (l : list A)
    (f : A -> S -> Outcome S) (s : S) :
  I s ->
  (forall x s, x ∈ l -> I s -> partial (f x s) I) ->
  partial (forEach l f s) I.
Proof.
  revert s. induction l as [|x l IH]; intros s Hs Hf; [done|].
  cbn [forEach]. pose proof (Hf x s ltac:(left) Hs) as Hx.
  destruct (f x s) as [s'| |]; cbn in *; [|done..].
  apply IH; [done|]. intros y s0 Hy. apply Hf. by right.
Qed.

Lemma forEach_halts {A S : Type} (I : S -> Prop) (l : list A)
    (f : A -> S -> Outcome S) (s : S) :
  I s ->
  (forall x s, x ∈ l -> I s -> halts (f x s) I) ->
  halts (forEach l f s) I.
Proof.
  revert s. induction l as [|x l IH]; intros s Hs Hf; [done|].
  cbn [forEach]. pose proof (Hf x s ltac:(left) Hs) as Hx.
  destruct (f x s) as [s'| |]; cbn in *; [|done..].
  apply IH; [done|]. intros y s0 Hy. apply Hf. by right.
Qed.

Lemma forEach_erase {A : Type} (l : list A)
    (f : A -> State * list Event -> Outcome (State * list Event))
    (g : A -> State -> Outcome State) :
  (forall x st tr, x ∈ l -> erase (f x (st, tr)) = g x st) ->
  forall st tr, erase (forEach l f (st, tr)) = forEach l g st.
Proof.
  induction l as [|x l IH]; intros Hf st tr; [done|].
  cbn [forEach]. pose proof (Hf x st tr ltac:(left)) as Hx.
  destruct (f x (st, tr)) as [[st1 tr1]| |]; cbn in Hx; rewrite <- Hx; cbn;
    [|done..].
  apply IH. intros y st0 tr0 Hy. apply Hf. by right.
Qed.

(** ** The visited set *)

Lemma set_has_true t s : set_has t s = true <-> t ∈ s.
Proof. unfold set_has. apply bool_decide_eq_true. Qed.

Lemma set_has_false t s : set_has t s = false <-> t ∉ s.
Proof. unfold set_has. apply bool_decide_eq_false. Qed.

Lemma set_add_incl t s : s ⊆ set_add t s.
Proof.
  unfold set_add. destruct (set_has t s); [done|].
  intros x Hx. apply elem_of_app. by left.
Qed.

Lemma set_add_elem t s : t ∈ set_add t s.
Proof.
  unfold set_add. destruct (set_has t s) eqn:E.
  - by apply set_has_true.
  - apply elem_of_app. right. by left.
Qed.

Lemma set_add_NoDup t s : NoDup s -> NoDup (set_add t s).
Proof.
  intros Hs. unfold set_add. destruct (set_has t s) eqn:E; [done|].
  apply NoDup_app. split_and!; [done| |apply NoDup_singleton].
  intros x Hx Hx'. apply list_elem_of_singleton in Hx' as ->.
  by apply set_has_false in E.
Qed.

Lemma set_add_elem_inv x t s : x ∈ set_add t s -> x = t \/ x ∈ s.
Proof.
  unfold set_add. destruct (set_has t s); [by right|].
  intros [H|H]%elem_of_app; [by right|]. left. by apply list_elem_of_singleton in H.
Qed.

Lemma unvisited_mono U s s' : s ⊆ s' -> unvisited U s' <= unvisited U s.
Proof.
  intros Hs. unfold unvisited. induction U as [|u U IH]; [done|].
  rewrite !filter_cons.
  destruct (decide (set_has u s' = false)) as [H'|H'],
           (decide (set_has u s = false)) as [H|H]; cbn; try lia.
  exfalso. apply set_has_false in H'. apply H' , Hs.
  apply set_has_true. by destruct (set_has u s).
Qed.

Lemma unvisited_fresh U s s' t :
  s ⊆ s' -> t ∈ U -> t ∉ s -> t ∈ s' -> unvisited U s' < unvisited U s.
Proof.
  intros Hs Ht Hn Hin. unfold unvisited. induction U as [|u U IH];
    [by apply elem_of_nil in Ht|].
  pose proof (unvisited_mono U s s' Hs) as Hm. unfold unvisited in Hm.
  rewrite !filter_cons.
  destruct (decide (set_has u s' = false)) as [H'|H'],
           (decide (set_has u s = false)) as [H|H]; cbn.
  - apply elem_of_cons in Ht as [->|Ht].
    + apply set_has_false in H'. done.
    + specialize (IH Ht). lia.
  - exfalso. apply set_has_false in H'. apply H', Hs.
    apply set_has_true. by destruct (set_has u s).
  - lia.
  - apply elem_of_cons in Ht as [->|Ht].
    + apply set_has_false in Hn. done.
    + specialize (IH Ht). lia.
Qed.

(** ** Nested-type resolver *)

Section ResolverFacts.

Variable P : Program.
Variable format : string -> string.

Lemma hasJSDocTitle_spec declaration set b set' :
  hasJSDocTitle P declaration set = (b, set') ->
  (b = false /\ set' = set)
  \/ (b = true /\ exists d, declaration = Some d /\ titled P d
                            /\ set' = set_add (node_type (nodes P d)) set).
Proof.
  unfold hasJSDocTitle, titled. destruct declaration as [d|].
  - destruct (truthy _) eqn:E; intros [= <- <-]; [right|left]; eauto.
  - intros [= <- <-]. by left.
Qed.

Lemma isTarget_true type set set' :
  isTarget P type set = (true, set') ->
  set' = set /\ (type ∉ set) /\ isExternal P type = false.
Proof.
  unfold isTarget, isExternal.
  destruct (set_has type set) eqn:Hhas; [done|].
  apply set_has_false in Hhas.
  destruct (hasJSDocTitle P _ set) as [t set1] eqn:Ht.
  destruct t; [done|].
  apply hasJSDocTitle_spec in Ht as [[_ ->]|[? _]]; [|done].
  destruct (getDeclarationBySymbol P (getSymbolByType P type)) as [d|];
    cbn [fmap option_fmap option_map orEmpty default].
  - destruct (node_filePath (nodes P d)) as [|c p]; cbn [truthy andb].
    + by intros [= _ <-].
    + destruct (includes _ _); [done|]. by intros [= _ <-].
  - by intros [= _ <-].
Qed.

Lemma isTarget_false type set set' :
  isTarget P type set = (false, set') ->
  set' = set
  \/ exists d, titled P d /\ set' = set_add (node_type (nodes P d)) set.
Proof.
  unfold isTarget.
  destruct (set_has type set); [intros [= <-]; by left|].
  destruct (hasJSDocTitle P _ set) as [t set1] eqn:Ht.
  apply hasJSDocTitle_spec in Ht as [[-> ->]|[-> (d & _ & Hd & ->)]].
  - destruct (_ && _); [intros [= <-]; by left|]. intros [= _ <-]. by left.
  - intros [= <-]. right. eauto.
Qed.

Lemma isTarget_incl type set b set' :
  isTarget P type set = (b, set') -> set ⊆ set'.
Proof.
  destruct b; intros H.
  - by apply isTarget_true in H as [-> _].
  - apply isTarget_false in H as [->|(d & _ & ->)]; [done|apply set_add_incl].
Qed.

(** The resolver with a log computes what the resolver computes. *)
Lemma dumpNestedTypes_traced_erase fuel :
  forall declaration st tr,
    erase (dumpNestedTypes_traced P format fuel declaration (st, tr))
    = dumpNestedTypes P format fuel declaration st.
Proof.
  induction fuel as [|fuel IH]; intros declaration st tr; [done|].
  cbn [dumpNestedTypes_traced dumpNestedTypes].
  destruct declaration as [d|]; [|done].
  destruct (hasJSDocTitle P (Some d) (parsedNestedTypes st)) as [t set0].
  destruct t; [done|].
  apply forEach_erase. intros desc st1 tr1 _.
  destruct (negb (desc_isTypeNode desc)); [done|].
  destruct (negb (truthy _)); [done|].
  destruct (bool_decide _); [done|].
  destruct (isTarget P (desc_type desc) (parsedNestedTypes st1)) as [target set1].
  destruct target; cbn [negb]; [|done].
  destruct (isUnionOrIntersection P (desc_type desc)).
  - apply forEach_erase. intros sub st2 tr2 _.
    destruct (getDeclarationBySymbol P (getSymbolByType P sub)); [apply IH|done].
  - destruct (type_isInterface _); [|done].
    destruct (_ ≫= _) as [properties|]; [|done].
    apply forEach_erase. intros a st2 tr2 _. apply IH.
Qed.

Lemma dumpNestedTypes_traced_of fuel declaration st tr st' :
  dumpNestedTypes P format fuel declaration st = Ret st' ->
  exists tr',
    dumpNestedTypes_traced P format fuel declaration (st, tr) = Ret (st', tr').
Proof.
  intros H. pose proof (dumpNestedTypes_traced_erase fuel declaration st tr) as E.
  rewrite H in E.
  destruct (dumpNestedTypes_traced P format fuel declaration (st, tr))
    as [[st1 tr1]| |]; cbn in E; [|done..].
  injection E as ->. eauto.
Qed.

(** Termination: with more fuel than there are types of [U] outside the
    visited set, the resolver does not run out of fuel, and the visited
    set only grows. *)
Lemma dumpNestedTypes_halts U :
  finite_graph P U ->
  forall fuel declaration st,
    unvisited U (parsedNestedTypes st) < fuel ->
    halts (dumpNestedTypes P format fuel declaration st)
      (fun st' => parsedNestedTypes st ⊆ parsedNestedTypes st').
Proof.
  intros HU. induction fuel as [|fuel IH]; intros declaration st Hlt; [lia|].
  cbn [dumpNestedTypes]. destruct declaration as [d|]; [|by cbn].
  destruct (hasJSDocTitle P (Some d) (parsedNestedTypes st)) as [t set0] eqn:Ht.
  assert (Hset0 : parsedNestedTypes st ⊆ set0).
  { apply hasJSDocTitle_spec in Ht as [[_ ->]|[_ (? & _ & _ & ->)]];
      [done|apply set_add_incl]. }
  destruct t; [by cbn|].
  apply (forEach_halts
           (fun s => parsedNestedTypes st ⊆ parsedNestedTypes s)); [done|].
  intros desc s Hdesc Hs.
  destruct (negb (desc_isTypeNode desc)); [by cbn|].
  destruct (negb (truthy _)); [by cbn|].
  destruct (bool_decide _); [by cbn|].
  destruct (isTarget P (desc_type desc) (parsedNestedTypes s))
    as [target set1] eqn:Htarget.
  destruct target; cbn [negb].
  2:{ cbn. etrans; [done|]. by eapply isTarget_incl. }
  apply isTarget_true in Htarget as (-> & Hfresh & _).
  set (s1 := mkState _ _).
  assert (Hs1 : parsedNestedTypes s ⊆ parsedNestedTypes s1).
  { apply set_add_incl. }
  assert (Hlt1 : unvisited U (parsedNestedTypes s1) < fuel).
  { assert (unvisited U (parsedNestedTypes s1)
            < unvisited U (parsedNestedTypes s)).
    { eapply unvisited_fresh; [done|by eapply HU|done|apply set_add_elem]. }
    pose proof (unvisited_mono U _ _ Hs). lia. }
  assert (Hloop : forall (A : Type) (l : list A) f,
             (forall x s2, parsedNestedTypes s1 ⊆ parsedNestedTypes s2 ->
                halts (f x s2)
                  (fun s3 => parsedNestedTypes s2 ⊆ parsedNestedTypes s3)) ->
             halts (forEach l f s1)
               (fun s3 => parsedNestedTypes st ⊆ parsedNestedTypes s3)).
  { intros A l f Hf.
    assert (halts (forEach l f s1)
              (fun s3 => parsedNestedTypes s1 ⊆ parsedNestedTypes s3)) as Hh.
    { apply (forEach_halts
               (fun s3 => parsedNestedTypes s1 ⊆ parsedNestedTypes s3));
        [done|].
      intros x s2 _ Hs2. specialize (Hf x s2 Hs2).
      destruct (f x s2); cbn in *; [|done..]. by etrans. }
    destruct (forEach l f s1); cbn in *; [|done..].
    etrans; [done|]. by etrans. }
  assert (Hrec : forall child s2,
             parsedNestedTypes s1 ⊆ parsedNestedTypes s2 ->
             halts (dumpNestedTypes P format fuel child s2)
               (fun s3 => parsedNestedTypes s2 ⊆ parsedNestedTypes s3)).
  { intros child s2 Hs2. apply IH.
    pose proof (unvisited_mono U _ _ Hs2). lia. }
  destruct (isUnionOrIntersection P (desc_type desc)).
  - apply Hloop. intros sub s2 Hs2.
    destruct (getDeclarationBySymbol P (getSymbolByType P sub));
      [by apply Hrec|by cbn].
  - destruct (type_isInterface _).
    + destruct (_ ≫= _) as [properties|]; [|done].
      apply Hloop. intros a s2 Hs2. by apply Hrec.
    + cbn. by etrans.
Qed.

(** The resolver changes its state in two ways only: it adds the type of
    a titled declaration to the visited set, or it adds a fresh,
    non-external type and pushes that type's entry; and it recurses for
    a type only after having added it.  Any property of state and log
    that these steps keep is kept by the resolver, whose log only grows. *)
Lemma dumpNestedTypes_traced_inv (I : State * list Event -> Prop) :
  (forall nl set tr d,
     I (mkState nl set, tr) -> titled P d ->
     I (mkState nl (set_add (node_type (nodes P d)) set), tr)) ->
  (forall nl set tr t,
     I (mkState nl set, tr) -> t ∉ set -> isExternal P t = false ->
     I (mkState (nl ++ [entryOfType P format t]) (set_add t set),
        tr ++ [EvAdd t])) ->
  (forall st tr t d,
     I (st, tr) -> EvAdd t ∈ tr -> I (st, tr ++ [EvRecurse t d])) ->
  forall fuel declaration s,
    I s ->
    partial (dumpNestedTypes_traced P format fuel declaration s)
      (fun s' => I s' /\ s.2 `prefix_of` s'.2).
Proof.
  intros Htitled Hadd Hrec.
  induction fuel as [|fuel IH]; intros declaration [[nl set] tr] Hs; [done|].
  cbn [dumpNestedTypes_traced]. destruct declaration as [d|]; [|by cbn].
  cbn [parsedNestedTypes nestedTypeList].
  destruct (hasJSDocTitle P (Some d) set) as [t set0] eqn:Ht.
  assert (Hs0 : I (mkState nl set0, tr)).
  { apply hasJSDocTitle_spec in Ht as [[_ ->]|[_ (? & _ & ? & ->)]]; auto. }
  destruct t; [by cbn|].
  apply (forEach_partial (fun s' => I s' /\ tr `prefix_of` s'.2)); [done|].
  clear dependent set. clear nl set0 Hs0.
  intros desc [[nl set] tr1] _ [Hs Hpre]. cbn [snd] in Hpre.
  destruct (negb (desc_isTypeNode desc)); [by cbn|].
  destruct (negb (truthy _)); [by cbn|].
  destruct (bool_decide _); [by cbn|].
  cbn [parsedNestedTypes nestedTypeList].
  destruct (isTarget P (desc_type desc) set) as [target set1] eqn:Htarget.
  destruct target; cbn [negb].
  2:{ cbn. split; [|done].
      apply isTarget_false in Htarget as [->|(? & ? & ->)]; auto. }
  apply isTarget_true in Htarget as (-> & Hfresh & Hext).
  fold (entryOfType P format (desc_type desc)).
  set (t := desc_type desc) in *.
  set (s1 := (mkState (nl ++ [entryOfType P format t]) (set_add t set),
              tr1 ++ [EvAdd t])).
  assert (Hs1 : I s1) by (by apply Hadd).
  assert (Hpre1 : tr `prefix_of` s1.2).
  { etrans; [done|]. by apply prefix_app_r. }
  assert (Hloop : forall (A : Type) (l : list A) f,
             (forall x s2, I s2 -> EvAdd t ∈ s2.2 ->
                partial (f x s2) (fun s3 => I s3 /\ s2.2 `prefix_of` s3.2)) ->
             partial (forEach l f s1)
               (fun s3 => I s3 /\ tr `prefix_of` s3.2)).
  { intros A l f Hf.
    assert (partial (forEach l f s1)
              (fun s3 => I s3 /\ s1.2 `prefix_of` s3.2)) as Hh.
    { apply (forEach_partial (fun s3 => I s3 /\ s1.2 `prefix_of` s3.2));
        [done|].
      intros x s2 _ [Hs2 Hp2].
      assert (EvAdd t ∈ s2.2) as Hin.
      { destruct Hp2 as [k ->]. apply elem_of_app. left. unfold s1.
        cbn [snd]. apply elem_of_app. right. by left. }
      specialize (Hf x s2 Hs2 Hin).
      destruct (f x s2); cbn in *; [|done..].
      destruct Hf. split; [done|]. by etrans. }
    destruct (forEach l f s1); cbn in *; [|done..].
    destruct Hh. split; [done|]. by etrans. }
  assert (Hcall : forall child s2, I s2 -> EvAdd t ∈ s2.2 ->
             partial (dumpNestedTypes_traced P format fuel child
                        (s2.1, s2.2 ++ [EvRecurse t child]))
               (fun s3 => I s3 /\ s2.2 `prefix_of` s3.2)).
  { intros child [st2 tr2] Hs2 Hin. cbn [fst snd] in *.
    pose proof (IH child (st2, tr2 ++ [EvRecurse t child])
                  ltac:(by apply Hrec)) as Hc.
    destruct (dumpNestedTypes_traced _ _ _ _ _); cbn in *; [|done..].
    destruct Hc as [? Hp]. split; [done|].
    etrans; [|done]. by apply prefix_app_r. }
  destruct (isUnionOrIntersection P t).
  - apply Hloop. intros sub [st2 tr2] Hs2 Hin.
    destruct (getDeclarationBySymbol P (getSymbolByType P sub)) as [c|];
      [by apply (Hcall (Some c) (st2, tr2))|by cbn].
  - destruct (type_isInterface _); [|by cbn].
    destruct (_ ≫= _) as [properties|]; [|done].
    apply Hloop. intros a [st2 tr2] Hs2 Hin.
    by apply (Hcall _ (st2, tr2)).
Qed.

Lemma forEach_no_TypeError {A S : Type} (l : list A)
    (f : A -> S -> Outcome S) (s : S) :
  (forall x s, x ∈ l -> f x s <> TypeError) -> forEach l f s <> TypeError.
Proof.
  revert s. induction l as [|x l IH]; intros s Hf; [done|].
  cbn [forEach]. pose proof (Hf x s ltac:(left)) as Hx.
  destruct (f x s) as [s'| |]; cbn; [|done..].
  apply IH. intros y s0 Hy. apply Hf. by right.
Qed.

Lemma dumpNestedTypes_no_TypeError :
  interfaces_declared P ->
  forall fuel declaration st,
    dumpNestedTypes P format fuel declaration st <> TypeError.
Proof.
  intros HI. induction fuel as [|fuel IH]; intros declaration st; [done|].
  cbn [dumpNestedTypes]. destruct declaration as [d|]; [|done].
  destruct (hasJSDocTitle P (Some d) (parsedNestedTypes st)) as [t set0].
  destruct t; [done|].
  apply forEach_no_TypeError. intros desc s _.
  destruct (negb (desc_isTypeNode desc)); [done|].
  destruct (negb (truthy _)); [done|].
  destruct (bool_decide _); [done|].
  destruct (isTarget P (desc_type desc) (parsedNestedTypes s)) as [target set1].
  destruct target; cbn [negb]; [|done].
  destruct (isUnionOrIntersection P (desc_type desc)).
  - apply forEach_no_TypeError. intros sub s2 _.
    destruct (getDeclarationBySymbol P (getSymbolByType P sub)); [apply IH|done].
  - destruct (type_isInterface _) eqn:Hi; [|done].
    destruct (HI _ Hi) as (d' & properties & -> & Hp). cbn. rewrite Hp.
    apply forEach_no_TypeError. intros a s2 _. apply IH.
Qed.

Lemma added_app tr1 tr2 : added (tr1 ++ tr2) = added tr1 ++ added tr2.
Proof. unfold added. apply omap_app. Qed.

Lemma elem_of_added t tr : t ∈ added tr <-> EvAdd t ∈ tr.
Proof.
  unfold added. rewrite list_elem_of_omap. split.
  - intros (e & He & Hm). destruct e; [|done]. by injection Hm as ->.
  - intros H. by exists (EvAdd t).
Qed.

Lemma added_before_recursion_snoc_add tr t :
  added_before_recursion tr -> added_before_recursion (tr ++ [EvAdd t]).
Proof.
  intros H pre t0 d post E.
  destruct post as [|e post _] using rev_ind.
  - apply (f_equal last) in E. by rewrite !last_snoc in E.
  - rewrite app_comm_cons, app_assoc in E.
    apply app_inj_tail in E as [E _]. by eapply H.
Qed.

Lemma added_before_recursion_snoc_rec tr t d :
  added_before_recursion tr -> EvAdd t ∈ tr ->
  added_before_recursion (tr ++ [EvRecurse t d]).
Proof.
  intros H Hin pre t0 d0 post E.
  destruct post as [|e post _] using rev_ind.
  - apply app_inj_tail in E as [-> [= -> ->]]. done.
  - rewrite app_comm_cons, app_assoc in E.
    apply app_inj_tail in E as [E _]. by eapply H.
Qed.

Lemma resolver_inv_kept st0 fuel declaration s :
  resolver_inv P format st0 s ->
  partial (dumpNestedTypes_traced P format fuel declaration s)
    (resolver_inv P format st0).
Proof.
  intros Hs.
  assert (partial (dumpNestedTypes_traced P format fuel declaration s)
            (fun s' => resolver_inv P format st0 s' /\ s.2 `prefix_of` s'.2))
    as H; cycle 1.
  { destruct (dumpNestedTypes_traced _ _ _ _ _); cbn in *; [|done..].
    by destruct H. }
  apply dumpNestedTypes_traced_inv; [| | |done].
  - intros nl set tr d (H1 & H2 & H3 & H4 & H5 & H6) _.
    unfold resolver_inv in *. cbn [fst snd parsedNestedTypes nestedTypeList] in *.
    split_and!; try done.
    + intros t Ht. destruct (H3 t Ht). split; [done|]. by apply set_add_incl.
    + by apply set_add_NoDup.
    + etrans; [done|]. apply set_add_incl.
  - intros nl set tr t (H1 & H2 & H3 & H4 & H5 & H6) Hfresh _.
    unfold resolver_inv in *. cbn [fst snd parsedNestedTypes nestedTypeList] in *.
    rewrite added_app. change (added [EvAdd t]) with [t]. split_and!.
    + by apply added_before_recursion_snoc_add.
    + apply NoDup_app. split_and!; [done| |apply NoDup_singleton].
      intros x Hx Hx'. apply list_elem_of_singleton in Hx' as ->.
      by destruct (H3 t Hx).
    + intros x [Hx|Hx]%elem_of_app.
      * destruct (H3 x Hx). split; [done|]. by apply set_add_incl.
      * apply list_elem_of_singleton in Hx as ->. split; [|apply set_add_elem].
        intros Hin. by apply Hfresh, H5.
    + by apply set_add_NoDup.
    + etrans; [done|]. apply set_add_incl.
    + rewrite H6, fmap_app. by rewrite <- app_assoc.
  - intros st tr t d (H1 & H2 & H3 & H4 & H5 & H6) Hin.
    unfold resolver_inv in *. cbn [fst snd] in *.
    rewrite added_app. change (added [EvRecurse t d]) with (@nil TypeId).
    rewrite (right_id_L [] (++)).
    split_and!; try done. by apply added_before_recursion_snoc_rec.
Qed.

End ResolverFacts.

(** ** Property extractor *)

Lemma append_cons x (a b : string) : String x a +:+ b = String x (a +:+ b).
Proof. reflexivity. Qed.

Lemma append_nil_l (b : string) : EmptyString +:+ b = b.
Proof. reflexivity. Qed.

Lemma append_assoc (a b c : string) : (a +:+ b) +:+ c = a +:+ b +:+ c.
Proof.
  induction a as [|x a IH]; [done|]. rewrite !append_cons. by f_equal.
Qed.

Lemma all_chars_app p a b :
  all_chars p (a +:+ b) = all_chars p a && all_chars p b.
Proof.
  induction a as [|x a IH]; [done|]. rewrite append_cons. cbn.
  rewrite IH. by rewrite andb_assoc.
Qed.


Lemma span_app p a b :
  all_chars p a = true -> stops p b -> span p (a +:+ b) = (a, b).
Proof.
  intros Ha Hb. induction a as [|c a IH].
  - rewrite append_nil_l. destruct b as [|c b]; [done|]. cbn in *. by rewrite Hb.
  - cbn in Ha. apply andb_true_iff in Ha as [Hc Ha].
    rewrite append_cons. cbn. by rewrite Hc, (IH Ha).
Qed.


Lemma is_space_not_word c : is_space c = true -> is_word c = false.
Proof. by destruct c as [[] [] [] [] [] [] [] []]. Qed.




Example extract_optional :
  extractFromPropertyText "closable?: InnerProps;"
  = Some (mkExtract "closable" " InnerProps" true).
Proof. reflexivity. Qed.

Example extract_readonly :
  extractFromPropertyText "readonly style : string"
  = Some (mkExtract "style" " string" false).
Proof. reflexivity. Qed.

Example extract_no_annotation : extractFromPropertyText "style;" = None.
Proof. reflexivity. Qed.


(** ** Property and function schemas *)

Section BuilderFacts.

Variable P : Program.
Variables format toSingleLine escape : string -> string.
Variable parseTokens : string -> list Token.
Variable printTokens : list Token -> string.

Local Abbreviation getPropertySchema' :=
  (getPropertySchema P format toSingleLine escape parseTokens printTokens).
Local Abbreviation collectProperties' :=
  (collectProperties format toSingleLine escape parseTokens printTokens P).
Local Abbreviation getFunctionSchema' :=
  (getFunctionSchema P format toSingleLine escape parseTokens printTokens).
Local Abbreviation getParameterSchema' :=
  (getParameterSchema P format toSingleLine escape parseTokens printTokens).
Local Abbreviation buildDeclaration' :=
  (buildDeclaration format toSingleLine escape parseTokens printTokens P).


Lemma no_description_tag tags :
  (forall tag, tag ∈ tags -> tag_name tag ∉ TAG_NAMES_FOR_DESCRIPTION) ->
  existsb isDescriptionTag tags = false.
Proof.
  intros H. induction tags as [|tag tags IH]; [done|]. cbn [existsb].
  rewrite IH by (intros t Ht; apply H; by right).
  unfold isDescriptionTag.
  rewrite bool_decide_eq_false_2 by (apply H; left).
  by rewrite andb_false_r.
Qed.

Lemma js_get_own {V : Type} (obj : gmap string V) key v :
  obj !! key = Some v -> js_get obj key = Own v.
Proof. intros H. unfold js_get. by rewrite H. Qed.

Lemma js_get_inherited {V : Type} (obj : gmap string V) key :
  obj !! key = None -> key ∈ OBJECT_PROTOTYPE_KEYS -> js_get obj key = Inherited.
Proof.
  intros H Hin. unfold js_get. by rewrite H, bool_decide_eq_true_2.
Qed.

Lemma js_get_missing {V : Type} (obj : gmap string V) key :
  obj !! key = None -> key ∉ OBJECT_PROTOTYPE_KEYS -> js_get obj key = Missing.
Proof.
  intros H Hin. unfold js_get. by rewrite H, bool_decide_eq_false_2.
Qed.

(** X19: the fallback of [getPropertySchema].  For a property that has
    a declaration of the expected shape and whose tags have neither [zh]
    nor [en], the answer comes from [defaultT[name]] alone, for any fuel
    and any link formatter and without touching the two accumulators.
    With an own entry under the property's name it is the property with
    that entry's type and tags.  Without one it is nothing, and the
    enclosing loop emits no property, if [Object.prototype] has no member
    of that name; if it has one, it is a property that has neither type
    nor tags. *)
Lemma getPropertySchema_default_fallback (fuel : nat) (sym : SymbolId)
    (defaultT : gmap string DefaultType) (strictComment : bool)
    (linkFormatter : LinkFormatter) (st : State)
    (declaration : NodeId) (extract : ExtractType) (tags : list TagType) :
  head (sym_declarations (symbols P sym)) = Some declaration ->
  extractFromPropertyText (node_text (nodes P declaration)) = Some extract ->
  getSymbolTags (symbols P sym) strictComment = Ret tags ->
  (forall tag, tag ∈ tags -> tag_name tag ∉ TAG_NAMES_FOR_DESCRIPTION) ->
  let name := sym_name (symbols P sym) in
  (forall d, defaultT !! name = Some d ->
     let property :=
       mkProperty name (Some (default_type d)) (ex_isOptional extract)
         (Some (default_tags d)) None in
     getPropertySchema' fuel sym defaultT strictComment linkFormatter st
     = Ret (Some property, st)
     /\ forall rest data,
          collectProperties' fuel defaultT strictComment linkFormatter
            (Some sym :: rest) data st
          = collectProperties' fuel defaultT strictComment linkFormatter
              rest (data ++ [property]) st)
  /\ (defaultT !! name = None -> name ∉ OBJECT_PROTOTYPE_KEYS ->
      getPropertySchema' fuel sym defaultT strictComment linkFormatter st
      = Ret (None, st)
      /\ forall rest data,
           collectProperties' fuel defaultT strictComment linkFormatter
             (Some sym :: rest) data st
           = collectProperties' fuel defaultT strictComment linkFormatter
               rest data st)
  /\ (defaultT !! name = None -> name ∈ OBJECT_PROTOTYPE_KEYS ->
      let property :=
        mkProperty name None (ex_isOptional extract) None None in
      getPropertySchema' fuel sym defaultT strictComment linkFormatter st
      = Ret (Some property, st)
      /\ forall rest data,
           collectProperties' fuel defaultT strictComment linkFormatter
             (Some sym :: rest) data st
           = collectProperties' fuel defaultT strictComment linkFormatter
               rest (data ++ [property]) st).
Proof.
  intros Hd He Ht Hn name.
  assert (getPropertySchema' fuel sym defaultT strictComment linkFormatter st
          = Ret (match js_get defaultT name with
                 | Own d =>
                     Some (mkProperty name (Some (default_type d))
                             (ex_isOptional extract) (Some (default_tags d))
                             None)
                 | Inherited =>
                     Some (mkProperty name None (ex_isOptional extract) None
                             None)
                 | Missing => None
                 end, st)) as E.
  { unfold getPropertySchema. rewrite Hd, He, Ht. cbn [mbind Outcome_bind].
    by rewrite (no_description_tag tags Hn). }
  split_and!.
  - intros d Hd'. rewrite (js_get_own _ _ _ Hd') in E. split; [done|].
    intros rest data. cbn [collectProperties]. by rewrite E.
  - intros Hd' Hk. rewrite (js_get_missing _ _ Hd' Hk) in E. split; [done|].
    intros rest data. cbn [collectProperties]. by rewrite E.
  - intros Hd' Hk. rewrite (js_get_inherited _ _ Hd' Hk) in E. split; [done|].
    intros rest data. cbn [collectProperties]. by rewrite E.
Qed.


Lemma bind_partial {A B : Type} (m : Outcome A) (f : A -> Outcome B)
    (Q : B -> Prop) :
  partial m (fun a => partial (f a) Q) -> partial (m ≫= f) Q.
Proof. by destruct m. Qed.

Lemma partial_mono {A : Type} (m : Outcome A) (Q Q' : A -> Prop) :
  partial m Q -> (forall a, Q a -> Q' a) -> partial m Q'.
Proof. destruct m; cbn; auto. Qed.

Lemma bind_fuel {A B : Type} (m : Outcome A) (f : A -> Outcome B) :
  m <> OutOfFuel -> (forall a, f a <> OutOfFuel) -> m ≫= f <> OutOfFuel.
Proof. destruct m; cbn; auto. Qed.

Lemma forEach_fuel {A S : Type} (l : list A) (f : A -> S -> Outcome S) (s : S) :
  (forall x s, f x s <> OutOfFuel) -> forEach l f s <> OutOfFuel.
Proof.
  intros Hf. revert s. induction l as [|x l IH]; intros s; [done|].
  cbn [forEach]. by apply bind_fuel.
Qed.

(** A property of the accumulators that the resolver keeps is kept by
    every function that calls it. *)
Section StateInvariant.

Variable I : State -> Prop.
Variable fuel : nat.
Hypothesis dump_keeps :
  forall declaration st,
    I st -> partial (dumpNestedTypes P format fuel declaration st) I.

Lemma getPropertySchema_keeps sym defaultT strict lf st :
  I st ->
  partial (getPropertySchema' fuel sym defaultT strict lf st) (fun r => I r.2).
Proof.
  intros Hst. unfold getPropertySchema.
  destruct (head _) as [declaration|]; [|done].
  destruct (extractFromPropertyText _) as [extract|]; [|done].
  apply bind_partial. destruct (getSymbolTags _ _) as [tags| |]; [|done..].
  cbn [partial]. destruct (existsb _ _); [|done].
  apply bind_partial. eapply partial_mono; [by apply dump_keeps|]. done.
Qed.

Lemma collectProperties_keeps defaultT strict lf properties data st :
  I st ->
  partial (collectProperties' fuel defaultT strict lf properties data st)
    (fun r => I r.2).
Proof.
  revert data st. induction properties as [|a l IH]; intros data st Hst; [done|].
  cbn [collectProperties]. destruct a as [sym|]; [|done].
  apply bind_partial.
  eapply partial_mono; [by apply getPropertySchema_keeps|].
  intros [schema st'] Hst'. by apply IH.
Qed.

Lemma getParameterSchema_keeps strict lf para st :
  I st ->
  partial (getParameterSchema' fuel strict lf para st) (fun r => I r.2).
Proof.
  intros Hst. unfold getParameterSchema. apply bind_partial.
  eapply partial_mono; [by apply dump_keeps|]. intros st' Hst'.
  destruct (node_symbol _); [|done]. apply bind_partial.
  by destruct (getSymbolTags _ _).
Qed.

Lemma mapState_keeps {A B : Type} (f : A -> State -> Outcome (B * State))
    (l : list A) (st : State) :
  (forall x st, I st -> partial (f x st) (fun r => I r.2)) ->
  I st -> partial (mapState f l st) (fun r => I r.2).
Proof.
  intros Hf. revert st. induction l as [|x l IH]; intros st Hst; [done|].
  cbn [mapState]. apply bind_partial.
  eapply partial_mono; [by apply Hf|]. intros [y s1] Hs1.
  apply bind_partial. eapply partial_mono; [by apply IH|]. by intros [ys s2].
Qed.

Lemma getFunctionSchema_keeps declaration strict lf st :
  I st ->
  partial (getFunctionSchema' fuel declaration strict lf st) (fun r => I r.2).
Proof.
  intros Hst. unfold getFunctionSchema. apply bind_partial.
  eapply partial_mono.
  - apply mapState_keeps; [|done]. intros. by apply getParameterSchema_keeps.
  - by intros [params st'].
Qed.

Lemma buildDeclaration_keeps defaultT strict sorter lf declaration b :
  I (build_state b) ->
  partial (buildDeclaration' fuel defaultT strict sorter lf declaration b)
    (fun b' => I (build_state b')).
Proof.
  intros Hb. unfold buildDeclaration.
  destruct (node_jsDocs _) as [jsDocs|]; [|done].
  destruct (getDeclarationTags jsDocs) as [title tags].
  destruct (negb (truthy title)); [done|].
  apply bind_partial.
  destruct (functionNodeOf P declaration) as [fn|].
  - apply bind_partial. eapply partial_mono; [by apply getFunctionSchema_keeps|].
    by intros [[params returns] st'].
  - destruct (_ && _).
    + destruct (node_properties _); [|done]. apply bind_partial.
      eapply partial_mono; [by apply collectProperties_keeps|]. by intros [? ?].
    + apply bind_partial.
      eapply partial_mono; [by apply collectProperties_keeps|]. by intros [? ?].
Qed.

End StateInvariant.

Lemma getSymbolTags_fuel sym strict : getSymbolTags sym strict <> OutOfFuel.
Proof.
  unfold getSymbolTags.
  assert (forall l, mapM (fun tag => value ← tagInfoValue tag;
                                     mret (mkTag (info_name tag) value)) l
                    <> OutOfFuel) as Hm.
  { induction l as [|t l IHl]; [done|]. cbn.
    destruct (tagInfoValue t) eqn:Et; cbn; try done.
    - destruct (mapM _ l); done.
    - unfold tagInfoValue in Et. by destruct (info_text t) as [[|]|]. }
  specialize (Hm (sym_jsDocTags sym)).
  destruct (mapM _ _); cbn; [|done..].
  destruct (negb strict); [|done]. destruct (head _); [|done].
  by destruct (_ && _).
Qed.

(** Where the resolver does not run out of fuel, nothing does. *)
Section Fuel.

Variable fuel : nat.
Hypothesis dump_fuel :
  forall declaration st,
    dumpNestedTypes P format fuel declaration st <> OutOfFuel.

Lemma getPropertySchema_fuel sym defaultT strict lf st :
  getPropertySchema' fuel sym defaultT strict lf st <> OutOfFuel.
Proof.
  unfold getPropertySchema.
  destruct (head _) as [declaration|]; [|done].
  destruct (extractFromPropertyText _) as [extract|]; [|done].
  apply bind_fuel; [apply getSymbolTags_fuel|]. intros tags.
  destruct (existsb _ _); [|done]. by apply bind_fuel.
Qed.

Lemma collectProperties_fuel defaultT strict lf properties data st :
  collectProperties' fuel defaultT strict lf properties data st <> OutOfFuel.
Proof.
  revert data st. induction properties as [|a l IH]; intros data st; [done|].
  cbn [collectProperties]. destruct a as [sym|]; [|done].
  apply bind_fuel; [apply getPropertySchema_fuel|]. by intros [schema st'].
Qed.

Lemma getParameterSchema_fuel strict lf para st :
  getParameterSchema' fuel strict lf para st <> OutOfFuel.
Proof.
  unfold getParameterSchema. apply bind_fuel; [done|]. intros st'.
  destruct (node_symbol _); [|done].
  apply bind_fuel; [apply getSymbolTags_fuel|done].
Qed.

Lemma mapState_fuel {A B : Type} (f : A -> State -> Outcome (B * State))
    (l : list A) (st : State) :
  (forall x st, f x st <> OutOfFuel) -> mapState f l st <> OutOfFuel.
Proof.
  intros Hf. revert st. induction l as [|x l IH]; intros st; [done|].
  cbn [mapState]. apply bind_fuel; [done|]. intros [y s1].
  apply bind_fuel; [done|]. by intros [ys s2].
Qed.

Lemma getFunctionSchema_fuel declaration strict lf st :
  getFunctionSchema' fuel declaration strict lf st <> OutOfFuel.
Proof.
  unfold getFunctionSchema. apply bind_fuel.
  - apply mapState_fuel. intros. apply getParameterSchema_fuel.
  - by intros [params st'].
Qed.

Lemma buildDeclaration_fuel defaultT strict sorter lf declaration b :
  buildDeclaration' fuel defaultT strict sorter lf declaration b <> OutOfFuel.
Proof.
  unfold buildDeclaration.
  destruct (node_jsDocs _) as [jsDocs|]; [|done].
  destruct (getDeclarationTags jsDocs) as [title tags].
  destruct (negb (truthy title)); [done|].
  apply bind_fuel; [|by intros [schema st']].
  destruct (functionNodeOf P declaration) as [fn|].
  - apply bind_fuel; [apply getFunctionSchema_fuel|].
    by intros [[params returns] st'].
  - destruct (_ && _).
    + destruct (node_properties _); [|done].
      apply bind_fuel; [apply collectProperties_fuel|]. by intros [? ?].
    + apply bind_fuel; [apply collectProperties_fuel|]. by intros [? ?].
Qed.

End Fuel.

Lemma applySorter_function sorter tags params returns :
  exists params',
    applySorter sorter (FunctionSchema tags params returns)
    = FunctionSchema tags params' returns.
Proof. destruct sorter; cbn; eauto. Qed.

Lemma applySorter_interface sorter tags data :
  exists data',
    applySorter sorter (InterfaceSchema tags data) = InterfaceSchema tags data'.
Proof. destruct sorter; cbn; eauto. Qed.

(** What one turn of the loop of [generateSchema] does to the list and
    to the map. *)
Lemma buildDeclaration_Ret fuel defaultT strict sorter lf declaration b b' :
  buildDeclaration' fuel defaultT strict sorter lf declaration b = Ret b' ->
  (~ hasTitle P declaration /\ b' = b)
  \/ (hasTitle P declaration
      /\ exists schema st',
           b' = mkBuild
                  (schemaList b ++ [mkEntry (titleOf P declaration) schema])
                  (js_set (titleOf P declaration) schema (schemaMap b)) st'
           /\ ~ isNestedEntry (mkEntry (titleOf P declaration) schema)
           /\ forall fn,
                functionNodeOf P declaration = Some fn ->
                exists tags params,
                  schema
                  = FunctionSchema tags params
                      (type_text (types P (node_returnType (nodes P fn))))).
Proof.
  unfold buildDeclaration, hasTitle, titleOf, jsDocTitleOf.
  cbn [mbind option_bind].
  destruct (node_jsDocs _) as [jsDocs|]; [|done]. cbn [mbind option_bind].
  destruct (getDeclarationTags jsDocs) as [title tags]. cbn [fst].
  destruct (truthy title) eqn:Ht; cbn [negb].
  2:{ intros [= <-]. left. split; [by intros ?|done]. }
  intros H. right. split; [done|].
  destruct (functionNodeOf P declaration) as [fn|].
  - destruct (getFunctionSchema' _ _ _ _ _) as [[[params returns] st']| |] eqn:E;
      cbn in H; [|done..].
    injection H as <-.
    destruct (applySorter_function sorter tags params returns) as [params' ->].
    exists (FunctionSchema tags params' returns), st'.
    split_and!; [done|cbn; tauto|].
    intros fn' [= <-]. exists tags, params'. f_equal.
    unfold getFunctionSchema in E.
    destruct (mapState _ _ _) as [[? ?]| |]; cbn in E; [|done..].
    by injection E as _ <- _.
  - assert (forall data st',
              Ret (InterfaceSchema tags data, st')
              ≫= (fun '(schema, st') =>
                    Ret (mkBuild
                           (schemaList b
                              ++ [mkEntry (orEmpty title) (applySorter sorter schema)])
                           (js_set (orEmpty title) (applySorter sorter schema)
                              (schemaMap b)) st')) = Ret b' ->
              exists schema st'0,
                b' = mkBuild (schemaList b ++ [mkEntry (orEmpty title) schema])
                       (js_set (orEmpty title) schema (schemaMap b)) st'0
                /\ ~ isNestedEntry (mkEntry (orEmpty title) schema)
                /\ forall fn : NodeId, None = Some fn ->
                     exists tags0 params,
                       schema = FunctionSchema tags0 params
                                  (type_text (types P (node_returnType (nodes P fn)))))
      as Hi.
    { intros data st' [= <-].
      destruct (applySorter_interface sorter tags data) as [data' ->].
      exists (InterfaceSchema tags data'), st'.
      split_and!; [done|cbn; tauto|done]. }
    destruct (_ && _).
    + destruct (node_properties _); [|done].
      destruct (collectProperties' _ _ _ _ _ _ _) as [[data st']| |];
        cbn in H; [|done..].
      by apply (Hi data st').
    + destruct (collectProperties' _ _ _ _ _ _ _) as [[data st']| |];
        cbn in H; [|done..].
      by apply (Hi data st').
Qed.

(** C10: the [returns] of the schema of a function-shaped declaration is
    the text that the type checker gives for the return type of its
    function node, as it is: whatever the link formatter, [toSingleLine],
    [escape] and the scratch parse do to the parameter types, and
    whatever the property sorter is. *)
Theorem function_returns_raw_text (fuel : nat)
    (defaultT : gmap string DefaultType) (strictComment : bool)
    (propertySorter : option (PropertyType -> PropertyType -> Z))
    (linkFormatter : LinkFormatter) (declaration fn : NodeId) (b b' : Build) :
  functionNodeOf P declaration = Some fn ->
  hasTitle P declaration ->
  buildDeclaration' fuel defaultT strictComment propertySorter linkFormatter
    declaration b = Ret b' ->
  exists tags params,
    last (schemaList b')
    = Some (mkEntry (titleOf P declaration)
              (FunctionSchema tags params
                 (type_text (types P (node_returnType (nodes P fn)))))).
Proof.
  intros Hfn Ht H.
  apply buildDeclaration_Ret in H as [[Hn _]|(_ & schema & st' & -> & _ & Hf)];
    [done|].
  destruct (Hf fn Hfn) as (tags & params & ->).
  exists tags, params. cbn [schemaList]. by rewrite last_snoc.
Qed.

End BuilderFacts.

(** ** Sorting by start line *)

Section Sorting.

Context {A : Type} (key : A -> Z).

Local Abbreviation compare := (compareKey key).



Lemma sort_insert_sorted x l :
  Sorted (fun a b => (key a <= key b)%Z) l ->
  Sorted (fun a b => (key a <= key b)%Z) (sort_insert compare x l).
Proof.
  induction 1 as [|y l Hl IH Hhd]; cbn [sort_insert].
  - repeat constructor.
  - unfold compareKey at 1. destruct (Z.ltb_spec 0 (key x - key y)) as [Hlt|Hge].
    + constructor; [done|].
      destruct Hhd as [|z l Hz]; cbn [sort_insert].
      * constructor. lia.
      * unfold compareKey. destruct (0 <? key x - key z)%Z; constructor; [done|lia].
    + constructor; [by constructor|]. constructor. lia.
Qed.

Lemma js_sort_sorted l :
  Sorted (fun a b => (key a <= key b)%Z) (js_sort compare l).
Proof.
  induction l as [|x l IH]; [constructor|]. unfold js_sort in *. cbn [foldr].
  by apply sort_insert_sorted.
Qed.



End Sorting.

(** ** Assembler *)

Lemma dumpNestedTypes_inv (P : Program) (format : string -> string)
    (I : State -> Prop) :
  (forall nl set d,
     I (mkState nl set) -> titled P d ->
     I (mkState nl (set_add (node_type (nodes P d)) set))) ->
  (forall nl set t,
     I (mkState nl set) -> t ∉ set -> isExternal P t = false ->
     I (mkState (nl ++ [entryOfType P format t]) (set_add t set))) ->
  forall fuel declaration st,
    I st -> partial (dumpNestedTypes P format fuel declaration st) I.
Proof.
  intros Ht Ha fuel declaration st Hst.
  rewrite <- (dumpNestedTypes_traced_erase P format fuel declaration st []).
  assert (partial (dumpNestedTypes_traced P format fuel declaration (st, []))
            (fun s' => (fun s => I s.1) s' /\ (st, @nil Event).2 `prefix_of` s'.2))
    as H.
  { apply (dumpNestedTypes_traced_inv P format (fun s => I s.1)); cbn [fst];
      [by auto|by auto|by auto|done]. }
  destruct (dumpNestedTypes_traced _ _ _ _ _) as [[st' tr']| |]; cbn in *;
    [|done..].
  by destruct H.
Qed.

Lemma dumpNestedTypes_keeps_nested (P : Program) (format : string -> string)
    fuel declaration st :
  Forall isNestedEntry (nestedTypeList st) ->
  partial (dumpNestedTypes P format fuel declaration st)
    (fun st' => Forall isNestedEntry (nestedTypeList st')).
Proof.
  apply (dumpNestedTypes_inv P format
           (fun st => Forall isNestedEntry (nestedTypeList st))).
  - done.
  - intros nl set t Hnl _ _. cbn [nestedTypeList] in *.
    apply Forall_app. split; [done|]. by constructor.
Qed.

Lemma lastWithTitle_app title l1 l2 :
  lastWithTitle title (l1 ++ l2)
  = match lastWithTitle title l2 with
    | Some s => Some s
    | None => lastWithTitle title l1
    end.
Proof.
  unfold lastWithTitle. rewrite filter_app.
  destruct (filter _ l2) as [|e l _] using rev_ind.
  - by rewrite (right_id_L [] (++)).
  - by rewrite app_assoc, !last_snoc.
Qed.

Lemma lastWithTitle_singleton title e :
  lastWithTitle title [e]
  = if decide (entry_title e = title) then Some (entry_schema e) else None.
Proof.
  unfold lastWithTitle. rewrite filter_cons, filter_nil. by case_decide.
Qed.

Lemma storable_app l1 l2 : storable (l1 ++ l2) = storable l1 ++ storable l2.
Proof. apply filter_app. Qed.

Lemma lastWithTitle_storable title l :
  title <> "__proto__" -> lastWithTitle title (storable l) = lastWithTitle title l.
Proof.
  intros Hne. unfold lastWithTitle, storable. f_equal. f_equal.
  induction l as [|e l IH]; [done|]. rewrite !(filter_cons _ e).
  destruct (decide (entry_title e = title)) as [He|He].
  - rewrite decide_True by congruence. rewrite filter_cons_True by done.
    by rewrite IH.
  - destruct (decide (entry_title e <> "__proto__")); [|done].
    by rewrite filter_cons_False.
Qed.

Lemma lastWithTitle_storable_proto l :
  lastWithTitle "__proto__" (storable l) = None.
Proof.
  unfold lastWithTitle, storable.
  assert (filter (fun e => entry_title e = "__proto__")
            (filter (fun e => entry_title e <> "__proto__") l) = []) as ->;
    [|done].
  induction l as [|e l IH]; [done|]. rewrite (filter_cons _ e).
  destruct (decide (entry_title e <> "__proto__")); [|done].
  by rewrite filter_cons_False.
Qed.

(** A write into a dictionary, as a lookup sees it. *)
Lemma js_set_lookup key (schema : Schema) (obj : gmap string Schema) title :
  js_set key schema obj !! title
  = match lastWithTitle title (storable [mkEntry key schema]) with
    | Some s => Some s
    | None => obj !! title
    end.
Proof.
  unfold js_set, storable. rewrite filter_cons, filter_nil. cbn [entry_title].
  case_bool_decide as Hk.
  - by rewrite decide_False by (by intros ?).
  - rewrite decide_True by done. rewrite lastWithTitle_singleton.
    cbn [entry_title entry_schema]. rewrite lookup_insert. by case_decide.
Qed.

Lemma nestedMap_lookup nl title :
  nestedMap nl !! title = lastWithTitle title (storable nl).
Proof.
  unfold nestedMap.
  assert (forall m : gmap string Schema,
            fold_left (fun result item =>
                         js_set (entry_title item) (entry_schema item) result)
              nl m
            !! title
            = match lastWithTitle title (storable nl) with
              | Some s => Some s
              | None => m !! title
              end) as H.
  { induction nl as [|e nl IH] using rev_ind; intros m; [done|].
    rewrite fold_left_app, storable_app, lastWithTitle_app.
    cbn [fold_left]. rewrite js_set_lookup. destruct e as [k v].
    cbn [entry_title entry_schema].
    destruct (lastWithTitle title (storable [mkEntry k v])); [done|].
    apply IH. }
  rewrite H. by destruct (lastWithTitle title (storable nl)).
Qed.

Section AssemblerFacts.

Variables format toSingleLine escape : string -> string.
Variable parseTokens : string -> list Token.
Variable printTokens : list Token -> string.
Variable defaultTypeMap : gmap string DefaultType.
Variable defaultLinkFormatter : LinkFormatter.

Local Abbreviation generateSchema' :=
  (generateSchema format toSingleLine escape parseTokens printTokens
     defaultTypeMap defaultLinkFormatter).
Local Abbreviation buildAll' :=
  (buildAll format toSingleLine escape parseTokens printTokens
     defaultTypeMap defaultLinkFormatter).
Local Abbreviation buildDeclaration' :=
  (buildDeclaration format toSingleLine escape parseTokens printTokens).

Lemma generateSchema_Ret fuel P sourceFile config out :
  generateSchema' fuel P sourceFile config = Ret out ->
  exists b,
    buildAll' fuel P sourceFile config = Ret b
    /\ out
       = if from_option cfg_strictDeclarationOrder false config
         then OutputList (schemaList b ++ nestedTypeList (build_state b))
         else OutputMap (nestedMap (nestedTypeList (build_state b))
                           ∪ schemaMap b).
Proof.
  unfold generateSchema, buildAll.
  destruct (forEach _ _ _) as [b| |]; cbn [mbind Outcome_bind]; [|done..].
  intros H. exists b. split; [done|]. revert H.
  destruct (nestedTypeList (build_state b)) as [|e nl];
    cbn [length Nat.ltb Nat.leb]; intros [= <-]; [|done].
  rewrite (right_id_L [] (++)).
  change (nestedMap []) with (∅ : gmap string Schema).
  by rewrite (left_id_L ∅ (∪)).
Qed.

Lemma generateSchema_of_buildAll fuel P sourceFile config b :
  buildAll' fuel P sourceFile config = Ret b ->
  generateSchema' fuel P sourceFile config
  = Ret (if from_option cfg_strictDeclarationOrder false config
         then OutputList (schemaList b ++ nestedTypeList (build_state b))
         else OutputMap (nestedMap (nestedTypeList (build_state b))
                           ∪ schemaMap b)).
Proof.
  intros Hb. unfold generateSchema. unfold buildAll in Hb. rewrite Hb.
  cbn [mbind Outcome_bind].
  destruct (nestedTypeList (build_state b)) as [|e nl];
    cbn [length Nat.ltb Nat.leb]; [|done].
  rewrite (right_id_L [] (++)).
  change (nestedMap []) with (∅ : gmap string Schema).
  by rewrite (left_id_L ∅ (∪)).
Qed.

Lemma buildAll_withStrictOrder strict fuel P sourceFile config :
  buildAll' fuel P sourceFile (withStrictOrder strict config)
  = buildAll' fuel P sourceFile config.
Proof. unfold buildAll, withStrictOrder. by destruct config. Qed.

(** The loop of [generateSchema], from any accumulators: the entries it
    appends are those of the titled declarations, in the order of the
    loop, none of them a nested-type entry, and the map is the old map
    overwritten by those of these entries that a dictionary takes up,
    later over earlier. *)
Lemma forEach_buildDeclaration P fuel defaultT strict sorter lf ds b b' :
  forEach ds (buildDeclaration' P fuel defaultT strict sorter lf) b = Ret b' ->
  exists top,
    schemaList b' = schemaList b ++ top
    /\ entry_title <$> top = titleOf P <$> filter (hasTitle P) ds
    /\ Forall (fun e => ~ isNestedEntry e) top
    /\ forall title,
         schemaMap b' !! title
         = match lastWithTitle title (storable top) with
           | Some s => Some s
           | None => schemaMap b !! title
           end.
Proof.
  revert b. induction ds as [|d ds IH]; intros b.
  - intros [= <-]. exists []. by rewrite (right_id_L [] (++)).
  - cbn [forEach].
    destruct (buildDeclaration' _ _ _ _ _ _ d b) as [b1| |] eqn:E;
      cbn [mbind Outcome_bind]; [|done..].
    intros H. destruct (IH b1 H) as (top & Hl & Ht & Hn & Hm).
    apply buildDeclaration_Ret in E
      as [[Hno ->]|(Hyes & schema & st1 & -> & Hns & _)].
    + exists top. by rewrite filter_cons_False.
    + exists (mkEntry (titleOf P d) schema :: top).
      cbn [schemaList schemaMap] in *. split_and!.
      * by rewrite Hl, <- app_assoc.
      * rewrite filter_cons_True by done. cbn. by rewrite Ht.
      * by constructor.
      * intros title. rewrite Hm.
        change (mkEntry (titleOf P d) schema :: top)
          with ([mkEntry (titleOf P d) schema] ++ top).
        rewrite storable_app, lastWithTitle_app.
        destruct (lastWithTitle title (storable top)); [done|].
        apply js_set_lookup.
Qed.

Lemma lastWithTitle_last l1 e l2 :
  (forall e', e' ∈ l2 -> entry_title e' <> entry_title e) ->
  lastWithTitle (entry_title e) (l1 ++ e :: l2) = Some (entry_schema e).
Proof.
  intros Hl2.
  change (e :: l2) with ([e] ++ l2). rewrite !lastWithTitle_app.
  assert (lastWithTitle (entry_title e) l2 = None) as ->.
  { unfold lastWithTitle.
    assert (filter (fun e' => entry_title e' = entry_title e) l2 = []) as ->;
      [|done].
    induction l2 as [|e' l2 IH]; [done|].
    rewrite filter_cons_False by (apply Hl2; left).
    apply IH. intros e0 He0. apply Hl2. by right. }
  rewrite lastWithTitle_singleton. by case_decide.
Qed.

(** X18: in map mode the map holds, under each title other than
    [__proto__], the schema of the last entry of that title in the list that
    strict-order mode returns for the same input (the top-level entries
    in the order of the loop, then the nested-type entries): of two
    entries of one such title the later is the one in the map.  Under
    [__proto__] the map holds nothing, whatever the entries are. *)
Lemma generateSchema_map_last_wins (fuel : nat) (P : Program)
    (sourceFile : SourceFile) (config : option GenerateConfig)
    (map : gmap string Schema) :
  from_option cfg_strictDeclarationOrder false config = false ->
  generateSchema' fuel P sourceFile config = Ret (OutputMap map) ->
  exists list,
    generateSchema' fuel P sourceFile (withStrictOrder true config)
    = Ret (OutputList list)
    /\ (forall title,
          title <> "__proto__" -> map !! title = lastWithTitle title list)
    /\ map !! "__proto__" = None
    /\ forall l1 e l2,
         list = l1 ++ e :: l2 ->
         entry_title e <> "__proto__" ->
         (forall e', e' ∈ l2 -> entry_title e' <> entry_title e) ->
         map !! entry_title e = Some (entry_schema e).
Proof.
  intros Hstrict H.
  apply generateSchema_Ret in H as (b & Hb & Hout). rewrite Hstrict in Hout.
  injection Hout as ->.
  exists (schemaList b ++ nestedTypeList (build_state b)).
  assert (forall title,
            (nestedMap (nestedTypeList (build_state b)) ∪ schemaMap b) !! title
            = lastWithTitle title
                (storable (schemaList b ++ nestedTypeList (build_state b))))
    as Hlookup.
  { intros title.
    apply forEach_buildDeclaration in Hb as (top & Hl & _ & _ & Hm).
    cbn [schemaList schemaMap app] in *. subst top.
    rewrite lookup_union, nestedMap_lookup, storable_app, lastWithTitle_app,
      Hm, lookup_empty.
    by destruct (lastWithTitle title (storable (nestedTypeList _))),
                (lastWithTitle title (storable (schemaList b))). }
  split_and!.
  - rewrite (generateSchema_of_buildAll fuel P sourceFile _ b).
    + done.
    + by rewrite buildAll_withStrictOrder.
  - intros title Hne. by rewrite Hlookup, lastWithTitle_storable.
  - by rewrite Hlookup, lastWithTitle_storable_proto.
  - intros l1 e l2 Hl Hne Hl2.
    rewrite Hlookup, lastWithTitle_storable, Hl by done.
    by apply lastWithTitle_last.
Qed.


End AssemblerFacts.

(** ** One entry for a type *)

Lemma dumpNestedTypes_keeps_once (P : Program) (format : string -> string)
    fuel declaration st :
  nested_once P format st ->
  partial (dumpNestedTypes P format fuel declaration st) (nested_once P format).
Proof.
  apply (dumpNestedTypes_inv P format (nested_once P format)).
  - intros nl set d (ts & Hnl & Hnd & Hin) _. exists ts.
    cbn [nestedTypeList parsedNestedTypes] in *. split_and!; [done..|].
    etrans; [done|]. apply set_add_incl.
  - intros nl set t (ts & Hnl & Hnd & Hin) Hfresh _. exists (ts ++ [t]).
    cbn [nestedTypeList parsedNestedTypes] in *. split_and!.
    + by rewrite Hnl, fmap_app.
    + apply NoDup_app. split_and!; [done| |apply NoDup_singleton].
      intros x Hx Hx'. apply list_elem_of_singleton in Hx' as ->.
      by apply Hfresh, Hin.
    + intros x [Hx|Hx]%elem_of_app.
      * by apply set_add_incl, Hin.
      * apply list_elem_of_singleton in Hx as ->. apply set_add_elem.
Qed.

(** In one run of [generateSchema] no type has two nested-type entries. *)
Lemma buildAll_nested_once format toSingleLine escape parseTokens printTokens
    defaultTypeMap defaultLinkFormatter fuel P sourceFile config b :
  buildAll format toSingleLine escape parseTokens printTokens defaultTypeMap
    defaultLinkFormatter fuel P sourceFile config = Ret b ->
  nested_once P format (build_state b).
Proof.
  unfold buildAll. intros Hb.
  match type of Hb with
  | ?o = _ =>
      assert (partial o (fun b => nested_once P format (build_state b))) as Hk
  end.
  { apply (forEach_partial (fun b => nested_once P format (build_state b))).
    - exists []. by split_and!; [|constructor|].
    - intros d b0 _ Hb0.
      apply (buildDeclaration_keeps P format toSingleLine escape parseTokens
               printTokens (nested_once P format)); [|done].
      intros. by apply dumpNestedTypes_keeps_once. }
  by rewrite Hb in Hk.
Qed.

(** C1: on a finite type graph the resolver ends: with more fuel than
    there are types of the graph outside the visited set it does not run
    out of fuel, and it returns where every interface type has its
    declaration.  When it returns, the types it added form a
    duplicate-free list, each of them was outside the visited set before
    and is inside after, every recursive call made for a type comes after
    the addition of that type, the visited set has no duplicates, and the
    entries appended to the nested-type list are, one for one, the
    entries of the added types.  If, before the call, the nested-type
    list held one entry for each type of a duplicate-free list of visited
    types, it does so after the call; hence a whole run of
    [generateSchema] gives no type two entries ([buildAll_nested_once]). *)
Theorem dumpNestedTypes_terminates_once (P : Program) (format : string -> string)
    (U : list TypeId) (declaration : option NodeId) (st : State) (fuel : nat) :
  finite_graph P U ->
  NoDup (parsedNestedTypes st) ->
  unvisited U (parsedNestedTypes st) < fuel ->
  dumpNestedTypes P format fuel declaration st <> OutOfFuel
  /\ (interfaces_declared P ->
      exists st', dumpNestedTypes P format fuel declaration st = Ret st')
  /\ forall st',
       dumpNestedTypes P format fuel declaration st = Ret st' ->
       exists tr,
         dumpNestedTypes_traced P format fuel declaration (st, []) = Ret (st', tr)
         /\ NoDup (added tr)
         /\ (forall t, t ∈ added tr ->
               (t ∉ parsedNestedTypes st) /\ t ∈ parsedNestedTypes st')
         /\ added_before_recursion tr
         /\ NoDup (parsedNestedTypes st')
         /\ nestedTypeList st'
            = nestedTypeList st ++ (entryOfType P format <$> added tr)
         /\ (nested_once P format st -> nested_once P format st').
Proof.
  intros HU Hnd Hfuel.
  pose proof (dumpNestedTypes_halts P format U HU fuel declaration st Hfuel) as Hh.
  split_and!.
  - intros E. by rewrite E in Hh.
  - intros HI.
    pose proof (dumpNestedTypes_no_TypeError P format HI fuel declaration st).
    destruct (dumpNestedTypes P format fuel declaration st); [eauto|done..].
  - intros st' Hret.
    destruct (dumpNestedTypes_traced_of P format fuel declaration st [] st' Hret)
      as [tr Htr].
    exists tr. split; [done|].
    assert (resolver_inv P format st (st, [])) as Hinv.
    { unfold resolver_inv. cbn. split_and!; try done.
      - intros pre t d post E. by destruct pre.
      - constructor.
      - intros t Ht. by apply elem_of_nil in Ht.
      - by rewrite (right_id_L [] (++)). }
    pose proof (resolver_inv_kept P format st fuel declaration _ Hinv) as Hk.
    rewrite Htr in Hk. cbn in Hk.
    destruct Hk as (H1 & H2 & H3 & H4 & H5 & H6). split_and!; try done.
    intros Honce.
    pose proof (dumpNestedTypes_keeps_once P format fuel declaration st Honce)
      as Ho.
    by rewrite Hret in Ho.
Qed.

Lemma Cyclic_finite : finite_graph Cyclic.cyclic_program [1; 2].
Proof.
  intros n d Hd.
  do 6 (try destruct n as [|n]); cbn in Hd;
    repeat (apply elem_of_cons in Hd as [->|Hd]);
    try (by apply elem_of_nil in Hd); cbn;
    repeat first [by left | right].
Qed.

Lemma Cyclic_interfaces_declared : interfaces_declared Cyclic.cyclic_program.
Proof.
  intros t Ht. do 3 (try destruct t as [|t]); try done; cbn; eauto.
Qed.

(** The mutually referential [A] and [B]: the extraction completes and
    each of them has one entry. *)
Example Cyclic_dump :
  dumpNestedTypes Cyclic.cyclic_program Cyclic.cyclic_format 3 (Some 1) (mkState [] [])
  = Ret (mkState
           [mkEntry "A" (NestedTypeSchema [mkTag "title" "A"] "interface A { b: B; }");
            mkEntry "B" (NestedTypeSchema [mkTag "title" "B"] "interface B { a: A; }")]
           [1; 2]).
Proof. vm_compute. reflexivity. Qed.

Lemma dumpNestedTypes_terminates_once_witness :
  finite_graph Cyclic.cyclic_program [1; 2]
  /\ dumpNestedTypes Cyclic.cyclic_program Cyclic.cyclic_format 3 (Some 1) (mkState [] [])
     <> OutOfFuel
  /\ exists st',
       dumpNestedTypes Cyclic.cyclic_program Cyclic.cyclic_format 3 (Some 1) (mkState [] [])
       = Ret st'.
Proof.
  split; [exact Cyclic_finite|].
  destruct (dumpNestedTypes_terminates_once Cyclic.cyclic_program Cyclic.cyclic_format
              [1; 2] (Some 1) (mkState [] []) 3)
    as (H1 & H2 & _).
  - exact Cyclic_finite.
  - constructor.
  - vm_compute. lia.
  - split; [exact H1|]. apply H2, Cyclic_interfaces_declared.
Defined.

(** ** [generate] *)

Section GenerateFacts.

Variables format toSingleLine escape : string -> string.
Variable parseTokens : string -> list Token.
Variable printTokens : list Token -> string.
Variable defaultTypeMap : gmap string DefaultType.
Variable defaultLinkFormatter : LinkFormatter.
Variable internalProject : Project.
Variable addSourceFilesAtPaths : Project -> list string -> Project.

Local Abbreviation generate' :=
  (generate format toSingleLine escape parseTokens printTokens defaultTypeMap
     defaultLinkFormatter internalProject addSourceFilesAtPaths).
Local Abbreviation projectOf' :=
  (projectOf internalProject addSourceFilesAtPaths).

(** An entry file that the project does not hold: [undefined], for any
    fuel, and no error. *)
Lemma generate_absent fuel file config :
  proj_sourceFiles (projectOf' config) !! file = None ->
  generate' fuel file config = Ret None.
Proof. intros H. unfold generate. by rewrite H. Qed.

(** An entry file that the project holds: never [undefined]; what is
    returned is a list or a map. *)
Lemma generate_present fuel file config sourceFile :
  proj_sourceFiles (projectOf' config) !! file = Some sourceFile ->
  generate' fuel file config <> Ret None
  /\ forall out,
       generate' fuel file config = Ret out ->
       exists schema,
         out = Some schema
         /\ generateSchema format toSingleLine escape parseTokens printTokens
              defaultTypeMap defaultLinkFormatter fuel
              (proj_program (projectOf' config)) sourceFile config
            = Ret schema.
Proof.
  intros H. unfold generate. rewrite H.
  destruct (generateSchema _ _ _ _ _ _ _ _ _ _ _) as [schema| |]; cbn;
    split; try done.
  intros out [= <-]. eauto.
Qed.

(** On a finite type graph, fuel above the number of its types is
    enough for the whole of [generate]. *)
Lemma generate_fuel fuel file config U :
  finite_graph (proj_program (projectOf' config)) U ->
  length U < fuel ->
  generate' fuel file config <> OutOfFuel.
Proof.
  intros HU Hfuel. unfold generate.
  destruct (_ !! file) as [sourceFile|]; [|done].
  apply bind_fuel; [|done]. unfold generateSchema.
  apply bind_fuel.
  - apply forEach_fuel. intros d b. apply buildDeclaration_fuel.
    intros declaration st E.
    pose proof (dumpNestedTypes_halts _ format U HU fuel declaration st) as Hh.
    rewrite E in Hh. apply Hh.
    unfold unvisited.
    pose proof (length_filter
                  (fun t => set_has t (parsedNestedTypes st) = false) U).
    lia.
  - intros b. by destruct (_ <? _).
Qed.

(** Together: for an entry file of the project, on a finite type graph
    and with that fuel, [generate] returns a schema or raises. *)
Lemma generate_present_outcome fuel file config sourceFile U :
  proj_sourceFiles (projectOf' config) !! file = Some sourceFile ->
  finite_graph (proj_program (projectOf' config)) U ->
  length U < fuel ->
  (exists schema, generate' fuel file config = Ret (Some schema))
  \/ generate' fuel file config = TypeError.
Proof.
  intros Hfile HU Hfuel.
  pose proof (generate_fuel fuel file config U HU Hfuel) as Hf.
  destruct (generate_present fuel file config sourceFile Hfile) as [Hn Hs].
  destruct (generate' fuel file config) as [[schema|]| |]; eauto; done.
Qed.

End GenerateFacts.

(** C9, the failing input: the entry file is in the project, and
    [generate] neither returns a schema nor [undefined]: it raises,
    whatever the fuel, at [declaration.getText()] in [getPropertySchema],
    for the property that has no declaration. *)
Theorem generate_raises_without_declaration (fuel : nat) :
  is_Some (proj_sourceFiles RecordAlias.record_project !! "/src/record.ts")
  /\ RecordAlias.run_generate_record fuel "/src/record.ts" None = TypeError.
Proof. split; [by eexists|]. by vm_compute. Qed.

(** C3, the failing input: the declarations [A] and [B] both have the
    title [__proto__] and give two entries of the strict-order list, but
    the map of map mode has no entry under [__proto__], neither the
    later one nor any: the two writes [schemaMap[title] = schema] set the
    prototype of the object and create no property, and the map holds
    the nested type [Size] alone. *)
Theorem generate_loses_proto_title (fuel : nat) :
  ProtoTitle.run_generate_proto (S fuel) "/src/proto.ts" Demo.strictConfig
  = Ret (Some (OutputList [mkEntry "__proto__" ProtoTitle.schemaA;
                           mkEntry "__proto__" ProtoTitle.schemaB;
                           mkEntry "Size" ProtoTitle.schemaSize]))
  /\ ProtoTitle.run_generate_proto (S fuel) "/src/proto.ts" None
     = Ret (Some (OutputMap {["Size" := ProtoTitle.schemaSize]}))
  /\ ({["Size" := ProtoTitle.schemaSize]} : gmap string Schema) !! "__proto__"
     = None.
Proof. split_and!; by vm_compute. Qed.

(** C5, the failing input: the property [toString] of [Widget] has no
    tag at all and the default-type map has no entry under [toString],
    yet the property is in the output, with neither type nor tags:
    [defaultT[name]] finds the [toString] that every object inherits. *)
Theorem generate_emits_inherited_default (fuel : nat) :
  Demo.defaultTypeMap !! "toString" = None
  /\ getSymbolTags (symbols InheritedKey.widget_program 1) false = Ret []
  /\ InheritedKey.run_generate_widget fuel "/src/widget.ts" Demo.strictConfig
     = Ret (Some (OutputList
                    [mkEntry "Widget"
                       (InterfaceSchema [mkTag "title" "Widget"]
                          [mkProperty "toString" None false None None])])).
Proof. split_and!; by vm_compute. Qed.

(** ** The demonstration project, run *)

(** The declarations at lines 5, 7, 3 and 1, in this order of encounter,
    are processed in the order of the lines 1, 3, 5 and 7. *)
Example Demo_sorted :
  startLine Demo.demo_program
    <$> js_sort (compareStartLine Demo.demo_program) [14; 19; 12; 10]
  = [1; 3; 5; 7]%Z.
Proof. by vm_compute. Qed.

Example Demo_titles :
  entry_title <$> DemoRun.list = ["Alpha"; "Beta"; "Gamma"; "Alpha"; "Inner"].
Proof. by vm_compute. Qed.

(** In the function schema the parameter type is linkified and the
    return type is not. *)
Example Demo_function_schema :
  head DemoRun.list
  = Some (mkEntry "Alpha"
            (FunctionSchema [mkTag "title" "Alpha"]
               [mkProperty "p" (Some "[Inner](#Inner)") false (Some [])
                  (Some None)]
               Demo.innerText)).
Proof. by vm_compute. Qed.

Lemma generateSchema_map_last_wins_witness :
  DemoRun.map !! "Alpha" = Some (InterfaceSchema [mkTag "title" "Alpha"] [])
  /\ DemoRun.map !! "Inner"
     = Some (NestedTypeSchema [mkTag "title" "Inner"] "interface Inner {}").
Proof.
  destruct (generateSchema_map_last_wins Demo.demo_format Demo.toSingleLine
              Demo.escape Demo.parseTokens Demo.printTokens
              Demo.defaultTypeMap Demo.linkFormatter 5 Demo.demo_program
              Demo.sourceFile None DemoRun.map)
    as (list & Hlist & Hlookup & _).
  - reflexivity.
  - vm_compute. reflexivity.
  - vm_compute in Hlist. injection Hlist as <-.
    rewrite !Hlookup by done. vm_compute. split; reflexivity.
Defined.


Lemma getPropertySchema_default_fallback_witness :
  getPropertySchema Demo.demo_program Demo.demo_format Demo.toSingleLine Demo.escape
    Demo.parseTokens Demo.printTokens 0 22 Demo.defaultTypeMap false
    Demo.linkFormatter (mkState [] [])
  = Ret (Some (mkProperty "style" (Some "CSSProperties") false
                 (Some [mkTag "en" "Additional style"]) None), mkState [] []).
Proof.
  destruct (getPropertySchema_default_fallback Demo.demo_program Demo.demo_format
              Demo.toSingleLine Demo.escape Demo.parseTokens Demo.printTokens
              0 22 Demo.defaultTypeMap false Demo.linkFormatter (mkState [] [])
              16 (mkExtract "style" " string" false) [])
    as [Hsome _].
  - reflexivity.
  - reflexivity.
  - reflexivity.
  - intros tag Htag. by apply elem_of_nil in Htag.
  - apply (Hsome (mkDefault "CSSProperties" [mkTag "en" "Additional style"])).
    vm_compute. reflexivity.
Defined.


Lemma function_returns_raw_text_witness :
  exists tags params,
    last (schemaList DemoRun.afterFunction)
    = Some (mkEntry "Alpha" (FunctionSchema tags params Demo.innerText)).
Proof.
  destruct (function_returns_raw_text Demo.demo_program Demo.demo_format
              Demo.toSingleLine Demo.escape Demo.parseTokens Demo.printTokens
              5 Demo.defaultTypeMap false None Demo.linkFormatter 10 10
              DemoRun.emptyBuild DemoRun.afterFunction)
    as (tags & params & H).
  - reflexivity.
  - reflexivity.
  - vm_compute. reflexivity.
  - exists tags, params. exact H.
Defined.

(** ** Linkifier *)

Section LinkifierFacts.

Variable P : Program.
Variable format : string -> string.

Lemma linkOfParsedType_Some text nl lf t r :
  linkOfParsedType P text nl lf t = Some r ->
  typeNameOf P t = Some text
  /\ exists link,
       truthy (Some link) = true /\ r = linkText text link
       /\ linked_through P text nl lf t link.
Proof.
  unfold linkOfParsedType, typeNameOf, linked_through, pathOf, backing.
  destruct (getSymbolByType P t) as [s|] eqn:Es; cbn [fmap option_fmap option_map];
    [|done].
  unfold orEmpty. cbn [default from_option id].
  destruct (truthy (Some (sym_name (symbols P s)))); cbn [negb orb]; [|done].
  destruct (String.eqb_spec (sym_name (symbols P s)) text) as [->|]; [|done].
  cbn [negb]. intros H. split; [done|].
  destruct (find _ nl) as [item|] eqn:Ef.
  - apply find_some in Ef as [Hin Heq]. apply String.eqb_eq in Heq.
    destruct (lf _) as [link|] eqn:El; [|done].
    destruct (truthy (Some link)) eqn:Hl; [|done].
    injection H as <-. exists link. split_and!; [done..|].
    left. split; [|done]. exists item. by rewrite list_elem_of_In.
  - assert (forall item, item ∈ nl -> entry_title item <> text) as Hnone.
    { intros item Hin%list_elem_of_In Heq.
      pose proof (find_none _ _ Ef item Hin) as Hf. cbn in Hf.
      apply String.eqb_neq in Hf. done. }
    destruct (jsDocTitleOf P _) as [title|] eqn:Et; [|done].
    destruct (truthy (Some title)) eqn:Htitle; [|done].
    destruct (lf _) as [link|] eqn:El; [|done].
    destruct (truthy (Some link)) eqn:Hl; [|done].
    injection H as <-. exists link. split_and!; [done..|].
    right. split; [done|]. by exists title.
Qed.

Lemma linkOfParsedType_other_name text nl lf t :
  typeNameOf P t <> Some text -> linkOfParsedType P text nl lf t = None.
Proof.
  unfold linkOfParsedType, typeNameOf.
  destruct (getSymbolByType P t) as [s|]; cbn [fmap option_fmap option_map];
    [|done].
  unfold orEmpty. cbn [default from_option id]. intros Hne.
  destruct (String.eqb_spec (sym_name (symbols P s)) text) as [Heq|];
    [by rewrite Heq in Hne|].
  by rewrite orb_true_r.
Qed.

Lemma linkOfParsedType_no_link text nl lf t :
  (forall info, link_typeName info = text -> truthy (lf info) = false) ->
  linkOfParsedType P text nl lf t = None.
Proof.
  intros Hlf. destruct (linkOfParsedType P text nl lf t) as [r|] eqn:E; [|done].
  apply linkOfParsedType_Some in E
    as (_ & link & Hl & _ & [[_ H]|[_ (title & _ & _ & H)]]).
  - by rewrite <- H, Hlf in Hl.
  - by rewrite <- H, Hlf in Hl.
Qed.

Lemma linkOfParsedType_gives text nl lf t r :
  linkOfParsedType P text nl lf t = Some r ->
  exists link, gives_link P text nl lf t link /\ r = linkText text link.
Proof.
  intros H. pose proof H as H'.
  apply linkOfParsedType_Some in H as (Hn & link & Hl & -> & Hthrough).
  exists link. split; [|done]. split_and!; try done.
  revert H'. unfold linkOfParsedType. fold (typeNameOf P t). rewrite Hn.
  unfold orEmpty. cbn [default from_option id].
  by destruct (truthy (Some text)).
Qed.

Lemma gives_link_linkOfParsedType text nl lf t link :
  gives_link P text nl lf t link ->
  linkOfParsedType P text nl lf t = Some (linkText text link).
Proof.
  intros (Htext & Hn & Hl & Hthrough).
  unfold linkOfParsedType. fold (typeNameOf P t). rewrite Hn.
  unfold orEmpty. cbn [default from_option id].
  rewrite Htext, String.eqb_refl. cbn [negb orb].
  fold (backing P t). fold (pathOf P t).
  destruct Hthrough as [[(item & Hin & Htitle) Hlf]
                       |[Hnone (title & Htitle & Htruthy & Hlf)]].
  - destruct (find _ nl) as [found|] eqn:Ef.
    + rewrite Hlf, Hl. done.
    + apply list_elem_of_In in Hin.
      pose proof (find_none _ _ Ef item Hin) as Hf. cbn in Hf.
      apply String.eqb_neq in Hf. done.
  - destruct (find _ nl) as [found|] eqn:Ef.
    + apply find_some in Ef as [Hin Heq]. apply String.eqb_eq in Heq.
      apply list_elem_of_In in Hin. by apply Hnone in Hin.
    + rewrite Htitle, Htruthy, Hlf, Hl. done.
Qed.

Lemma linkOfParsedType_None text nl lf t :
  linkOfParsedType P text nl lf t = None <->
  forall link, ~ gives_link P text nl lf t link.
Proof.
  split.
  - intros H link Hg. apply gives_link_linkOfParsedType in Hg. congruence.
  - intros H. destruct (linkOfParsedType P text nl lf t) as [r|] eqn:E; [|done].
    apply linkOfParsedType_gives in E as (link & Hg & _). by apply H in Hg.
Qed.

(** C8, as the code has it.  An identifier is replaced only through a
    visited type whose symbol has its text for name: the replacement is
    [linkText] of a non-empty link that the link function gave, called
    with the name alone where the nested-type list has an entry of that
    title and otherwise with name, title and definition path of a
    backing declaration that has a title.  Of the visited types, in the
    order of the set, the first that yields such a link decides; if none
    does the identifier keeps its text.  So does an identifier that no
    visited type is named after, or for which the link function gives
    nothing, and every token that is no identifier.  A type of an
    external library never gets a nested-type entry, and it is in the
    visited set only as the type of some declaration that has a title. *)
Theorem linkIdentifier_links_visited_names (nodeTypeText : string)
    (nl : SchemaList) (lf : LinkFormatter) (parsed : list TypeId) :
  ((forall t, t ∈ parsed -> typeNameOf P t <> Some nodeTypeText) ->
   linkIdentifier P nodeTypeText nl lf parsed = nodeTypeText)
  /\ ((forall info,
         link_typeName info = nodeTypeText -> truthy (lf info) = false) ->
      linkIdentifier P nodeTypeText nl lf parsed = nodeTypeText)
  /\ ((linkIdentifier P nodeTypeText nl lf parsed = nodeTypeText
       /\ forall t link,
            t ∈ parsed -> ~ gives_link P nodeTypeText nl lf t link)
      \/ exists before t after link,
           parsed = before ++ t :: after
           /\ (forall t' link',
                 t' ∈ before -> ~ gives_link P nodeTypeText nl lf t' link')
           /\ gives_link P nodeTypeText nl lf t link
           /\ linkIdentifier P nodeTypeText nl lf parsed
              = linkText nodeTypeText link)
  /\ (forall text, transformToken P nl parsed lf (OtherToken text)
                   = OtherToken text)
  /\ (forall fuel declaration st st',
        dumpNestedTypes P format fuel declaration st = Ret st' ->
        (external_only_titled P (parsedNestedTypes st) ->
         external_only_titled P (parsedNestedTypes st'))
        /\ exists ts,
             nestedTypeList st'
             = nestedTypeList st ++ (entryOfType P format <$> ts)
             /\ Forall (fun t => isExternal P t = false) ts).
Proof.
  split_and!.
  - intros Hnames. induction parsed as [|t parsed' IH]; [done|].
    cbn [linkIdentifier].
    rewrite linkOfParsedType_other_name by (apply Hnames; left).
    apply IH. intros t' Ht'. apply Hnames. by right.
  - intros Hlf. induction parsed as [|t parsed' IH]; [done|].
    cbn [linkIdentifier]. by rewrite linkOfParsedType_no_link.
  - induction parsed as [|t parsed' IH].
    { left. split; [done|]. intros t link Hin. by apply elem_of_nil in Hin. }
    cbn [linkIdentifier].
    destruct (linkOfParsedType P nodeTypeText nl lf t) as [r|] eqn:E.
    + right. apply linkOfParsedType_gives in E as (link & Hg & ->).
      exists [], t, parsed', link. split_and!; try done.
      intros t' link' Hin. by apply elem_of_nil in Hin.
    + pose proof (proj1 (linkOfParsedType_None _ _ _ _) E) as Hnone.
      destruct IH as [[IH Hall]|(before & t' & after & link & -> & Hb & Hg & H)].
      * left. split; [done|].
        intros t0 link [->|Hin]%elem_of_cons; [apply Hnone|by apply Hall].
      * right. exists (t :: before), t', after, link. split_and!; try done.
        intros t0 link' [->|Hin]%elem_of_cons; [apply Hnone|by apply Hb].
  - done.
  - intros fuel declaration st st' Hret. split.
    + intros HK.
      pose proof (dumpNestedTypes_inv P format
                    (fun s => external_only_titled P (parsedNestedTypes s)))
        as Hinv.
      assert (partial (dumpNestedTypes P format fuel declaration st)
                (fun s => external_only_titled P (parsedNestedTypes s))) as Hp.
      { apply Hinv; [| |done].
        - intros nl0 set d H Hd t [->|Ht]%set_add_elem_inv Hext;
            [by exists d|by apply H].
        - intros nl0 set t0 H _ Hext0 t [->|Ht]%set_add_elem_inv Hext;
            [congruence|by apply H]. }
      by rewrite Hret in Hp.
    + assert (partial (dumpNestedTypes P format fuel declaration st)
                (fun s => exists ts,
                     nestedTypeList s
                     = nestedTypeList st ++ (entryOfType P format <$> ts)
                     /\ Forall (fun t => isExternal P t = false) ts)) as Hp.
      { apply (dumpNestedTypes_inv P format
                 (fun s => exists ts,
                      nestedTypeList s
                      = nestedTypeList st ++ (entryOfType P format <$> ts)
                      /\ Forall (fun t => isExternal P t = false) ts)).
        - done.
        - intros nl0 set t0 (ts & Hts & Hall) _ Hext0. exists (ts ++ [t0]).
          cbn [nestedTypeList] in *. rewrite Hts, fmap_app, <- app_assoc.
          split; [done|]. apply Forall_app. split; [done|]. by constructor.
        - exists []. cbn. split; [by rewrite (right_id_L [] (++))|constructor]. }
      by rewrite Hret in Hp.
Qed.

End LinkifierFacts.

(** C8, as stated, fails: the titled [ButtonProps] lies under
    [/node_modules/], the resolver puts it into the visited set, and the
    linkifier replaces the identifier. *)
Lemma external_titled_type_is_linked :
  isExternal ExternalTitled.external_program 1 = true
  /\ dumpNestedTypes ExternalTitled.external_program Demo.demo_format 1 (Some 1)
       (mkState [] [])
     = Ret (mkState [] [1])
  /\ linkIdentifier ExternalTitled.external_program "ButtonProps" [] Demo.linkFormatter
       [1]
     = "[ButtonProps](#ButtonProps)"
  /\ ~ external_never_visited ExternalTitled.external_program Demo.demo_format.
Proof.
  split_and!; [by vm_compute..|].
  intros H.
  specialize (H 1 (Some 1) (mkState [] [1]) ltac:(by vm_compute) 1
                ltac:(by left)).
  by vm_compute in H.
Qed.

Lemma linkIdentifier_links_visited_names_witness :
  linkIdentifier ExternalTitled.external_program "string" [] Demo.linkFormatter [1]
  = "string"
  /\ (exists before t after link,
        [0; 1] = before ++ t :: after
        /\ gives_link ExternalTitled.external_program "ButtonProps" []
             Demo.linkFormatter t link
        /\ linkIdentifier ExternalTitled.external_program "ButtonProps" []
             Demo.linkFormatter [0; 1]
           = linkText "ButtonProps" link)
  /\ external_only_titled ExternalTitled.external_program [1].
Proof.
  split_and!.
  - destruct (linkIdentifier_links_visited_names ExternalTitled.external_program
                Demo.demo_format "string" [] Demo.linkFormatter [1])
      as (Hnames & _).
    apply Hnames. intros t Ht.
    apply list_elem_of_singleton in Ht. rewrite Ht. vm_compute. discriminate.
  - destruct (linkIdentifier_links_visited_names ExternalTitled.external_program
                Demo.demo_format "ButtonProps" [] Demo.linkFormatter [0; 1])
      as (_ & _ & [[Hsame _]|(before & t & after & link & Hl & _ & Hg & Hr)] & _).
    + vm_compute in Hsame. discriminate.
    + by exists before, t, after, link.
  - destruct (linkIdentifier_links_visited_names ExternalTitled.external_program
                Demo.demo_format "string" [] Demo.linkFormatter [1])
      as (_ & _ & _ & _ & Hdump).
    destruct (Hdump 1 (Some 1) (mkState [] []) (mkState [] [1])) as [Hext _].
    + vm_compute. reflexivity.
    + apply Hext. intros t Ht. by apply elem_of_nil in Ht.
Defined.

(** * Further properties *)

(** ** The extractor on a well-formed member text *)

Lemma strip_semicolon_snoc s : strip_semicolon (s +:+ ";") = s.
Proof.
  induction s as [|c s IH]; [done|]. rewrite append_cons.
  destruct s as [|c' s]; [done|]. rewrite append_cons in *.
  cbn [strip_semicolon] in *. by rewrite IH.
Qed.

(** X1: a text that starts with an identifier, then optional white
    space, an optional [?], optional white space and a colon is parsed
    at its start: the name is that identifier, the member is optional
    exactly with the [?], and the type is all that follows the colon,
    white space included, less one final semicolon. *)
Theorem extractFromPropertyText_parts (name ws1 q ws2 rest : string) :
  name <> EmptyString ->
  all_chars is_word name = true ->
  all_chars is_space ws1 = true ->
  q = EmptyString \/ q = "?" ->
  all_chars is_space ws2 = true ->
  extractFromPropertyText (name +:+ ws1 +:+ q +:+ ws2 +:+ ":" +:+ rest)
  = Some (mkExtract name (strip_semicolon rest) (bool_decide (q = "?")))
  /\ extractFromPropertyText
       (name +:+ ws1 +:+ q +:+ ws2 +:+ ":" +:+ rest +:+ ";")
     = Some (mkExtract name rest (bool_decide (q = "?"))).
Proof.
  intros Hne Hname Hws1 Hq Hws2.
  assert (forall rest',
            extractFromPropertyText
              (name +:+ ws1 +:+ q +:+ ws2 +:+ ":" +:+ rest')
            = Some (mkExtract name (strip_semicolon rest')
                      (bool_decide (q = "?")))) as H.
  { intros rest'. unfold extractFromPropertyText.
    assert (match_here (name +:+ ws1 +:+ q +:+ ws2 +:+ ":" +:+ rest')
            = Some (mkExtract name (strip_semicolon rest')
                      (bool_decide (q = "?")))) as Hm.
    { unfold match_here.
      assert (Hstop : stops is_word (ws1 +:+ q +:+ ws2 +:+ ":" +:+ rest')).
      { destruct ws1 as [|c ws1].
        - rewrite append_nil_l. destruct Hq as [->| ->]; [|done].
          rewrite append_nil_l. destruct ws2 as [|c ws2]; [done|].
          cbn in Hws2. apply andb_true_iff in Hws2 as [Hc _].
          rewrite append_cons. cbn. by apply is_space_not_word.
        - cbn in Hws1. apply andb_true_iff in Hws1 as [Hc _].
          rewrite append_cons. cbn. by apply is_space_not_word. }
      rewrite (span_app _ _ _ Hname Hstop).
      destruct name as [|c name]; [done|].
      destruct Hq as [->| ->].
      - rewrite append_nil_l, <- append_assoc.
        rewrite span_app; [|by rewrite all_chars_app, Hws1, Hws2|done].
        cbn [snd]. rewrite append_cons, append_nil_l. by cbn.
      - rewrite (span_app is_space ws1); [|done|done]. cbn [snd].
        rewrite append_cons, append_nil_l.
        rewrite (span_app is_space ws2); [|done|done]. cbn [snd].
        rewrite append_cons, append_nil_l. by cbn. }
    destruct name as [|c name]; [done|]. rewrite append_cons in *.
    cbn [propertyRegex_exec]. by rewrite Hm. }
  split; [apply H|].
  specialize (H (rest +:+ ";")). by rewrite strip_semicolon_snoc in H.
Qed.

Lemma extractFromPropertyText_parts_witness :
  extractFromPropertyText "closable ?: InnerProps;;"
  = Some (mkExtract "closable" " InnerProps;" true).
Proof.
  destruct (extractFromPropertyText_parts "closable" " " "?" "" " InnerProps;")
    as [_ H].
  - discriminate.
  - reflexivity.
  - reflexivity.
  - right. reflexivity.
  - reflexivity.
  - exact H.
Defined.

(** ** The tags of a declaration *)

(** X2: the tags that [getDeclarationTags] returns are all the tags of
    the first JSDoc block, in their order, a tag without comment having
    the empty value; later blocks are not read, and without any block
    there is neither title nor tag. *)
Theorem getDeclarationTags_first_block (jsDocs : list JSDoc) :
  (getDeclarationTags jsDocs).2 = tagOfRaw <$> rawTagsOf jsDocs
  /\ getDeclarationTags jsDocs = getDeclarationTags (take 1 jsDocs)
  /\ getDeclarationTags [] = (None, []).
Proof.
  split_and!; [| |done].
  - unfold getDeclarationTags, rawTagsOf.
    induction (default [] (head jsDocs)) as [|tag rawTags IH] using rev_ind;
      [done|].
    rewrite fold_left_app, fmap_app. cbn [fold_left].
    destruct (fold_left _ rawTags _) as [title tags]. cbn [snd] in *.
    by rewrite IH.
  - unfold getDeclarationTags. by destruct jsDocs.
Qed.

(** ** The tags of a symbol *)

Lemma tagOfInfo_outcome tag :
  (tagOfInfo tag = TypeError /\ info_text tag = Some [])
  \/ (exists v, tagOfInfo tag = Ret (mkTag (info_name tag) v)
                /\ info_text tag <> Some []).
Proof.
  unfold tagOfInfo, tagInfoValue.
  destruct (info_text tag) as [[|part parts]|]; cbn; [by left|right..];
    eexists; split; done.
Qed.

Lemma mapM_tagOfInfo_outcome l :
  (mapM tagOfInfo l = TypeError
   /\ exists tag, tag ∈ l /\ info_text tag = Some [])
  \/ (exists tags,
        mapM tagOfInfo l = Ret tags
        /\ tag_name <$> tags = info_name <$> l
        /\ forall tag, tag ∈ l -> info_text tag <> Some []).
Proof.
  induction l as [|t l IH].
  - right. exists []. split_and!; [done..|].
    intros tag Hin. by apply elem_of_nil in Hin.
  - change (mapM tagOfInfo (t :: l))
      with (y ← tagOfInfo t; k ← mapM tagOfInfo l; mret (y :: k)).
    destruct (tagOfInfo_outcome t) as [[-> Ht]|(v & -> & Ht)].
    + left. split; [done|]. exists t. split; [by left|done].
    + cbn [mbind Outcome_bind].
      destruct IH as [[-> (tag & Hin & Htag)]|(tags & -> & Hn & Hall)].
      * left. split; [done|]. exists tag. split; [by right|done].
      * right. exists (mkTag (info_name t) v :: tags). split_and!.
        -- done.
        -- cbn. by rewrite Hn.
        -- intros tag [->|Hin]%elem_of_cons; auto.
Qed.

(** X3: [getSymbolTags] raises exactly when one of the symbol's JSDoc
    tags has a text that is an empty array of display parts (the
    [tag.text?.[0].text] of the source guards an absent text, not an
    empty one); otherwise it returns one tag for each JSDoc tag, and at
    most two more. *)
Theorem getSymbolTags_raises_iff (sym : Symbol) (strict : bool) :
  (getSymbolTags sym strict = TypeError
   <-> exists tag, tag ∈ sym_jsDocTags sym /\ info_text tag = Some [])
  /\ forall tags,
       getSymbolTags sym strict = Ret tags ->
       length (sym_jsDocTags sym) <= length tags
       <= length (sym_jsDocTags sym) + 2
       /\ info_name <$> sym_jsDocTags sym
          = tag_name <$> take (length (sym_jsDocTags sym)) tags.
Proof.
  unfold getSymbolTags.
  change (mapM _ (sym_jsDocTags sym))
    with (mapM tagOfInfo (sym_jsDocTags sym)).
  destruct (mapM_tagOfInfo_outcome (sym_jsDocTags sym))
    as [[-> Hex]|(tags0 & -> & Hn & Hall)]; cbn [mbind Outcome_bind].
  { split; [done|]. intros tags H. done. }
  assert (exists extra,
            (if negb strict
             then match head (sym_documentationComment sym) with
                  | Some commonComment =>
                      if String.eqb (part_kind commonComment) "text"
                         && truthy (Some (part_text commonComment))
                      then mret (fold_left
                                   (fun tags tagNameForDescription =>
                                      if negb (hasTagNamed tagNameForDescription tags)
                                      then tags ++ [mkTag tagNameForDescription
                                                      (part_text commonComment)]
                                      else tags)
                                   TAG_NAMES_FOR_DESCRIPTION tags0)
                      else mret tags0
                  | None => mret tags0
                  end
             else mret tags0) = Ret (tags0 ++ extra)
            /\ length extra <= 2) as (extra & -> & Hextra).
  { assert (Hnone : mret tags0 = Ret (tags0 ++ []) /\ length (@nil TagType) <= 2).
    { rewrite (right_id_L [] (++)). split; [done|cbn; lia]. }
    destruct (negb strict); [|by exists []].
    destruct (head _) as [part|]; [|by exists []].
    destruct (_ && _); [|by exists []].
    unfold TAG_NAMES_FOR_DESCRIPTION. cbn [fold_left].
    destruct (negb (hasTagNamed "zh" tags0));
      match goal with
      | |- context [negb (hasTagNamed "en" ?l)] =>
          destruct (negb (hasTagNamed "en" l))
      end; unfold mret, Outcome_ret;
      [exists [mkTag "zh" (part_text part); mkTag "en" (part_text part)]
      |exists [mkTag "zh" (part_text part)]
      |exists [mkTag "en" (part_text part)]
      |exists []];
      rewrite <- ?app_assoc, ?(right_id_L [] (++)); cbn; split; (done || lia). }
  assert (length tags0 = length (sym_jsDocTags sym)) as Hl.
  { by rewrite <- (length_fmap tag_name), Hn, length_fmap. }
  split.
  - split; [done|]. intros (tag & Hin & Htag). by apply Hall in Hin.
  - intros tags [= <-]. rewrite length_app, <- Hl. split; [lia|].
    by rewrite take_app_length.
Qed.


(** ** Removal of [import(...)] qualifiers *)

Lemma string_length_append (a b : string) :
  String.length (a +:+ b) = String.length a + String.length b.
Proof.
  induction a as [|c a IH]; [done|]. rewrite append_cons. cbn. by rewrite IH.
Qed.

Lemma substring_all (s : string) : String.substring 0 (String.length s) s = s.
Proof. induction s as [|c s IH]; [done|]. cbn. by rewrite IH. Qed.

Lemma stripImports_from_skip (a b : string) :
  stripImports_from (String.length a) (a +:+ b) = stripImports_from 0 b.
Proof.
  induction a as [|c a IH]; [done|]. rewrite append_cons. cbn. apply IH.
Qed.

Lemma includes_cons_false sub c s :
  includes sub (String c s) = false ->
  String.prefix sub (String c s) = false /\ includes sub s = false.
Proof. cbn [includes]. by intros [? ?]%orb_false_iff. Qed.

(** X4: [replace(/import\([^)]+\)\./g, '')] leaves a text that has no
    [import(] as it is, and takes a qualifier [import(path).] (a path of
    one or more characters other than the closing parenthesis) off the
    front of a text, then goes on with what follows. *)
Theorem stripImports_qualifier (path rest s : string) :
  (includes "import(" s = false -> stripImports s = s)
  /\ (path <> EmptyString ->
      all_chars (fun c => negb (Ascii.eqb c ")")) path = true ->
      stripImports ("import(" +:+ path +:+ ")." +:+ rest) = stripImports rest).
Proof.
  split.
  - unfold stripImports. induction s as [|c s IH]; [done|].
    intros [Hp Hs]%includes_cons_false. cbn [stripImports_from].
    unfold importPrefix. rewrite Hp. by rewrite IH.
  - intros Hne Hpath. unfold stripImports.
    set (body := path +:+ ")." +:+ rest).
    set (tail := String "m" (String "p" (String "o" (String "r" (String "t"
                   (String "(" body)))))).
    change ("import(" +:+ body) with (String "i" tail).
    assert (importPrefix (String "i" tail)
            = Some (7 + String.length path + 2)) as Hprefix.
    { assert (String.prefix "import(" (String "i" tail) = true) as Hpre.
      { unfold tail. cbn. by destruct body. }
      assert (String.prefix ")." (")." +:+ rest) = true) as Hclose.
      { change (")." +:+ rest) with (String ")" (String "." rest)). cbn.
        by destruct rest. }
      unfold importPrefix. rewrite Hpre. unfold tail.
      cbn [String.length String.substring Nat.sub].
      rewrite Nat.sub_0_r, substring_all.
      unfold body. rewrite span_app; [|done|done]. rewrite Hclose.
      by destruct path. }
    change (stripImports_from 0 (String "i" tail))
      with (match importPrefix (String "i" tail) with
            | Some n => stripImports_from (n - 1) tail
            | None => String "i" (stripImports_from 0 tail)
            end).
    rewrite Hprefix.
    replace (7 + String.length path + 2 - 1)
      with (String.length ("mport(" +:+ path +:+ ")."))
      by (rewrite !string_length_append; cbn; lia).
    rewrite <- (stripImports_from_skip ("mport(" +:+ path +:+ ").") rest).
    f_equal. unfold tail, body. by rewrite !append_assoc.
Qed.

Lemma stripImports_qualifier_witness :
  stripImports ("import(" +:+ Demo.dq +:+ "/src/a" +:+ Demo.dq +:+ ").Inner")
  = "Inner".
Proof.
  destruct (stripImports_qualifier (Demo.dq +:+ "/src/a" +:+ Demo.dq) "Inner"
              "Inner") as [Hid Hq].
  rewrite <- (Hid eq_refl) at 2.
  rewrite <- Hq; [|discriminate|reflexivity].
  reflexivity.
Defined.

(** ** Sorting *)

Lemma sort_insert_Permutation {A : Type} (compare : A -> A -> Z) x l :
  sort_insert compare x l ≡ₚ x :: l.
Proof.
  induction l as [|y l IH]; [done|]. cbn [sort_insert].
  destruct (0 <? compare x y)%Z; [|done].
  rewrite IH. apply Permutation_swap.
Qed.

Lemma js_sort_Permutation {A : Type} (compare : A -> A -> Z) l :
  js_sort compare l ≡ₚ l.
Proof.
  induction l as [|x l IH]; [done|]. unfold js_sort in *. cbn [foldr].
  by rewrite sort_insert_Permutation, IH.
Qed.

(** X5: the property sorter, whatever comparator it is, only reorders:
    the sorted schema lists the same properties or parameters, each as
    often as before, and keeps its tags, its [returns] and its shape;
    without a sorter the schema is left as it is. *)
Theorem applySorter_reorders
    (sorter : option (PropertyType -> PropertyType -> Z)) (schema : Schema) :
  schemaProperties (applySorter sorter schema) ≡ₚ schemaProperties schema
  /\ schemaTags (applySorter sorter schema) = schemaTags schema
  /\ (forall tags params returns,
        schema = FunctionSchema tags params returns ->
        exists params',
          applySorter sorter schema = FunctionSchema tags params' returns)
  /\ (forall tags data,
        schema = NestedTypeSchema tags data -> applySorter sorter schema = schema)
  /\ applySorter None schema = schema.
Proof.
  split_and!.
  - destruct sorter as [compare|], schema; cbn; try done;
      apply js_sort_Permutation.
  - by destruct sorter, schema.
  - intros tags params returns ->. destruct sorter; cbn; eauto.
  - intros tags data ->. by destruct sorter.
  - done.
Qed.

(** X6: declarations that already stand in the order of their keys are
    left in that order by the sort, so a file whose declarations come by
    ascending line is processed in the order of [interfaces],
    [typeAliases], [functions]. *)
Theorem js_sort_sorted_id {A : Type} (key : A -> Z) (l : list A) :
  Sorted (fun a b => (key a <= key b)%Z) l ->
  js_sort (compareKey key) l = l.
Proof.
  induction 1 as [|x l Hl IH Hhd]; [done|].
  unfold js_sort in *. cbn [foldr]. rewrite IH.
  destruct Hhd as [|y l Hxy]; [done|]. cbn [sort_insert]. unfold compareKey.
  destruct (Z.ltb_spec 0 (key x - key y)); [lia|done].
Qed.

Lemma js_sort_sorted_id_witness :
  js_sort (compareStartLine Demo.demo_program) [10; 12; 14; 19]
  = [10; 12; 14; 19].
Proof.
  apply (js_sort_sorted_id (startLine Demo.demo_program)).
  repeat constructor; vm_compute; discriminate.
Defined.

(** ** What the resolver dumps *)

Section MoreResolverFacts.

Variable P : Program.
Variable format : string -> string.

Lemma isTarget_true_dumpable type set set' :
  isTarget P type set = (true, set') ->
  set' = set /\ (type ∉ set)
  /\ truthy (jsDocTitleOf P (backing P type)) = false
  /\ isExternal P type = false
  /\ structuralKind P type = true.
Proof.
  intros H. destruct (isTarget_true P type set set' H) as (-> & Hfresh & Hext).
  split_and!; try done.
  - revert H. unfold isTarget, hasJSDocTitle, backing.
    apply set_has_false in Hfresh. rewrite Hfresh.
    destruct (getDeclarationBySymbol P (getSymbolByType P type)) as [d|];
      [|done].
    by destruct (truthy (jsDocTitleOf P (Some d))).
  - revert H. unfold isTarget, structuralKind.
    apply set_has_false in Hfresh. rewrite Hfresh.
    destruct (hasJSDocTitle P _ set) as [t set1]. destruct t; [done|].
    destruct (_ && _); [done|]. by intros [= -> _].
Qed.

(** A property of the accumulators is kept by the resolver if it is kept
    by the addition of the type of a titled declaration and by the
    addition, with its entry, of a fresh dumpable type. *)
Lemma dumpNestedTypes_inv_dumpable (I : State -> Prop) :
  (forall nl set d,
     I (mkState nl set) -> titled P d ->
     I (mkState nl (set_add (node_type (nodes P d)) set))) ->
  (forall nl set t,
     I (mkState nl set) -> t ∉ set -> dumpable P t ->
     I (mkState (nl ++ [entryOfType P format t]) (set_add t set))) ->
  forall fuel declaration st,
    I st -> partial (dumpNestedTypes P format fuel declaration st) I.
Proof.
  intros Htitled Hadd.
  induction fuel as [|fuel IH]; intros declaration [nl set] Hs; [done|].
  cbn [dumpNestedTypes]. destruct declaration as [d|]; [|by cbn].
  cbn [parsedNestedTypes nestedTypeList].
  destruct (hasJSDocTitle P (Some d) set) as [t set0] eqn:Ht.
  assert (Hs0 : I (mkState nl set0)).
  { apply hasJSDocTitle_spec in Ht as [[_ ->]|[_ (? & _ & ? & ->)]]; auto. }
  destruct t; [by cbn|].
  apply (forEach_partial I); [done|].
  clear dependent set. clear nl set0 Hs0.
  intros desc [nl set] _ Hs.
  destruct (negb (desc_isTypeNode desc)); [by cbn|].
  destruct (truthy _) eqn:Hname; cbn [negb]; [|by cbn].
  destruct (bool_decide _) eqn:Hskip; [by cbn|].
  apply bool_decide_eq_false in Hskip.
  cbn [parsedNestedTypes nestedTypeList].
  destruct (isTarget P (desc_type desc) set) as [target set1] eqn:Htarget.
  destruct target; cbn [negb].
  2:{ cbn. apply isTarget_false in Htarget as [->|(? & ? & ->)]; auto. }
  apply isTarget_true_dumpable in Htarget as (-> & Hfresh & Hnt & Hext & Hkind).
  fold (entryOfType P format (desc_type desc)).
  assert (Hs1 : I (mkState (nl ++ [entryOfType P format (desc_type desc)])
                     (set_add (desc_type desc) set))).
  { apply Hadd; [done..|]. by split_and!. }
  destruct (isUnionOrIntersection P (desc_type desc)).
  - apply (forEach_partial I); [done|]. intros sub s2 _ Hs2.
    destruct (getDeclarationBySymbol P (getSymbolByType P sub)) as [c|];
      [by apply IH|by cbn].
  - destruct (type_isInterface _); [|by cbn].
    destruct (_ ≫= _) as [properties|]; [|done].
    apply (forEach_partial I); [done|]. intros a s2 _ Hs2. by apply IH.
Qed.

Lemma entryOfType_shape t : dumpable P t -> nestedEntryShape (entryOfType P format t).
Proof.
  intros (Hname & Hskip & _). unfold nestedEntryShape, entryOfType, nestedEntry.
  fold (typeNameOf P t). cbn [entry_title entry_schema].
  destruct (typeNameOf P t) as [[|c n]|]; try done.
  unfold orEmpty in *. cbn [default from_option id] in *.
  split_and!; [done| |by eexists].
  intros Heq. apply Hskip. rewrite Heq. unfold KEYWORDS_TO_SKIP. by left.
Qed.

(** X7: every entry that the resolver appends to the nested-type list is
    the entry of a dumpable type: never of a type without a name, of
    [Omit], of a type whose declaration has a title or lies under
    [/node_modules/], or of a type that is neither interface, enum,
    union, intersection nor declared alias; and each such entry has a
    non-empty title other than [Omit] and the one tag [title]. *)
Theorem dumpNestedTypes_dumps_dumpable (fuel : nat)
    (declaration : option NodeId) (st st' : State) :
  dumpNestedTypes P format fuel declaration st = Ret st' ->
  exists ts,
    nestedTypeList st' = nestedTypeList st ++ (entryOfType P format <$> ts)
    /\ Forall (dumpable P) ts
    /\ Forall nestedEntryShape (entryOfType P format <$> ts).
Proof.
  intros Hret.
  assert (partial (dumpNestedTypes P format fuel declaration st)
            (fun s => exists ts,
                 nestedTypeList s
                 = nestedTypeList st ++ (entryOfType P format <$> ts)
                 /\ Forall (dumpable P) ts)) as Hp.
  { apply (dumpNestedTypes_inv_dumpable
             (fun s => exists ts,
                  nestedTypeList s
                  = nestedTypeList st ++ (entryOfType P format <$> ts)
                  /\ Forall (dumpable P) ts)).
    - done.
    - intros nl set t (ts & Hts & Hall) _ Ht. exists (ts ++ [t]).
      cbn [nestedTypeList] in *. rewrite Hts, fmap_app, <- app_assoc.
      split; [done|]. apply Forall_app. split; [done|]. by constructor.
    - exists []. cbn. split; [by rewrite (right_id_L [] (++))|constructor]. }
  rewrite Hret in Hp. destruct Hp as (ts & Hts & Hall). exists ts.
  split_and!; [done..|].
  apply Forall_fmap. eapply Forall_impl; [done|].
  intros t Ht. by apply entryOfType_shape.
Qed.

Lemma set_add_absorb t s : t ∈ s -> set_add t s = s.
Proof. intros H. unfold set_add. by apply set_has_true in H as ->. Qed.

Lemma set_add_fixed t s : set_add t s = s -> t ∈ s.
Proof. intros H. rewrite <- H. apply set_add_elem. Qed.

Lemma settled_mono set set' t :
  settled P set t -> set ⊆ set' -> settled P set' t.
Proof.
  unfold settled, isTarget. intros H Hincl.
  destruct (set_has t set') eqn:Hhas'; [done|].
  apply set_has_false in Hhas'.
  assert (Hhas : set_has t set = false) by (apply set_has_false; set_solver).
  rewrite Hhas in H. unfold hasJSDocTitle in *.
  destruct (getDeclarationBySymbol P (getSymbolByType P t)) as [d|].
  - destruct (truthy (jsDocTitleOf P (Some d))).
    + injection H as H. apply set_add_fixed in H.
      by rewrite set_add_absorb by set_solver.
    + destruct (_ && _); [done|]. by injection H as ->.
  - destruct (_ && _); [done|]. by injection H as ->.
Qed.

Lemma isTarget_settles t set b set1 :
  isTarget P t set = (b, set1) ->
  settled P (if b then set_add t set1 else set1) t.
Proof.
  intros H. destruct b.
  - unfold settled, isTarget.
    by rewrite (proj2 (set_has_true _ _) (set_add_elem t set1)).
  - unfold settled. revert H. unfold isTarget.
    destruct (set_has t set) eqn:Hhas.
    { intros [= <-]. by rewrite Hhas. }
    unfold hasJSDocTitle.
    destruct (getDeclarationBySymbol P (getSymbolByType P t)) as [d|].
    + destruct (truthy (jsDocTitleOf P (Some d))) eqn:Ht.
      * intros [= <-]. destruct (set_has t (set_add _ set)); [done|].
        by rewrite (set_add_absorb _ _ (set_add_elem _ _)).
      * destruct (_ && _);
          [intros [= <-]; by rewrite Hhas
          |intros [= E <-]; rewrite Hhas; by rewrite E].
    + destruct (_ && _);
        [intros [= <-]; by rewrite Hhas
        |intros [= E <-]; rewrite Hhas; by rewrite E].
Qed.

Lemma dumpNestedTypes_grows fuel declaration st :
  partial (dumpNestedTypes P format fuel declaration st)
    (fun st' => parsedNestedTypes st ⊆ parsedNestedTypes st').
Proof.
  apply (dumpNestedTypes_inv P format
           (fun s => parsedNestedTypes st ⊆ parsedNestedTypes s)); cbn.
  - intros nl set d H _. etrans; [done|apply set_add_incl].
  - intros nl set t H _ _. etrans; [done|apply set_add_incl].
  - done.
Qed.

Lemma forEach_grows {A : Type} (l : list A) (f : A -> State -> Outcome State) s :
  (forall x s, partial (f x s)
                 (fun s' => parsedNestedTypes s ⊆ parsedNestedTypes s')) ->
  partial (forEach l f s)
    (fun s' => parsedNestedTypes s ⊆ parsedNestedTypes s').
Proof.
  intros Hf.
  apply (forEach_partial (fun s' => parsedNestedTypes s ⊆ parsedNestedTypes s'));
    [done|].
  intros x s1 _ H1. eapply partial_mono; [apply Hf|].
  intros a Ha. cbn in *. by etrans.
Qed.

(** After a loop whose callback only adds to the visited set and leaves
    its own element settled, every element is settled. *)
Lemma forEach_settles (l : list Descendant)
    (f : Descendant -> State -> Outcome State) s s' :
  (forall x s s', f x s = Ret s' ->
     parsedNestedTypes s ⊆ parsedNestedTypes s'
     /\ (scanned P x = true ->
         settled P (parsedNestedTypes s') (desc_type x))) ->
  forEach l f s = Ret s' ->
  parsedNestedTypes s ⊆ parsedNestedTypes s'
  /\ Forall (fun x => scanned P x = true ->
                      settled P (parsedNestedTypes s') (desc_type x)) l.
Proof.
  intros Hf. revert s. induction l as [|x l IH]; intros s.
  - intros [= <-]. split; [done|constructor].
  - cbn [forEach]. destruct (f x s) as [s1| |] eqn:Hx; [|done..].
    cbn [mbind Outcome_bind]. intros Hl.
    destruct (Hf _ _ _ Hx) as [H1 Hq]. destruct (IH _ Hl) as [H2 Hall].
    split; [by etrans|]. constructor; [|done].
    intros Hs. eapply settled_mono; eauto.
Qed.

Lemma forEach_fixed {A S : Type} (l : list A) (f : A -> S -> Outcome S) s :
  Forall (fun x => f x s = Ret s) l -> forEach l f s = Ret s.
Proof.
  induction 1 as [|x l Hx _ IH]; [done|]. cbn [forEach]. by rewrite Hx.
Qed.

(** X8: scanning a declaration a second time changes nothing.  If a
    call of the resolver returns, a further call for the same declaration
    from the state it returned returns that very state, with any positive
    fuel: no entry is appended and no type is added. *)
Theorem dumpNestedTypes_rescan (fuel fuel' : nat)
    (declaration : option NodeId) (st st' : State) :
  dumpNestedTypes P format fuel declaration st = Ret st' ->
  dumpNestedTypes P format (S fuel') declaration st' = Ret st'.
Proof.
  destruct fuel as [|fuel]; [done|]. cbn [dumpNestedTypes].
  destruct declaration as [d|]; [|done].
  unfold hasJSDocTitle.
  destruct (truthy (jsDocTitleOf P (Some d))).
  { intros [= <-]. cbn [parsedNestedTypes nestedTypeList].
    by rewrite (set_add_absorb _ _ (set_add_elem _ _)). }
  destruct st as [nl set]. cbn [parsedNestedTypes nestedTypeList].
  intros Hrun. apply forEach_settles in Hrun as [_ Hall].
  - destruct st' as [nl' set']. cbn [parsedNestedTypes nestedTypeList] in *.
    apply forEach_fixed. eapply Forall_impl; [exact Hall|].
    intros desc Hq. cbn beta in Hq. unfold scanned in Hq.
    fold (typeNameOf P (desc_type desc)).
    destruct (desc_isTypeNode desc); [|done]. cbn [negb andb] in *.
    destruct (truthy (typeNameOf P (desc_type desc))); [|done].
    cbn [negb andb] in *. destruct (bool_decide _); [done|].
    cbn [parsedNestedTypes nestedTypeList].
    unfold settled in Hq. by rewrite Hq.
  - clear. intros desc [nl set] s' Hx.
    fold (typeNameOf P (desc_type desc)) in Hx. unfold scanned.
    destruct (desc_isTypeNode desc); cbn [negb andb] in *;
      [|by injection Hx as <-].
    destruct (truthy (typeNameOf P (desc_type desc))); cbn [negb andb] in *;
      [|by injection Hx as <-].
    destruct (bool_decide _); cbn [negb] in *; [by injection Hx as <-|].
    cbn [parsedNestedTypes nestedTypeList] in Hx.
    destruct (isTarget P (desc_type desc) set) as [target set1] eqn:Htarget.
    pose proof (isTarget_incl P _ _ _ _ Htarget) as Hincl.
    pose proof (isTarget_settles _ _ _ _ Htarget) as Hsettled.
    destruct target; cbn [negb] in Hx.
    2:{ injection Hx as <-. by cbn. }
    assert (parsedNestedTypes
              (mkState (nl ++ [nestedEntry P format
                                 (getSymbolByType P (desc_type desc))
                                 (orEmpty (typeNameOf P (desc_type desc)))])
                 (set_add (desc_type desc) set1))
            ⊆ parsedNestedTypes s') as Hgrow.
    { destruct (isUnionOrIntersection P (desc_type desc)).
      - match type of Hx with forEach ?l ?f ?s1 = _ =>
          pose proof (forEach_grows l f s1) as Hg end.
        rewrite Hx in Hg. apply Hg. intros sub s2.
        destruct (getDeclarationBySymbol P (getSymbolByType P sub));
          [apply dumpNestedTypes_grows|by cbn].
      - destruct (type_isInterface _); [|by injection Hx as <-].
        destruct (_ ≫= _) as [properties|]; [|done].
        match type of Hx with forEach ?l ?f ?s1 = _ =>
          pose proof (forEach_grows l f s1) as Hg end.
        rewrite Hx in Hg. apply Hg. intros a s2. apply dumpNestedTypes_grows. }
    cbn [parsedNestedTypes] in Hgrow. split.
    + etrans; [exact Hincl|]. etrans; [apply set_add_incl|exact Hgrow].
    + intros _. eapply settled_mono; [exact Hsettled|exact Hgrow].
Qed.

(** X9: the resolver only appends.  The nested-type list and the visited
    set it returns extend the ones it was given, in their order, and it
    appends no more entries than it adds types. *)
Theorem dumpNestedTypes_appends (fuel : nat) (declaration : option NodeId)
    (st st' : State) :
  dumpNestedTypes P format fuel declaration st = Ret st' ->
  nestedTypeList st `prefix_of` nestedTypeList st'
  /\ parsedNestedTypes st `prefix_of` parsedNestedTypes st'
  /\ length (nestedTypeList st') - length (nestedTypeList st)
     <= length (parsedNestedTypes st') - length (parsedNestedTypes st).
Proof.
  intros Hret.
  assert (partial (dumpNestedTypes P format fuel declaration st)
            (fun s =>
               nestedTypeList st `prefix_of` nestedTypeList s
               /\ parsedNestedTypes st `prefix_of` parsedNestedTypes s
               /\ length (nestedTypeList s) + length (parsedNestedTypes st)
                  <= length (parsedNestedTypes s) + length (nestedTypeList st)))
    as Hp.
  { apply (dumpNestedTypes_inv P format
             (fun s =>
                nestedTypeList st `prefix_of` nestedTypeList s
                /\ parsedNestedTypes st `prefix_of` parsedNestedTypes s
                /\ length (nestedTypeList s) + length (parsedNestedTypes st)
                   <= length (parsedNestedTypes s) + length (nestedTypeList st)));
      cbn [nestedTypeList parsedNestedTypes].
    - intros nl set d (Hn & Hs & Hlen) _. split_and!; [done| |].
      + unfold set_add. destruct (set_has _ set); [done|].
        by apply prefix_app_r.
      + unfold set_add. destruct (set_has _ set); [done|].
        rewrite length_app. cbn. lia.
    - intros nl set t (Hn & Hs & Hlen) Hfresh _.
      apply set_has_false in Hfresh. unfold set_add. rewrite Hfresh.
      split_and!; [by apply prefix_app_r..|].
      rewrite !length_app. cbn. lia.
    - split_and!; [done..|lia]. }
  rewrite Hret in Hp. destruct Hp as (Hn & Hs & Hlen).
  split_and!; [done..|lia].
Qed.

End MoreResolverFacts.

Lemma dumpNestedTypes_dumps_dumpable_witness :
  exists st',
    dumpNestedTypes Cyclic.cyclic_program Cyclic.cyclic_format 3 (Some 1)
      (mkState [] []) = Ret st'
    /\ exists ts,
         nestedTypeList st'
         = [] ++ (entryOfType Cyclic.cyclic_program Cyclic.cyclic_format <$> ts)
         /\ Forall (dumpable Cyclic.cyclic_program) ts
         /\ Forall nestedEntryShape
              (entryOfType Cyclic.cyclic_program Cyclic.cyclic_format <$> ts).
Proof.
  eexists. split; [vm_compute; reflexivity|].
  apply (dumpNestedTypes_dumps_dumpable Cyclic.cyclic_program
           Cyclic.cyclic_format 3 (Some 1) (mkState [] [])).
  vm_compute. reflexivity.
Defined.

Lemma dumpNestedTypes_rescan_witness :
  exists st',
    dumpNestedTypes Cyclic.cyclic_program Cyclic.cyclic_format 3 (Some 1)
      (mkState [] []) = Ret st'
    /\ length (nestedTypeList st') = 2
    /\ dumpNestedTypes Cyclic.cyclic_program Cyclic.cyclic_format 1 (Some 1) st'
       = Ret st'.
Proof.
  eexists. split; [vm_compute; reflexivity|]. split; [reflexivity|].
  apply (dumpNestedTypes_rescan Cyclic.cyclic_program Cyclic.cyclic_format
           3 0 (Some 1) (mkState [] [])).
  vm_compute. reflexivity.
Defined.

Lemma dumpNestedTypes_appends_witness :
  exists st',
    dumpNestedTypes Cyclic.cyclic_program Cyclic.cyclic_format 3 (Some 3)
      (mkState [] [1]) = Ret st'
    /\ [] `prefix_of` nestedTypeList st'
    /\ [1] `prefix_of` parsedNestedTypes st'
    /\ length (nestedTypeList st') - 0 <= length (parsedNestedTypes st') - 1.
Proof.
  eexists. split; [vm_compute; reflexivity|].
  apply (dumpNestedTypes_appends Cyclic.cyclic_program Cyclic.cyclic_format
           3 (Some 3) (mkState [] [1])).
  vm_compute. reflexivity.
Defined.

(** ** Properties and parameters *)

Lemma getSymbolTags_returns sym strict :
  (forall tag, tag ∈ sym_jsDocTags sym -> info_text tag <> Some []) ->
  exists tags, getSymbolTags sym strict = Ret tags.
Proof.
  intros Hall. unfold getSymbolTags.
  change (mapM _ (sym_jsDocTags sym))
    with (mapM tagOfInfo (sym_jsDocTags sym)).
  destruct (mapM_tagOfInfo_outcome (sym_jsDocTags sym))
    as [[_ (tag & Hin & Htag)]|(tags0 & -> & _)]; [by apply Hall in Hin|].
  cbn [mbind Outcome_bind].
  destruct (negb strict); [|by eexists].
  destruct (head _); [|by eexists]. destruct (_ && _); by eexists.
Qed.

Section MoreBuilderFacts.

Variable P : Program.
Variables format toSingleLine escape : string -> string.
Variable parseTokens : string -> list Token.
Variable printTokens : list Token -> string.

Local Abbreviation getPropertySchema' :=
  (getPropertySchema P format toSingleLine escape parseTokens printTokens).
Local Abbreviation getFunctionSchema' :=
  (getFunctionSchema P format toSingleLine escape parseTokens printTokens).
Local Abbreviation getParameterSchema' :=
  (getParameterSchema P format toSingleLine escape parseTokens printTokens).
Local Abbreviation getDisplayTypeWithLink' :=
  (getDisplayTypeWithLink P toSingleLine escape parseTokens printTokens).



Lemma mapState_Forall2 {A B : Type} (f : A -> State -> Outcome (B * State))
    (g : A -> State -> Outcome State) (R : A -> B -> Prop) l st ys st' :
  (forall x s y s', f x s = Ret (y, s') -> g x s = Ret s' /\ R x y) ->
  mapState f l st = Ret (ys, st') ->
  Forall2 R l ys /\ forEach l g st = Ret st'.
Proof.
  intros Hf. revert st ys. induction l as [|x l IH]; intros st ys.
  - intros [= <- <-]. split; [constructor|done].
  - cbn [mapState forEach].
    destruct (f x st) as [[y s1]| |] eqn:Hx; cbn [mbind Outcome_bind]; [|done..].
    destruct (mapState f l s1) as [[ys' s2]| |] eqn:Hl;
      cbn [mbind Outcome_bind]; [|done..].
    intros [= <- <-]. destruct (Hf _ _ _ _ Hx) as [-> HR].
    destruct (IH _ _ Hl) as [Hall Hg]. cbn [mbind Outcome_bind].
    split; [by constructor|done].
Qed.

(** X11: [getFunctionSchema] lists the parameters of the declaration one
    by one and in their order, none dropped and none added; each entry
    has the parameter's name, optionality and tags, and for
    [initializerText] the initializer of the parameter, before the value
    of a [default] or [defaultValue] tag, before [null].  The
    accumulators it leaves are those of scanning the parameters in that
    order. *)
Theorem getFunctionSchema_params (fuel : nat) (declaration : NodeId)
    (strictComment : bool) (linkFormatter : LinkFormatter) (st st' : State)
    (params : list PropertyType) (returns : string) :
  getFunctionSchema' fuel declaration strictComment linkFormatter st
  = Ret (params, returns, st') ->
  Forall2 (describesParameter P strictComment)
    (node_parameters (nodes P declaration)) params
  /\ forEach (node_parameters (nodes P declaration))
       (fun para => dumpNestedTypes P format fuel (Some para)) st
     = Ret st'.
Proof.
  unfold getFunctionSchema.
  destruct (mapState _ _ _) as [[ps s1]| |] eqn:Hm; cbn [mbind Outcome_bind];
    [|done..].
  intros [= <- _ <-]. revert Hm. apply mapState_Forall2.
  clear. intros para s p s'. unfold getParameterSchema.
  destruct (dumpNestedTypes P format fuel (Some para) s) as [s1| |];
    cbn [mbind Outcome_bind]; [|done..].
  destruct (node_symbol (nodes P para)) as [sym|] eqn:Hsym; [|done].
  destruct (getSymbolTags (symbols P sym) strictComment) as [tags| |] eqn:Ht;
    cbn [mbind Outcome_bind]; [|done..].
  intros [= <- <-]. split; [done|].
  unfold describesParameter. cbn. split_and!; [done..|]. by exists sym, tags.
Qed.

(** X12: the type text is left as the scratch parse prints it when
    there is nothing to link: no type visited yet, a link formatter that
    gives no link, or no identifier of the text that a visited type is
    named after.  In any case the tokens that are no identifiers are kept
    and no token is added or removed. *)
Theorem getDisplayTypeWithLink_unlinked (originTypeText : string)
    (nl : SchemaList) (parsed : list TypeId) (lf : LinkFormatter) :
  let tokens := parseTokens (toSingleLine (escape originTypeText)) in
  let plain := printTokens tokens in
  getDisplayTypeWithLink' originTypeText nl [] lf = plain
  /\ ((forall info, truthy (lf info) = false) ->
      getDisplayTypeWithLink' originTypeText nl parsed lf = plain)
  /\ ((forall name t,
         Identifier name ∈ tokens -> t ∈ parsed ->
         typeNameOf P t <> Some name) ->
      getDisplayTypeWithLink' originTypeText nl parsed lf = plain)
  /\ exists tokens',
       getDisplayTypeWithLink' originTypeText nl parsed lf
       = printTokens tokens'
       /\ Forall2 (fun a b => match a with
                              | Identifier _ => exists s, b = Identifier s
                              | OtherToken _ => b = a
                              end) tokens tokens'.
Proof.
  intros tokens plain. unfold getDisplayTypeWithLink. fold tokens.
  assert (forall set,
            (forall name, Identifier name ∈ tokens ->
                          linkIdentifier P name nl lf set = name) ->
            transformToken P nl set lf <$> tokens = tokens) as Hid.
  { intros set. induction tokens as [|tok toks IH]; [done|]. intros H.
    cbn [fmap list_fmap]. f_equal.
    - destruct tok as [name|other]; [|done]. cbn. f_equal. apply H. by left.
    - apply IH. intros name Hin. apply H. by right. }
  split_and!.
  - by rewrite Hid.
  - intros Hlf. rewrite Hid; [done|]. intros name _.
    induction parsed as [|t parsed' IH]; [done|]. cbn [linkIdentifier].
    by rewrite linkOfParsedType_no_link.
  - intros Hnames. rewrite Hid; [done|]. intros name Hin.
    assert (forall t, t ∈ parsed -> typeNameOf P t <> Some name) as Hn
      by (intros t; by apply Hnames).
    clear Hnames. induction parsed as [|t parsed' IH]; [done|].
    cbn [linkIdentifier].
    rewrite linkOfParsedType_other_name by (apply Hn; left).
    apply IH. intros t' Ht'. apply Hn. by right.
  - eexists. split; [done|]. apply Forall2_fmap_r, Forall_Forall2_diag.
    apply Forall_forall. intros [name|other] _; cbn; eauto.
Qed.

End MoreBuilderFacts.


Lemma getFunctionSchema_params_witness :
  exists params st',
    Button.run_getFunctionSchema 5 6 false Demo.linkFormatter (mkState [] [])
    = Ret (params, "void", st')
    /\ prop_initializerText <$> params = [Some None; Some (Some "0")]
    /\ Forall2 (describesParameter Button.button_program false) [7; 8] params.
Proof.
  eexists _, _. split; [vm_compute; reflexivity|]. split; [reflexivity|].
  eapply (getFunctionSchema_params Button.button_program Demo.demo_format
            Demo.toSingleLine Demo.escape Demo.parseTokens Demo.printTokens
            5 6 false Demo.linkFormatter (mkState [] [])).
  vm_compute. reflexivity.
Defined.

Lemma getDisplayTypeWithLink_unlinked_witness :
  getDisplayTypeWithLink Button.button_program Demo.toSingleLine Demo.escape
    Demo.parseTokens Demo.printTokens "Array<Width>" [] [2]
    Demo.linkFormatter
  = "Array<Width>".
Proof.
  destruct (getDisplayTypeWithLink_unlinked Button.button_program
              Demo.toSingleLine Demo.escape Demo.parseTokens Demo.printTokens
              "Array<Width>" [] [2] Demo.linkFormatter) as (_ & _ & H & _).
  rewrite H; [reflexivity|].
  intros name t Hin Ht. apply list_elem_of_singleton in Ht as ->.
  vm_compute in Hin.
  apply elem_of_cons in Hin as [[= ->]|Hin]; [done|].
  apply elem_of_cons in Hin as [[=]|Hin].
  apply elem_of_cons in Hin as [[= ->]|Hin]; [done|].
  apply elem_of_cons in Hin as [[=]|Hin].
  by apply elem_of_nil in Hin.
Defined.

(** ** Declarations without a title *)

Lemma sort_insert_filter {A : Type} (key : A -> Z) (p : A -> Prop)
    `{!forall a, Decision (p a)} x l :
  Sorted (fun a b => (key a <= key b)%Z) l ->
  filter p (sort_insert (compareKey key) x l)
  = if decide (p x) then sort_insert (compareKey key) x (filter p l)
    else filter p l.
Proof.
  intros Hs. apply Sorted_StronglySorted in Hs; [|intros a b c; lia].
  induction Hs as [|y l Hl IH Hall]; cbn [sort_insert].
  - rewrite filter_cons, filter_nil. by case_decide.
  - unfold compareKey at 1.
    destruct (Z.ltb_spec 0 (key x - key y)) as [Hlt|Hge].
    + rewrite !(filter_cons _ y), IH.
      destruct (decide (p y)); [|done].
      destruct (decide (p x)); [|done].
      cbn [sort_insert]. unfold compareKey at 2.
      by rewrite (proj2 (Z.ltb_lt _ _) Hlt).
    + rewrite (filter_cons _ x). destruct (decide (p x)); [|done].
      assert (Forall (fun b => (key x <= key b)%Z) (filter p (y :: l))) as Hf.
      { apply Forall_forall. intros b [_ Hb]%list_elem_of_filter.
        apply elem_of_cons in Hb as [->|Hb]; [lia|].
        rewrite Forall_forall in Hall. specialize (Hall b Hb). cbn in Hall.
        lia. }
      destruct (filter p (y :: l)) as [|z l'] eqn:E; [done|].
      cbn [sort_insert]. unfold compareKey at 1.
      apply Forall_cons in Hf as [Hz _].
      by rewrite (proj2 (Z.ltb_ge _ _)) by lia.
Qed.

Lemma js_sort_filter {A : Type} (key : A -> Z) (p : A -> Prop)
    `{!forall a, Decision (p a)} l :
  filter p (js_sort (compareKey key) l) = js_sort (compareKey key) (filter p l).
Proof.
  induction l as [|x l IH]; [done|]. unfold js_sort in *. cbn [foldr].
  rewrite sort_insert_filter by apply (js_sort_sorted key).
  rewrite filter_cons. destruct (decide (p x)); [|done].
  cbn [foldr]. by rewrite IH.
Qed.

Lemma forEach_filter {A S : Type} (p : A -> Prop) `{!forall a, Decision (p a)}
    (f : A -> S -> Outcome S) l s :
  Forall (fun x => ~ p x -> forall s, f x s = Ret s) l ->
  forEach l f s = forEach (filter p l) f s.
Proof.
  intros Hl. revert s. induction Hl as [|x l Hx _ IH]; intros s; [done|].
  rewrite filter_cons. destruct (decide (p x)) as [Hp|Hp]; cbn [forEach].
  - destruct (f x s); cbn [mbind Outcome_bind]; [apply IH|done..].
  - rewrite (Hx Hp). cbn [mbind Outcome_bind]. apply IH.
Qed.

Section MoreAssemblerFacts.

Variables format toSingleLine escape : string -> string.
Variable parseTokens : string -> list Token.
Variable printTokens : list Token -> string.
Variable defaultTypeMap : gmap string DefaultType.
Variable defaultLinkFormatter : LinkFormatter.

Local Abbreviation generateSchema' :=
  (generateSchema format toSingleLine escape parseTokens printTokens
     defaultTypeMap defaultLinkFormatter).
Local Abbreviation buildAll' :=
  (buildAll format toSingleLine escape parseTokens printTokens
     defaultTypeMap defaultLinkFormatter).
Local Abbreviation buildDeclaration' :=
  (buildDeclaration format toSingleLine escape parseTokens printTokens).

Lemma buildDeclaration_untitled P fuel defaultT strict sorter lf d b :
  node_jsDocs (nodes P d) <> None -> ~ hasTitle P d ->
  buildDeclaration' P fuel defaultT strict sorter lf d b = Ret b.
Proof.
  unfold buildDeclaration, hasTitle, jsDocTitleOf. cbn [mbind option_bind].
  destruct (node_jsDocs (nodes P d)) as [jsDocs|]; [|done].
  cbn [mbind option_bind]. intros _ Hno.
  destruct (getDeclarationTags jsDocs) as [title tags]. cbn [fst] in Hno.
  by destruct (truthy title).
Qed.

(** X13: a declaration without a title leaves no trace.  Where every
    declaration of the file has [getJsDocs], the result is the one for
    the file without its untitled declarations, errors included; a file
    none of whose declarations has a title gives the empty list, or the
    empty map, whatever the fuel. *)
Theorem generateSchema_ignores_untitled (fuel : nat) (P : Program)
    (sourceFile : SourceFile) (config : option GenerateConfig) :
  Forall (fun d => node_jsDocs (nodes P d) <> None)
    (declarationsOf sourceFile) ->
  generateSchema' fuel P sourceFile config
  = generateSchema' fuel P (titledOnly P sourceFile) config
  /\ (Forall (fun d => ~ hasTitle P d) (declarationsOf sourceFile) ->
      generateSchema' fuel P sourceFile config
      = Ret (if from_option cfg_strictDeclarationOrder false config
             then OutputList [] else OutputMap ∅)).
Proof.
  intros Hdocs.
  assert (generateSchema' fuel P sourceFile config
          = generateSchema' fuel P (titledOnly P sourceFile) config) as Heq.
  { unfold generateSchema, titledOnly.
    cbn [sf_interfaces sf_typeAliases sf_functions].
    rewrite <- !filter_app.
    change (compareStartLine P) with (compareKey (startLine P)).
    rewrite <- js_sort_filter.
    rewrite (forEach_filter (hasTitle P)); [done|].
    apply Forall_forall. intros d Hd Hno b.
    apply buildDeclaration_untitled; [|done].
    rewrite Forall_forall in Hdocs. apply Hdocs. unfold declarationsOf.
    eapply elem_of_Permutation_proper; [|exact Hd].
    symmetry. apply js_sort_Permutation. }
  split; [done|]. intros Hnone. rewrite Heq.
  unfold generateSchema, titledOnly.
  cbn [sf_interfaces sf_typeAliases sf_functions].
  rewrite <- !filter_app. fold (declarationsOf sourceFile).
  assert (forall l, Forall (fun d => ~ hasTitle P d) l ->
                    filter (hasTitle P) l = []) as Hnil.
  { induction 1 as [|d l Hd _ IH]; [done|]. by rewrite filter_cons_False. }
  rewrite (Hnil _ Hnone).
  cbn. by destruct (from_option _ _ _).
Qed.

Lemma dumpNestedTypes_keeps_dumpable P fuel declaration st :
  nested_dumpable P format st ->
  partial (dumpNestedTypes P format fuel declaration st) (nested_dumpable P format).
Proof.
  apply (dumpNestedTypes_inv_dumpable P format (nested_dumpable P format)).
  - intros nl set d (ts & Hnl & Hnd & Hsub & Hall) _. exists ts.
    cbn [nestedTypeList parsedNestedTypes] in *. split_and!; [done..| |done].
    etrans; [exact Hsub|apply set_add_incl].
  - intros nl set t (ts & Hnl & Hnd & Hsub & Hall) Hfresh Ht.
    exists (ts ++ [t]). cbn [nestedTypeList parsedNestedTypes] in *.
    split_and!.
    + by rewrite Hnl, fmap_app.
    + apply NoDup_app. split_and!; [done| |apply NoDup_singleton].
      intros x Hx ->%list_elem_of_singleton. apply Hfresh. by apply Hsub.
    + intros x [Hx| ->%list_elem_of_singleton]%elem_of_app.
      * by apply set_add_incl, Hsub.
      * apply set_add_elem.
    + apply Forall_app. split; [done|]. by constructor.
Qed.

(** X14: in the list that [generateSchema] returns in strict-order mode,
    the nested-type entries that follow the top-level entries are the
    entries of pairwise distinct types, each of them dumpable: named,
    not [Omit], with an untitled declaration outside [/node_modules/],
    and an interface, enum, union, intersection or declared alias; each
    has a non-empty title and the single tag [title]. *)
Theorem generateSchema_nested_entries (fuel : nat) (P : Program)
    (sourceFile : SourceFile) (config : option GenerateConfig)
    (list : SchemaList) :
  from_option cfg_strictDeclarationOrder false config = true ->
  generateSchema' fuel P sourceFile config = Ret (OutputList list) ->
  exists top ts,
    list = top ++ (entryOfType P format <$> ts)
    /\ Forall (fun e => ~ isNestedEntry e) top
    /\ NoDup ts
    /\ Forall (dumpable P) ts
    /\ Forall nestedEntryShape (entryOfType P format <$> ts).
Proof.
  intros Hstrict H.
  apply generateSchema_Ret in H as (b & Hb & Hout). rewrite Hstrict in Hout.
  injection Hout as ->. unfold buildAll in Hb.
  pose proof (forEach_buildDeclaration _ _ _ _ _ _ _ _ _ _ _ _ _ _ Hb)
    as (top & Hl & _ & Hn & _).
  cbn [schemaList app] in Hl. subst top.
  match type of Hb with
  | ?o = _ =>
      assert (partial o (fun b => nested_dumpable P format (build_state b))) as Hk
  end.
  { apply (forEach_partial (fun b => nested_dumpable P format (build_state b))).
    - exists []. split_and!; [done|constructor|done|constructor].
    - intros d b0 _ Hb0.
      apply (buildDeclaration_keeps P format toSingleLine escape parseTokens
               printTokens (nested_dumpable P format)); [|done].
      intros. by apply dumpNestedTypes_keeps_dumpable. }
  rewrite Hb in Hk. destruct Hk as (ts & Hnl & Hnd & _ & Hall).
  exists (schemaList b), ts. rewrite Hnl. split_and!; [done..|].
  apply Forall_fmap. eapply Forall_impl; [exact Hall|].
  intros t Ht. by apply entryOfType_shape.
Qed.

(** ** The property sorter *)

Lemma sortEntry_nested sorter e : isNestedEntry e -> sortEntry sorter e = e.
Proof.
  destruct e as [title schema]. unfold isNestedEntry, sortEntry. cbn.
  destruct schema; try done. by destruct sorter.
Qed.

Lemma sortEntry_nested_list sorter nl :
  Forall isNestedEntry nl -> sortEntry sorter <$> nl = nl.
Proof.
  induction 1 as [|e nl He _ IH]; [done|]. cbn [fmap list_fmap].
  rewrite sortEntry_nested by done. f_equal. apply IH.
Qed.

Lemma applySorter_nestedMap sorter nl :
  Forall isNestedEntry nl -> applySorter sorter <$> nestedMap nl = nestedMap nl.
Proof.
  intros Hn. apply map_eq. intros title.
  rewrite lookup_fmap, nestedMap_lookup. unfold lastWithTitle.
  destruct (last (filter _ (storable nl))) as [e|] eqn:El; [|done]. cbn.
  assert (isNestedEntry e) as He.
  { apply last_Some_elem_of in El. apply list_elem_of_filter in El as [_ Hin].
    apply list_elem_of_filter in Hin as [_ Hin].
    rewrite Forall_forall in Hn. by apply Hn. }
  f_equal. destruct e as [t schema]. unfold isNestedEntry in He. cbn in *.
  destruct schema; try done. by destruct sorter.
Qed.

Lemma buildDeclaration_sorter P fuel defaultT strict sorter lf d b :
  buildDeclaration' P fuel defaultT strict sorter lf d (sortBuild sorter b)
  = mapOutcome (sortBuild sorter)
      (buildDeclaration' P fuel defaultT strict None lf d b).
Proof.
  unfold buildDeclaration.
  destruct (node_jsDocs (nodes P d)) as [jsDocs|]; [|done].
  destruct (getDeclarationTags jsDocs) as [title tags].
  destruct (negb (truthy title)); [done|].
  cbn [build_state sortBuild].
  match goal with
  | |- (?m ≫= _) = mapOutcome _ (?m ≫= _) =>
      destruct m as [[schema st']| |]; cbn [mbind Outcome_bind mapOutcome]
  end; [|done..].
  unfold sortBuild. cbn [schemaList schemaMap build_state].
  f_equal. f_equal.
  - by rewrite fmap_app.
  - unfold js_set. case_bool_decide; [done|]. by rewrite fmap_insert.
Qed.

Lemma forEach_buildDeclaration_sorter P fuel defaultT strict sorter lf ds b :
  forEach ds (buildDeclaration' P fuel defaultT strict sorter lf)
    (sortBuild sorter b)
  = mapOutcome (sortBuild sorter)
      (forEach ds (buildDeclaration' P fuel defaultT strict None lf) b).
Proof.
  revert b. induction ds as [|d ds IH]; intros b; [done|]. cbn [forEach].
  rewrite buildDeclaration_sorter.
  destruct (buildDeclaration' P fuel defaultT strict None lf d b) as [b1| |];
    cbn [mbind Outcome_bind mapOutcome]; [apply IH|done..].
Qed.

(** X15: the property sorter changes nothing but the order of the
    properties inside each schema.  The result with a sorter is the
    result without one to which the sorter is applied schema by schema:
    the same titles in the same order, the same nested-type entries, and
    the same error if there is one.  Reading a configuration through its
    own sorter gives back the result for that configuration. *)
Theorem generateSchema_sorter_commutes (fuel : nat) (P : Program)
    (sourceFile : SourceFile) (config : option GenerateConfig)
    (sorter : option (PropertyType -> PropertyType -> Z)) :
  generateSchema' fuel P sourceFile (withPropertySorter sorter config)
  = mapOutcome (sortOutput sorter)
      (generateSchema' fuel P sourceFile (withPropertySorter None config))
  /\ generateSchema' fuel P sourceFile
       (withPropertySorter (config ≫= cfg_propertySorter) config)
     = generateSchema' fuel P sourceFile config.
Proof.
  split; [|by destruct config].
  unfold generateSchema, withPropertySorter.
  cbn [mbind option_bind from_option cfg_defaultTypeMap cfg_strictComment
       cfg_propertySorter cfg_linkFormatter cfg_strictDeclarationOrder].
  change (mkBuild [] ∅ (mkState [] []))
    with (sortBuild sorter (mkBuild [] ∅ (mkState [] []))) at 1.
  rewrite forEach_buildDeclaration_sorter.
  match goal with
  | |- context [mapOutcome (sortBuild sorter) ?o] =>
      assert (partial o
                (fun b => Forall isNestedEntry (nestedTypeList (build_state b))))
        as Hk;
      [|destruct o as [b| |]; cbn [mbind Outcome_bind mapOutcome]; [|done..]]
  end.
  { apply (forEach_partial
             (fun b => Forall isNestedEntry (nestedTypeList (build_state b))));
      [by constructor|].
    intros d b0 _ Hb0.
    apply (buildDeclaration_keeps P format toSingleLine escape parseTokens
             printTokens (fun st => Forall isNestedEntry (nestedTypeList st)));
      [|done].
    intros. by apply dumpNestedTypes_keeps_nested. }
  cbn [partial] in Hk. unfold sortBuild. cbn [build_state schemaList schemaMap].
  destruct (0 <? length (nestedTypeList (build_state b)));
    destruct (from_option cfg_strictDeclarationOrder false config);
    cbn [mapOutcome sortOutput]; f_equal; f_equal.
  - by rewrite fmap_app, (sortEntry_nested_list _ _ Hk).
  - by rewrite map_fmap_union, (applySorter_nestedMap _ _ Hk).
Qed.

(** ** When the extraction returns *)

Lemma forEach_returns {A S : Type} (l : list A) (f : A -> S -> Outcome S) s :
  Forall (fun x => forall s, exists s', f x s = Ret s') l ->
  exists s', forEach l f s = Ret s'.
Proof.
  intros Hl. revert s. induction Hl as [|x l Hx _ IH]; intros s; [by eexists|].
  cbn [forEach]. destruct (Hx s) as [s1 ->]. cbn [mbind Outcome_bind]. apply IH.
Qed.

Section Returns.

Variable P : Program.
Variable fuel : nat.
Hypothesis dump_returns :
  forall declaration st,
    exists st', dumpNestedTypes P format fuel declaration st = Ret st'.
Hypothesis tags_ok : tags_well_formed P.

Local Abbreviation getPropertySchema' :=
  (getPropertySchema P format toSingleLine escape parseTokens printTokens).
Local Abbreviation collectProperties' :=
  (collectProperties format toSingleLine escape parseTokens printTokens P).
Local Abbreviation getFunctionSchema' :=
  (getFunctionSchema P format toSingleLine escape parseTokens printTokens).
Local Abbreviation getParameterSchema' :=
  (getParameterSchema P format toSingleLine escape parseTokens printTokens).

Lemma getPropertySchema_returns sym defaultT strict lf st :
  symbol_declared P sym ->
  exists r, getPropertySchema' fuel sym defaultT strict lf st = Ret r.
Proof.
  unfold symbol_declared, getPropertySchema.
  destruct (sym_declarations (symbols P sym)) as [|declaration ds] eqn:Hd;
    [done|]. intros _. cbn [head].
  destruct (extractFromPropertyText _) as [extract|]; [|by eexists].
  destruct (getSymbolTags_returns (symbols P sym) strict (tags_ok sym))
    as [tags ->].
  cbn [mbind Outcome_bind]. destruct (existsb _ tags); [|by eexists].
  destruct (dump_returns (Some declaration) st) as [st' ->]. by eexists.
Qed.

Lemma collectProperties_returns defaultT strict lf properties data st :
  Forall (fun a => exists s, a = Some s /\ symbol_declared P s) properties ->
  exists r,
    collectProperties' fuel defaultT strict lf properties data st = Ret r.
Proof.
  intros Hl. revert data st.
  induction Hl as [|a l (s & -> & Hs) _ IH]; intros data st; [by eexists|].
  cbn [collectProperties].
  destruct (getPropertySchema_returns s defaultT strict lf st Hs)
    as [[schema st'] ->].
  cbn [mbind Outcome_bind]. apply IH.
Qed.

Lemma getParameterSchema_returns strict lf para st :
  node_symbol (nodes P para) <> None ->
  exists r, getParameterSchema' fuel strict lf para st = Ret r.
Proof.
  unfold getParameterSchema. intros Hsym.
  destruct (dump_returns (Some para) st) as [st' ->]. cbn [mbind Outcome_bind].
  destruct (node_symbol (nodes P para)) as [sym|]; [|done].
  destruct (getSymbolTags_returns (symbols P sym) strict (tags_ok sym))
    as [tags ->].
  by eexists.
Qed.

Lemma getFunctionSchema_returns strict lf declaration st :
  Forall (fun para => node_symbol (nodes P para) <> None)
    (node_parameters (nodes P declaration)) ->
  exists r, getFunctionSchema' fuel declaration strict lf st = Ret r.
Proof.
  unfold getFunctionSchema. intros Hl.
  assert (exists r,
            mapState (getParameterSchema' fuel strict lf)
              (node_parameters (nodes P declaration)) st = Ret r) as [[ps s] ->].
  { revert st. induction Hl as [|para l Hpara _ IH]; intros st; [by eexists|].
    cbn [mapState].
    destruct (getParameterSchema_returns strict lf para st Hpara)
      as [[p s1] ->].
    cbn [mbind Outcome_bind]. destruct (IH s1) as [[ps s2] ->]. by eexists. }
  by eexists.
Qed.

Lemma buildDeclaration_returns defaultT strict sorter lf declaration b :
  declaration_well_formed P declaration ->
  exists b',
    buildDeclaration' P fuel defaultT strict sorter lf declaration b = Ret b'.
Proof.
  unfold declaration_well_formed, buildDeclaration. intros [Hdocs Hwf].
  destruct (node_jsDocs (nodes P declaration)) as [jsDocs|]; [|done].
  destruct (getDeclarationTags jsDocs) as [title tags].
  destruct (negb (truthy title)); [by eexists|].
  destruct (functionNodeOf P declaration) as [fn|].
  - destruct (getFunctionSchema_returns strict lf fn (build_state b) Hwf)
      as [[[params returns] st'] ->].
    by eexists.
  - destruct Hwf as [Htype Hiface].
    destruct (bool_decide (node_kind (nodes P declaration) = InterfaceDeclaration))
      eqn:Hk; cbn [andb].
    + apply bool_decide_eq_true in Hk.
      destruct (Hiface Hk) as (properties & Hp & Hall).
      destruct (hasTagNamed "notExtends" tags).
      * rewrite Hp.
        destruct (collectProperties_returns defaultT strict lf properties []
                    (build_state b) Hall) as [[data st'] ->].
        by eexists.
      * match goal with
        | |- context [collectProperties' _ _ _ _ ?l _ _] =>
            destruct (collectProperties_returns defaultT strict lf l []
                        (build_state b)) as [[data st'] ->]
        end; [|by eexists].
        apply Forall_fmap. eapply Forall_impl; [exact Htype|].
        intros s Hs. cbn. eauto.
    + match goal with
      | |- context [collectProperties' _ _ _ _ ?l _ _] =>
          destruct (collectProperties_returns defaultT strict lf l []
                      (build_state b)) as [[data st'] ->]
      end; [|by eexists].
      apply Forall_fmap. eapply Forall_impl; [exact Htype|].
      intros s Hs. cbn. eauto.
Qed.

End Returns.

Variable internalProject : Project.
Variable addSourceFilesAtPaths : Project -> list string -> Project.

Local Abbreviation generate' :=
  (generate format toSingleLine escape parseTokens printTokens defaultTypeMap
     defaultLinkFormatter internalProject addSourceFilesAtPaths).
Local Abbreviation projectOf' :=
  (projectOf internalProject addSourceFilesAtPaths).

(** X16: [generate] returns a schema, and raises nothing, for an entry
    file of the project when the fuel exceeds the number of types of a
    finite type graph, every interface type is declared by a node that
    has [getProperties], no JSDoc tag has an empty array for text, and
    the declarations of the file are well formed: the parameters of a
    function-shaped one have symbols and the properties of any other
    have declarations. *)
Theorem generate_returns (fuel : nat) (file : string)
    (config : option GenerateConfig) (sourceFile : SourceFile)
    (U : list TypeId) :
  let P := proj_program (projectOf' config) in
  proj_sourceFiles (projectOf' config) !! file = Some sourceFile ->
  finite_graph P U ->
  length U < fuel ->
  interfaces_declared P ->
  tags_well_formed P ->
  Forall (declaration_well_formed P) (declarationsOf sourceFile) ->
  exists out,
    generate' fuel file config = Ret (Some out)
    /\ generateSchema' fuel P sourceFile config = Ret out.
Proof.
  intros P Hfile HU Hfuel HI Htags Hwf.
  assert (forall declaration st,
            exists st', dumpNestedTypes P format fuel declaration st = Ret st')
    as Hdump.
  { intros declaration st.
    pose proof (dumpNestedTypes_halts P format U HU fuel declaration st) as Hh.
    pose proof (dumpNestedTypes_no_TypeError P format HI fuel declaration st)
      as He.
    destruct (dumpNestedTypes P format fuel declaration st) as [st'| |];
      [by eexists|done|].
    exfalso. apply Hh. unfold unvisited.
    pose proof (length_filter
                  (fun t => set_has t (parsedNestedTypes st) = false) U).
    lia. }
  assert (exists out, generateSchema' fuel P sourceFile config = Ret out)
    as [out Hout].
  { unfold generateSchema.
    match goal with
    | |- context [forEach ?l ?f ?s] =>
        destruct (forEach_returns l f s) as [b ->]
    end.
    - apply Forall_forall. intros d Hd b.
      apply buildDeclaration_returns; [done..|].
      rewrite Forall_forall in Hwf. apply Hwf. unfold declarationsOf.
      eapply elem_of_Permutation_proper; [|exact Hd].
      symmetry. apply js_sort_Permutation.
    - cbn [mbind Outcome_bind]. destruct (_ <? _); by eexists. }
  exists out. split; [|done]. unfold generate. rewrite Hfile.
  fold P. by rewrite Hout.
Qed.

End MoreAssemblerFacts.

(** ** The documented project *)

Lemma Button_finite : finite_graph Button.button_program [0; 2; 5].
Proof.
  intros n d Hd.
  do 9 (try destruct n as [|n]); cbn in Hd;
    repeat (apply elem_of_cons in Hd as [->|Hd]);
    try (by apply elem_of_nil in Hd); cbn;
    repeat first [by left | right].
Qed.

Lemma Button_interfaces_declared : interfaces_declared Button.button_program.
Proof.
  intros t Ht. do 6 (try destruct t as [|t]); try done; cbn; eauto.
Qed.

Lemma Button_tags_well_formed : tags_well_formed Button.button_program.
Proof.
  intros s tag Hin.
  do 8 (try destruct s as [|s]); cbn in Hin;
    repeat (apply elem_of_cons in Hin as [->|Hin]);
    try (by apply elem_of_nil in Hin); done.
Qed.

Lemma Button_well_formed :
  Forall (declaration_well_formed Button.button_program)
    (declarationsOf Button.sourceFile).
Proof.
  unfold declarationsOf.
  cbn [Button.sourceFile sf_interfaces sf_typeAliases sf_functions app].
  repeat apply Forall_cons_2; [| | |constructor];
    unfold declaration_well_formed, symbol_declared; (split; [done|]); cbn.
  - split; [repeat constructor; done|]. intros _. eexists. split; [done|].
    repeat constructor; eexists; (split; [reflexivity|done]).
  - split; [repeat constructor; done|]. intros _. eexists. split; [done|].
    repeat constructor; eexists; (split; [reflexivity|done]).
  - repeat constructor; done.
Qed.

Lemma generateSchema_ignores_untitled_witness :
  Button.run_generateSchema 5 Button.button_program Button.sourceFile None
  = Button.run_generateSchema 5 Button.button_program
      (mkSourceFile [1] [] [6]) None.
Proof.
  apply (generateSchema_ignores_untitled Demo.demo_format Demo.toSingleLine
           Demo.escape Demo.parseTokens Demo.printTokens Demo.defaultTypeMap
           Demo.linkFormatter 5 Button.button_program Button.sourceFile None).
  repeat constructor; vm_compute; discriminate.
Defined.

Lemma generateSchema_nested_entries_witness :
  exists list top ts,
    Button.run_generateSchema 5 Button.button_program Button.sourceFile
      Demo.strictConfig = Ret (OutputList list)
    /\ list = top ++ (entryOfType Button.button_program Demo.demo_format <$> ts)
    /\ Forall (fun e => ~ isNestedEntry e) top
    /\ NoDup ts
    /\ Forall (dumpable Button.button_program) ts
    /\ Forall nestedEntryShape
         (entryOfType Button.button_program Demo.demo_format <$> ts).
Proof.
  eexists.
  destruct (generateSchema_nested_entries Demo.demo_format Demo.toSingleLine
              Demo.escape Demo.parseTokens Demo.printTokens Demo.defaultTypeMap
              Demo.linkFormatter 5 Button.button_program Button.sourceFile
              Demo.strictConfig _ eq_refl ltac:(vm_compute; reflexivity))
    as (top & ts & H).
  exists top, ts. split; [vm_compute; reflexivity|exact H].
Defined.

Lemma generate_returns_witness :
  exists out, Button.run_generate 4 "/src/button.ts" None = Ret (Some out).
Proof.
  destruct (generate_returns Demo.demo_format Demo.toSingleLine Demo.escape
              Demo.parseTokens Demo.printTokens Demo.defaultTypeMap
              Demo.linkFormatter Button.button_project (fun p _ => p)
              4 "/src/button.ts" None Button.sourceFile [0; 2; 5])
    as (out & H & _).
  - vm_compute. reflexivity.
  - exact Button_finite.
  - cbn. lia.
  - exact Button_interfaces_declared.
  - exact Button_tags_well_formed.
  - exact Button_well_formed.
  - by exists out.
Defined.

(** ** What the configuration cannot change *)

Lemma forEach_project {A S T : Type} (proj : S -> T)
    (f1 f2 : A -> S -> Outcome S) (l : list A) :
  (forall x s1 s2,
     proj s1 = proj s2 ->
     mapOutcome proj (f1 x s1) = mapOutcome proj (f2 x s2)) ->
  forall s1 s2,
    proj s1 = proj s2 ->
    mapOutcome proj (forEach l f1 s1) = mapOutcome proj (forEach l f2 s2).
Proof.
  intros Hf. induction l as [|x l IH]; intros s1 s2 Hs; [by cbn; f_equal|].
  cbn [forEach]. specialize (Hf x s1 s2 Hs).
  destruct (f1 x s1) as [a1| |], (f2 x s2) as [a2| |];
    cbn [mapOutcome mbind Outcome_bind] in *; try done.
  injection Hf as Hf. by apply IH.
Qed.

Section ConfigIndependence.

Variables format toSingleLine escape : string -> string.
Variable parseTokens : string -> list Token.
Variable printTokens : list Token -> string.
Variable defaultTypeMap : gmap string DefaultType.
Variable defaultLinkFormatter : LinkFormatter.
Variable P : Program.
Variable fuel : nat.
Variable strict : bool.

Local Abbreviation generateSchema' :=
  (generateSchema format toSingleLine escape parseTokens printTokens
     defaultTypeMap defaultLinkFormatter).
Local Abbreviation buildAll' :=
  (buildAll format toSingleLine escape parseTokens printTokens
     defaultTypeMap defaultLinkFormatter).
Local Abbreviation buildDeclaration' :=
  (buildDeclaration format toSingleLine escape parseTokens printTokens P fuel).
Local Abbreviation getPropertySchema' :=
  (getPropertySchema P format toSingleLine escape parseTokens printTokens fuel).
Local Abbreviation collectProperties' :=
  (collectProperties format toSingleLine escape parseTokens printTokens P fuel).
Local Abbreviation getFunctionSchema' :=
  (getFunctionSchema P format toSingleLine escape parseTokens printTokens fuel).
Local Abbreviation getParameterSchema' :=
  (getParameterSchema P format toSingleLine escape parseTokens printTokens fuel).

Lemma getPropertySchema_state sym defaultT1 defaultT2 lf1 lf2 st :
  mapOutcome snd (getPropertySchema' sym defaultT1 strict lf1 st)
  = mapOutcome snd (getPropertySchema' sym defaultT2 strict lf2 st).
Proof.
  unfold getPropertySchema. destruct (head _) as [declaration|]; [|done].
  destruct (extractFromPropertyText _) as [extract|]; [|done].
  destruct (getSymbolTags _ _) as [tags| |]; cbn [mbind Outcome_bind]; [|done..].
  destruct (existsb _ tags); [|done].
  by destruct (dumpNestedTypes P format fuel (Some declaration) st).
Qed.

Lemma collectProperties_state defaultT1 defaultT2 lf1 lf2 properties
    data1 data2 st :
  mapOutcome snd (collectProperties' defaultT1 strict lf1 properties data1 st)
  = mapOutcome snd (collectProperties' defaultT2 strict lf2 properties data2 st).
Proof.
  revert data1 data2 st.
  induction properties as [|a l IH]; intros data1 data2 st; [done|].
  cbn [collectProperties]. destruct a as [sym|]; [|done].
  pose proof (getPropertySchema_state sym defaultT1 defaultT2 lf1 lf2 st) as H.
  destruct (getPropertySchema' sym defaultT1 strict lf1 st) as [[r1 s1]| |],
           (getPropertySchema' sym defaultT2 strict lf2 st) as [[r2 s2]| |];
    cbn [mapOutcome mbind Outcome_bind snd] in *; try done.
  injection H as ->. apply IH.
Qed.

Lemma getParameterSchema_state lf1 lf2 para st :
  mapOutcome snd (getParameterSchema' strict lf1 para st)
  = mapOutcome snd (getParameterSchema' strict lf2 para st).
Proof.
  unfold getParameterSchema.
  destruct (dumpNestedTypes P format fuel (Some para) st) as [st'| |];
    cbn [mbind Outcome_bind]; [|done..].
  destruct (node_symbol _) as [sym|]; [|done].
  by destruct (getSymbolTags _ _).
Qed.

Lemma getFunctionSchema_state lf1 lf2 declaration st :
  mapOutcome snd (getFunctionSchema' declaration strict lf1 st)
  = mapOutcome snd (getFunctionSchema' declaration strict lf2 st).
Proof.
  unfold getFunctionSchema.
  assert (forall l st,
            mapOutcome snd (mapState (getParameterSchema' strict lf1) l st)
            = mapOutcome snd (mapState (getParameterSchema' strict lf2) l st))
    as Hm.
  { clear st. induction l as [|para l IH]; intros st; [done|]. cbn [mapState].
    pose proof (getParameterSchema_state lf1 lf2 para st) as H.
    destruct (getParameterSchema' strict lf1 para st) as [[p1 s1]| |],
             (getParameterSchema' strict lf2 para st) as [[p2 s2]| |];
      cbn [mapOutcome mbind Outcome_bind snd] in *; try done.
    injection H as ->. specialize (IH s2).
    destruct (mapState (getParameterSchema' strict lf1) l s2) as [[ps1 t1]| |],
             (mapState (getParameterSchema' strict lf2) l s2) as [[ps2 t2]| |];
      cbn [mapOutcome mbind Outcome_bind snd] in *; done. }
  specialize (Hm (node_parameters (nodes P declaration)) st).
  destruct (mapState (getParameterSchema' strict lf1) _ st) as [[ps1 t1]| |],
           (mapState (getParameterSchema' strict lf2) _ st) as [[ps2 t2]| |];
    cbn [mapOutcome mbind Outcome_bind snd] in *; done.
Qed.

Lemma buildDeclaration_state defaultT1 defaultT2 sorter1 sorter2 lf1 lf2
    declaration b1 b2 :
  build_state b1 = build_state b2 ->
  mapOutcome build_state
    (buildDeclaration' defaultT1 strict sorter1 lf1 declaration b1)
  = mapOutcome build_state
      (buildDeclaration' defaultT2 strict sorter2 lf2 declaration b2).
Proof.
  intros Hb. unfold buildDeclaration. rewrite Hb.
  destruct (node_jsDocs _) as [jsDocs|]; [|done].
  destruct (getDeclarationTags jsDocs) as [title tags].
  destruct (negb (truthy title)); [by cbn; f_equal|].
  destruct (functionNodeOf P declaration) as [fn|].
  - pose proof (getFunctionSchema_state lf1 lf2 fn (build_state b2)) as H.
    destruct (getFunctionSchema' fn strict lf1 _) as [[[ps1 r1] s1]| |],
             (getFunctionSchema' fn strict lf2 _) as [[[ps2 r2] s2]| |];
      cbn [mapOutcome mbind Outcome_bind snd build_state] in *; done.
  - assert (forall properties,
              mapOutcome build_state
                ('(schema, st') ←
                   ('(data, st') ←
                      collectProperties' defaultT1 strict lf1 properties []
                        (build_state b2);
                    Ret (InterfaceSchema tags data, st'));
                 Ret (mkBuild
                        (schemaList b1
                           ++ [mkEntry (orEmpty title)
                                 (applySorter sorter1 schema)])
                        (js_set (orEmpty title) (applySorter sorter1 schema)
                           (schemaMap b1)) st'))
              = mapOutcome build_state
                  ('(schema, st') ←
                     ('(data, st') ←
                        collectProperties' defaultT2 strict lf2 properties []
                          (build_state b2);
                      Ret (InterfaceSchema tags data, st'));
                   Ret (mkBuild
                          (schemaList b2
                             ++ [mkEntry (orEmpty title)
                                   (applySorter sorter2 schema)])
                          (js_set (orEmpty title) (applySorter sorter2 schema)
                             (schemaMap b2)) st'))) as Hc.
    { intros properties.
      pose proof (collectProperties_state defaultT1 defaultT2 lf1 lf2
                    properties [] [] (build_state b2)) as H.
      destruct (collectProperties' defaultT1 strict lf1 properties [] _)
        as [[d1 s1]| |],
               (collectProperties' defaultT2 strict lf2 properties [] _)
        as [[d2 s2]| |];
        cbn [mapOutcome mbind Outcome_bind snd build_state] in *; done. }
    destruct (_ && _); [|apply Hc].
    destruct (node_properties _) as [properties|]; [apply Hc|done].
Qed.

(** X17: which nested types are found, and whether the extraction
    raises, does not depend on the default-type map, the link formatter
    or the property sorter.  For two configurations with the same
    [strictComment], if the strict-order list is returned under one it is
    returned under the other, with the same titles in the same order for
    the top-level entries and the very same nested-type entries. *)
Theorem generateSchema_nested_independent (sourceFile : SourceFile)
    (config1 config2 : option GenerateConfig) (list1 : SchemaList) :
  from_option cfg_strictComment false config1 = strict ->
  from_option cfg_strictComment false config2 = strict ->
  generateSchema' fuel P sourceFile (withStrictOrder true config1)
  = Ret (OutputList list1) ->
  exists top1 top2 nested,
    list1 = top1 ++ nested
    /\ generateSchema' fuel P sourceFile (withStrictOrder true config2)
       = Ret (OutputList (top2 ++ nested))
    /\ entry_title <$> top1 = entry_title <$> top2
    /\ Forall (fun e => ~ isNestedEntry e) top1
    /\ Forall (fun e => ~ isNestedEntry e) top2
    /\ Forall isNestedEntry nested.
Proof.
  intros Hs1 Hs2 H.
  apply generateSchema_Ret in H as (b1 & Hb1 & Hout). cbn in Hout.
  injection Hout as ->. rewrite buildAll_withStrictOrder in Hb1.
  assert (mapOutcome build_state (buildAll' fuel P sourceFile config1)
          = mapOutcome build_state (buildAll' fuel P sourceFile config2))
    as Hstate.
  { unfold buildAll. apply forEach_project; [|done].
    intros d s1 s2 Hs. rewrite Hs1, Hs2. by apply buildDeclaration_state. }
  rewrite Hb1 in Hstate. cbn [mapOutcome] in Hstate.
  destruct (buildAll' fuel P sourceFile config2) as [b2| |] eqn:Hb2;
    cbn [mapOutcome] in Hstate; [|done..].
  injection Hstate as Hstate.
  exists (schemaList b1), (schemaList b2), (nestedTypeList (build_state b1)).
  pose proof Hb1 as Hf1. pose proof Hb2 as Hf2. unfold buildAll in Hf1, Hf2.
  apply forEach_buildDeclaration in Hf1 as (top1 & Hl1 & Ht1 & Hn1 & _).
  apply forEach_buildDeclaration in Hf2 as (top2 & Hl2 & Ht2 & Hn2 & _).
  cbn [schemaList app] in Hl1, Hl2. subst top1 top2.
  split_and!; [done| |by rewrite Ht1, Ht2|done..|].
  - rewrite (generateSchema_of_buildAll _ _ _ _ _ _ _ fuel P sourceFile _ b2)
      by (by rewrite buildAll_withStrictOrder).
    cbn. by rewrite Hstate.
  - unfold buildAll in Hb1.
    match type of Hb1 with
    | ?o = _ =>
        assert (partial o
                  (fun b => Forall isNestedEntry (nestedTypeList (build_state b))))
          as Hk
    end.
    { apply (forEach_partial
               (fun b => Forall isNestedEntry (nestedTypeList (build_state b))));
        [by constructor|].
      intros d b0 _ Hb0.
      apply (buildDeclaration_keeps P format toSingleLine escape parseTokens
               printTokens (fun st => Forall isNestedEntry (nestedTypeList st)));
        [|done].
      intros. by apply dumpNestedTypes_keeps_nested. }
    by rewrite Hb1 in Hk.
Qed.

End ConfigIndependence.

Lemma generateSchema_nested_independent_witness :
  exists list1 top1 top2 nested,
    Button.run_generateSchema 5 Button.button_program Button.sourceFile
      (withStrictOrder true None) = Ret (OutputList list1)
    /\ list1 = top1 ++ nested
    /\ Button.run_generateSchema 5 Button.button_program Button.sourceFile
         (withStrictOrder true
            (Some (mkConfig (Some ∅) false None (Some (fun _ => None)) false
                     None None)))
       = Ret (OutputList (top2 ++ nested))
    /\ Forall isNestedEntry nested.
Proof.
  eexists.
  destruct (generateSchema_nested_independent Demo.demo_format
              Demo.toSingleLine Demo.escape Demo.parseTokens Demo.printTokens
              Demo.defaultTypeMap Demo.linkFormatter Button.button_program 5
              false Button.sourceFile None
              (Some (mkConfig (Some ∅) false None (Some (fun _ => None)) false
                       None None))
              _ eq_refl eq_refl ltac:(vm_compute; reflexivity))
    as (top1 & top2 & nested & H1 & H2 & Ht & Hn1 & Hn2 & Hn).
  exists top1, top2, nested.
  split; [vm_compute; reflexivity|]. split; [exact H1|]. split; [exact H2|].
  exact Hn.
Defined.

Lemma getSymbolTags_raises_iff_witness :
  getSymbolTags (mkSymbol "size" [] [mkTagInfo "zh" (Some [])] []) false
  = TypeError.
Proof.
  apply (proj2 (proj1 (getSymbolTags_raises_iff
                         (mkSymbol "size" [] [mkTagInfo "zh" (Some [])] [])
                         false))).
  exists (mkTagInfo "zh" (Some [])). split; [by left|reflexivity].
Defined.

Lemma applySorter_reorders_witness :
  exists params',
    applySorter (Some (fun a b => 1%Z))
      (FunctionSchema [mkTag "title" "open"]
         [mkProperty "target" (Some "Size") false (Some []) (Some None);
          mkProperty "delay" (Some "number") true (Some [])
            (Some (Some "0"))] "void")
    = FunctionSchema [mkTag "title" "open"] params' "void".
Proof.
  apply (proj1 (proj2 (proj2 (applySorter_reorders
                                (Some (fun a b => 1%Z))
                                (FunctionSchema [mkTag "title" "open"]
                                   [mkProperty "target" (Some "Size") false
                                      (Some []) (Some None);
                                    mkProperty "delay" (Some "number") true
                                      (Some []) (Some (Some "0"))] "void"))))
           [mkTag "title" "open"]
           [mkProperty "target" (Some "Size") false (Some []) (Some None);
            mkProperty "delay" (Some "number") true (Some [])
              (Some (Some "0"))] "void").
  reflexivity.
Defined.
